(** * jsctl, package [internal/operator]: installer rendering, Installation
      manifest building and component status.

    A shallow embedding of [internal/operator/operator.go].  Go strings and
    byte slices are [string] (a sequence of bytes), Go maps are [gmap],
    pointers that stand for "present or absent" are [option], functions that
    return [(T, error)] return [result T].  Everything the package consumes
    from outside (the embedded installer directory, the host file system,
    the sort, semver, JSON, YAML and template libraries, the Venafi issuer
    generator, the cluster client and the applier) is an interface of the
    development: a type class, or a record where the source passes a value.
    The theorems hold for every instance; a reference instance runs the
    examples. *)

From stdpp Require Import base strings list gmap sorting.
From Stdlib Require Import ZArith NArith Lia Permutation Sorted Ascii String.
From Stdlib Require DecimalString.

Local Open Scope string_scope.
Local Open Scope list_scope.

(** stdpp keeps [simpl] from unfolding the append of strings; the proofs
    below compute with strings that have a literal prefix. *)
#[local] Arguments String.append !_ _ / : simpl nomatch.

(** ** Errors *)

(** An error value made outside the package.  The package classifies such
    values with [errors.Is(err, os.ErrNotExist)] and [kerrors.IsNotFound]. *)
Inductive liberror : Type :=
| PathNotExist (path : string)     (* *fs.PathError wrapping fs.ErrNotExist *)
| StatusNotFound (msg : string)    (* API status error with reason NotFound *)
| Generic (msg : string).          (* any other error *)

Definition is_ErrNotExist (e : liberror) : bool :=
  match e with PathNotExist _ => true | _ => false end.

Definition IsNotFound (e : liberror) : bool :=
  match e with StatusNotFound _ => true | _ => false end.

(** Errors returned by the package: its three [errors.New] sentinels, an
    outside error passed on unchanged, [fmt.Errorf("msg: %w", err)], and a
    run-time panic (which unwinds instead of returning). *)
Inductive error : Type :=
| ErrNoManifest
| ErrNoKeyFile
| ErrNoInstallation
| ErrOther (e : liberror)
| ErrWrap (msg : string) (e : error)
| Panic (msg : string).

Inductive result (E A : Type) : Type :=
| OK (a : A)
| Fail (e : E).
Arguments OK {E A} a.
Arguments Fail {E A} e.

Definition bind {E A B} (r : result E A) (k : A -> result E B) : result E B :=
  match r with
  | OK a => k a
  | Fail e => Fail e
  end.

Notation "x <-! r ; k" := (bind r (fun x => k))
  (at level 100, r at next level, right associativity,
   format "'[v' x  <-!  r ; '/' k ']'").

(** [if err != nil { return ..., fmt.Errorf(msg + ": %w", err) }] *)
Definition wrap {A} (msg : string) (r : result error A) : result error A :=
  match r with
  | OK a => OK a
  | Fail e => Fail (ErrWrap msg e)
  end.

(** An outside call whose error is returned as it is. *)
Definition lift {A} (r : result liberror A) : result error A :=
  match r with
  | OK a => OK a
  | Fail e => Fail (ErrOther e)
  end.

Definition mapResult {E A B} (f : A -> B) (r : result E A) : result E B :=
  match r with
  | OK a => OK (f a)
  | Fail e => Fail e
  end.

Definition isOK {E A} (r : result E A) : bool :=
  match r with
  | OK _ => true
  | Fail _ => false
  end.

#[global] Instance liberror_eq_dec : EqDecision liberror.
Proof. solve_decision. Defined.

#[global] Instance error_eq_dec : EqDecision error.
Proof. solve_decision. Defined.

(** [errors.Is(err, target)]: [err] or an error it wraps, going down the
    chain of [Unwrap], is [target].  The package's sentinels are compared by
    their identity. *)
Fixpoint errors_Is (err target : error) : bool :=
  bool_decide (err = target)
  || match err with
     | ErrWrap _ inner => errors_Is inner target
     | _ => false
     end.

(** ** Strings and paths *)

Definition chars (s : string) : list ascii := list_ascii_of_string s.
Definition str (l : list ascii) : string := string_of_list_ascii l.

Definition isSep (c : ascii) : bool := Ascii.eqb c "/"%char.

(** No byte of the string is a brace, so that the string holds no delimiter
    of a template action. *)
Definition isBrace (c : ascii) : bool :=
  Ascii.eqb c "{"%char || Ascii.eqb c "}"%char.

Definition noBrace (s : string) : bool :=
  forallb (fun c => negb (isBrace c)) (chars s).

(** [strings.HasSuffix] and [strings.TrimSuffix]. *)
Definition strings_HasSuffix (s suffix : string) : bool :=
  (String.length suffix <=? String.length s)%nat &&
  String.eqb (substring (String.length s - String.length suffix)
                        (String.length suffix) s) suffix.

Definition strings_TrimSuffix (s suffix : string) : string :=
  if strings_HasSuffix s suffix
  then substring 0 (String.length s - String.length suffix) s
  else s.

(** [strings.Split(s, "/")], with the element being read in [cur]. *)
Fixpoint splitSep (s : string) (cur : string) : list string :=
  match s with
  | EmptyString => [cur]
  | String c s' =>
      if isSep c then cur :: splitSep s' ""
      else splitSep s' (cur +:+ String c "")
  end.

Fixpoint joinSep (l : list string) : string :=
  match l with
  | [] => ""
  | [x] => x
  | x :: r => x +:+ "/" +:+ joinSep r
  end.

(** [filepath.Base] on a slash-separated path. *)
Fixpoint dropSeps (l : list ascii) : list ascii :=
  match l with
  | c :: r => if isSep c then dropSeps r else l
  | [] => []
  end.

Fixpoint takeElem (l : list ascii) : list ascii :=
  match l with
  | c :: r => if isSep c then [] else c :: takeElem r
  | [] => []
  end.

Definition filepath_Base (path : string) : string :=
  if String.eqb path "" then "."
  else
    let stripped := dropSeps (rev (chars path)) in
    let last := rev (takeElem stripped) in
    match last with
    | [] => "/"
    | _ => str last
    end.

(** [filepath.Clean], element by element.  [out] is the cleaned path read so
    far, last element first.  A [..] removes the element before it; where
    there is none to remove it is dropped at the root and kept otherwise, so
    that [out] has [..] on top only when it holds nothing else. *)
Definition cleanStep (rooted : bool) (out : list string) (elem : string)
  : list string :=
  if String.eqb elem "" then out
  else if String.eqb elem "." then out
  else if String.eqb elem ".." then
    match out with
    | top :: rest =>
        if String.eqb top ".." then elem :: out else rest
    | [] => if rooted then [] else [elem]
    end
  else elem :: out.

Definition filepath_Clean (path : string) : string :=
  match path with
  | EmptyString => "."
  | String c _ =>
      let rooted := isSep c in
      let out := fold_left (cleanStep rooted) (splitSep path "") [] in
      let body := joinSep (rev out) in
      if rooted then "/" +:+ body
      else if String.eqb body "" then "." else body
  end.

(** [filepath.Join]: the elements from the first non-empty one on, joined
    with the separator and cleaned; the empty string when all are empty. *)
Fixpoint filepath_Join (elem : list string) : string :=
  match elem with
  | [] => ""
  | e :: r => if String.eqb e "" then filepath_Join r else filepath_Clean (joinSep elem)
  end.

(** ** Sorting *)

(** Ascending order for a [Less]: no element is less than an earlier one. *)
Definition ascending {A} (less : A -> A -> bool) : list A -> Prop :=
  StronglySorted (fun a b => less b a = false).

(** [sort.Sort] and [sort.Slice] order a slice in place with the [Less] they
    are given.  What they leave holds the elements of the slice and, for a
    [Less] that is a strict weak order, is in ascending order.  They are not
    stable, and which algorithm runs depends on the length of the slice: the
    order in which elements that [Less] does not tell apart are left is not
    specified, and the package is modelled for every sort that keeps the
    elements and orders them. *)
Class Sort : Type := {
  sort_Slice : forall A : Type, (A -> A -> bool) -> list A -> list A;
  sort_Slice_Permutation :
    forall A (less : A -> A -> bool) (data : list A),
      sort_Slice A less data ≡ₚ data;
  sort_Slice_ascending :
    forall A (less : A -> A -> bool) (data : list A),
      (forall a b, less a b = true -> less b a = false) ->
      (forall a b c, less a b = false -> less b c = false -> less a c = false) ->
      ascending less (sort_Slice A less data)
}.

Arguments sort_Slice {_ A} less data.

(** [sort.Sort(data)] for a collection whose [Less] is [less]. *)
Definition sort_Sort `{Sort} {A} (less : A -> A -> bool) (data : list A)
  : list A :=
  sort_Slice less data.

(** One such sort is the insertion sort that the library runs on a short
    slice: each element moves down while it is less than the one before it.
    [hi] is the ordered part, highest index first. *)
Fixpoint insertDown {A} (less : A -> A -> bool) (x : A) (hi : list A) : list A :=
  match hi with
  | [] => [x]
  | y :: r => if less x y then y :: insertDown less x r else x :: hi
  end.

Definition insertionSort {A} (less : A -> A -> bool) (data : list A) : list A :=
  rev (fold_left (fun hi x => insertDown less x hi) data []).

(** The ordered part of the insertion sort, read from the highest index
    down. *)
Definition descending {A} (less : A -> A -> bool) : list A -> Prop :=
  StronglySorted (fun a b => less a b = false).

(** ** [encoding/base64], standard encoding with padding *)

Definition encodeStd : string :=
  "ABCDEFGHIJKLMNOPQRSTUVWXYZabcdefghijklmnopqrstuvwxyz0123456789+/".

Definition byte (c : ascii) : N := N_of_ascii c.

(** [encodeStd[i]] *)
Definition sextet (i : N) : ascii :=
  match String.get (N.to_nat i) encodeStd with
  | Some c => c
  | None => "="%char
  end.

(** Three source bytes make a 24-bit value, written as four 6-bit digits;
    a last group of one or two bytes is padded with [=]. *)
Fixpoint EncodeToString (src : list ascii) : string :=
  match src with
  | [] => ""
  | [a] =>
      let val := N.shiftl (byte a) 16 in
      String (sextet (N.land (N.shiftr val 18) 63))
     (String (sextet (N.land (N.shiftr val 12) 63)) "==")
  | [a; b] =>
      let val := N.lor (N.shiftl (byte a) 16) (N.shiftl (byte b) 8) in
      String (sextet (N.land (N.shiftr val 18) 63))
     (String (sextet (N.land (N.shiftr val 12) 63))
     (String (sextet (N.land (N.shiftr val 6) 63)) "="))
  | a :: b :: c :: rest =>
      let val := N.lor (N.lor (N.shiftl (byte a) 16) (N.shiftl (byte b) 8))
                       (byte c) in
      String (sextet (N.land (N.shiftr val 18) 63))
     (String (sextet (N.land (N.shiftr val 12) 63))
     (String (sextet (N.land (N.shiftr val 6) 63))
     (String (sextet (N.land val 63)) (EncodeToString rest))))
  end.

(** The digit a character stands for, used to say what an encoded string
    decodes to. *)
Fixpoint indexIn (c : ascii) (table : string) (i : N) : option N :=
  match table with
  | EmptyString => None
  | String d r => if Ascii.eqb c d then Some i else indexIn c r (N.succ i)
  end.

Definition digit (c : ascii) : option N := indexIn c encodeStd 0.

Definition octet (n : N) : ascii := ascii_of_N (N.land n 255).

Fixpoint DecodeString (s : list ascii) : option (list ascii) :=
  match s with
  | [] => Some []
  | [c0; c1; p2; p3] =>
      match digit c0, digit c1 with
      | Some d0, Some d1 =>
          if Ascii.eqb p3 "="%char then
            if Ascii.eqb p2 "="%char then
              let val := N.lor (N.shiftl d0 18) (N.shiftl d1 12) in
              Some [octet (N.shiftr val 16)]
            else
              match digit p2 with
              | Some d2 =>
                  let val := N.lor (N.lor (N.shiftl d0 18) (N.shiftl d1 12))
                                   (N.shiftl d2 6) in
                  Some [octet (N.shiftr val 16); octet (N.shiftr val 8)]
              | None => None
              end
          else
            match digit p2, digit p3 with
            | Some d2, Some d3 =>
                let val := N.lor (N.lor (N.lor (N.shiftl d0 18) (N.shiftl d1 12))
                                        (N.shiftl d2 6)) d3 in
                Some [octet (N.shiftr val 16); octet (N.shiftr val 8); octet val]
            | _, _ => None
            end
      | _, _ => None
      end
  | c0 :: c1 :: c2 :: c3 :: rest =>
      match digit c0, digit c1, digit c2, digit c3, DecodeString rest with
      | Some d0, Some d1, Some d2, Some d3, Some tail =>
          let val := N.lor (N.lor (N.lor (N.shiftl d0 18) (N.shiftl d1 12))
                                  (N.shiftl d2 6)) d3 in
          Some (octet (N.shiftr val 16) :: octet (N.shiftr val 8)
                  :: octet val :: tail)
      | _, _, _, _, _ => None
      end
  | _ => None
  end.

(** ** Data *)

(** [docker.ConfigEntry] and [docker.ConfigJSON]. *)
Record ConfigEntry : Type := {
  ConfigEntry_Username : string;
  ConfigEntry_Password : string;
  ConfigEntry_Email : string;
  ConfigEntry_Auth : string
}.

Record ConfigJSON : Type := {
  ConfigJSON_Auths : gmap string ConfigEntry
}.

(** [corev1.Secret], with the fields the package fills in. *)
Record Secret : Type := {
  Secret_APIVersion : string;
  Secret_Kind : string;
  Secret_Name : string;
  Secret_Namespace : string;
  Secret_Type : string;
  Secret_Data : gmap string string
}.

(** Constants of [k8s.io/api/core/v1] and of cert-manager. *)
Definition corev1_SchemeGroupVersion : string := "v1".
Definition corev1_SecretTypeDockerConfigJson : string := "kubernetes.io/dockerconfigjson".
Definition corev1_DockerConfigJsonKey : string := ".dockerconfigjson".
Definition cmapi_IssuerKind : string := "Issuer".
Definition certmanager_GroupName : string := "cert-manager.io".

(** [cmmeta.ObjectReference] *)
Record ObjectReference : Type := {
  ObjectReference_Name : string;
  ObjectReference_Kind : string;
  ObjectReference_Group : string
}.

(** The [operatorv1alpha1] types of the Installation custom resource.  A
    pointer field is an [option]: [None] is the nil pointer, which the
    serialisation leaves out. *)
Record CertManagerControllerConfig : Type := {
  CertManagerControllerConfig_ReplicaCount : option Z
}.

Record CertManagerWebhookConfig : Type := {
  CertManagerWebhookConfig_ReplicaCount : option Z
}.

Record CertManager : Type := {
  CertManager_Version : string;
  CertManager_Controller : option CertManagerControllerConfig;
  CertManager_Webhook : option CertManagerWebhookConfig
}.

Record ApproverPolicy : Type := { }.

Record CSIDriverCertManager : Type := { }.

Record CSIDriverCertManagerSpiffe : Type := {
  CSIDriverCertManagerSpiffe_ReplicaCount : option Z
}.

Record CSIDrivers : Type := {
  CSIDrivers_CertManager : option CSIDriverCertManager;
  CSIDrivers_CertManagerSpiffe : option CSIDriverCertManagerSpiffe
}.

Record IstioCSR : Type := {
  IstioCSR_ReplicaCount : option Z;
  IstioCSR_IssuerRef : option ObjectReference
}.

Record VenafiOauthHelper : Type := {
  VenafiOauthHelper_ImagePullSecrets : list string
}.

Record InstallationCondition : Type := {
  Condition_Type : string;
  Condition_Status : string;
  Condition_Message : string
}.

Record InstallationStatus : Type := {
  Status_Conditions : list InstallationCondition
}.

(** The part of the operator API that is not in the package: the issuer
    type, the group/version/kind of the Installation resource, the [True]
    condition status and the seven condition types that have a component
    name. *)
Class OperatorAPI : Type := {
  Issuer : Type;
  InstallationGVK_APIVersion : string;
  InstallationGVK_Kind : string;
  ConditionTrue : string;
  InstallationConditionCertManagerReady : string;
  InstallationConditionCertManagerIssuersReady : string;
  InstallationConditionCSIDriversReady : string;
  InstallationConditionIstioCSRReady : string;
  InstallationConditionApproverPolicyReady : string;
  InstallationConditionVenafiOauthHelperReady : string;
  InstallationConditionManifestsReady : string
}.

Section Types.
Context `{API : OperatorAPI}.

Record InstallationSpec : Type := {
  Spec_Registry : string;
  Spec_CertManager : option CertManager;
  Spec_ApproverPolicy : option ApproverPolicy;
  Spec_CSIDrivers : option CSIDrivers;
  Spec_IstioCSR : option IstioCSR;
  Spec_VenafiOauthHelper : option VenafiOauthHelper;
  Spec_Issuers : list Issuer
}.

Record Installation : Type := {
  Installation_Kind : string;
  Installation_APIVersion : string;
  Installation_Name : string;
  Installation_Spec : InstallationSpec;
  Installation_Status : InstallationStatus
}.

(** [type manifests struct] *)
Record manifests : Type := {
  installation : Installation;
  secrets : list Secret
}.
End Types.

(** ** The collaborators *)

(** [github.com/Masterminds/semver]: parsing, printing and [LessThan], which
    [semver.Collection] uses as its [Less].  [String] prints the three
    numbers with dots between them and, after a hyphen and a plus sign, the
    pre-release and the metadata, which hold letters, digits, hyphens and
    dots: what it prints holds no path separator. *)
Class Semver : Type := {
  semver_Version : Type;
  NewVersion : string -> result liberror semver_Version;
  Version_String : semver_Version -> string;
  LessThan : semver_Version -> semver_Version -> bool;
  Version_String_element :
    forall v, forallb (fun c => negb (isSep c)) (chars (Version_String v)) = true
}.

(** [encoding/json] on the docker config, [sigs.k8s.io/yaml] on the two kinds
    of document, and [text/template]. *)
Class Encoding `{API : OperatorAPI} : Type := {
  json_Marshal : ConfigJSON -> result liberror string;
  yaml_Marshal_Secret : Secret -> result liberror string;
  yaml_Marshal_Installation : Installation -> result liberror string;
  Template : Type;
  template_Parse : string -> result liberror Template;
  template_Execute : Template -> gmap string string -> result liberror string
}.

(** An embedded file or directory: its name, and for a file its contents. *)
Record DirEntry : Type := {
  DirEntry_Name : string;
  DirEntry_IsDir : bool;
  DirEntry_Data : string
}.

(** A file opened with [os.Open]: what reading it to the end gives. *)
Record File : Type := {
  ioutil_ReadAll : result liberror string
}.

(** What the process finds around it: what
    [//go:embed installers/*.yaml] put in the embedded file system, and the
    host file system.  [installers] holds the entries of the embedded
    directory [installers], as [ReadDir] lists them.  A directory that the
    pattern matches is embedded with all that it holds: [installers_below]
    holds the files and directories below the directories of [installers],
    each with the name of that directory and its path from there. *)
Class World : Type := {
  installers : list DirEntry;
  installers_below : list (string * string * DirEntry);
  os_Open : string -> result liberror File
}.

(** [venafi.GenerateOperatorManifestsForIssuer], the expansion of an issuer
    template into an issuer and its secret. *)
Class Venafi `{API : OperatorAPI} : Type := {
  VenafiIssuer : Type;
  GenerateOperatorManifestsForIssuer :
    VenafiIssuer -> result error (Issuer * Secret)
}.

(** [type Applier interface].  [None] is the nil error. *)
Record Applier : Type := {
  Apply : string -> option error
}.

(** [InstallationClient]: the REST client, as the outcome of
    [Get().Resource(resource).Name(name).Do(ctx).Into(&installation)]. *)
Record InstallationClient `{API : OperatorAPI} : Type := {
  client_Get : string -> string -> result liberror Installation
}.

(** What a call of [ApplyOperatorYAML] or [ApplyInstallationYAML] did: the
    streams it handed to [Apply], in order, and the error it returned. *)
Record run : Type := {
  Applied : list string;
  Returned : option error
}.

Definition returnErr (e : error) : run := {| Applied := []; Returned := Some e |}.

Definition applyWith (applier : Applier) (r : result error string) : run :=
  match r with
  | Fail e => returnErr e
  | OK output => {| Applied := [output]; Returned := Apply applier output |}
  end.

Definition newline : string := String (ascii_of_nat 10) "".

(** The YAML document marker written between documents, ["---\n"]. *)
Definition documentMarker : string := "---" +:+ newline.

(** ** The package *)

Section Operator.
Context `{API : OperatorAPI} `{SV : Semver} `{SORT : Sort} `{ENC : !Encoding}
        `{W : World} `{VEN : !Venafi}.

(** [type ApplyOperatorYAMLOptions struct] *)
Record ApplyOperatorYAMLOptions : Type := {
  Version : string;
  ImageRegistry : string;
  CredentialsLocation : string
}.

(** [installers.Open(name)]: the embedded file or directory with that path,
    an entry of [installers] or one below a directory of [installers]; or,
    when nothing embedded has that path, a path error that is
    [fs.ErrNotExist]. *)
Definition installers_Open (name : string) : result liberror DirEntry :=
  match List.find (fun entry =>
                     String.eqb ("installers/" +:+ DirEntry_Name entry) name)
                  installers with
  | Some entry => OK entry
  | None =>
      match List.find (fun '(dir, path, _) =>
                         String.eqb ("installers/" +:+ dir +:+ "/" +:+ path) name)
                      installers_below with
      | Some (_, _, entry) => OK entry
      | None => Fail (PathNotExist name)
      end
  end.

(** [io.Copy(buf, file)]: reading a directory fails. *)
Definition io_Copy (file : DirEntry) : result liberror string :=
  if DirEntry_IsDir file then Fail (Generic "is a directory")
  else OK (DirEntry_Data file).

(** First loop of [Versions]: the names of the entries that are not
    directories, without the [.yaml] suffix. *)
Fixpoint rawVersionsOf (entries : list DirEntry) : list string :=
  match entries with
  | [] => []
  | entry :: rest =>
      if DirEntry_IsDir entry then rawVersionsOf rest
      else strings_TrimSuffix (filepath_Base (DirEntry_Name entry)) ".yaml"
             :: rawVersionsOf rest
  end.

(** Second loop of [Versions]: parse each name, return the first error. *)
Fixpoint parseVersions (rawVersions : list string)
  : result error (list semver_Version) :=
  match rawVersions with
  | [] => OK []
  | rawVersion :: rest =>
      match NewVersion rawVersion with
      | Fail err => Fail (ErrOther err)
      | OK parsedVersion =>
          parsedVersions <-! parseVersions rest;
          OK (parsedVersion :: parsedVersions)
      end
  end.

(** [func Versions() ([]string, error)].  [ReadDir] of the embedded
    directory does not fail. *)
Definition Versions : result error (list string) :=
  let rawVersions := rawVersionsOf installers in
  parsedVersions <-! parseVersions rawVersions;
  let sorted := sort_Sort LessThan parsedVersions in
  OK (List.map (fun parsedVersion => "v" +:+ Version_String parsedVersion) sorted).

(** [func latestManifest() (io.Reader, error)].  [versions[len(versions)-1]]
    panics on an empty slice. *)
Definition latestManifest : result error DirEntry :=
  versions <-! Versions;
  match last versions with
  | None => Fail (Panic "index out of range [-1]")
  | Some latest =>
      let name := latest +:+ ".yaml" in
      lift (installers_Open (filepath_Join ["installers"; name]))
  end.

(** [func manifestVersion(version string) (io.Reader, error)] *)
Definition manifestVersion (version : string) : result error DirEntry :=
  let name := version +:+ ".yaml" in
  match installers_Open (filepath_Join ["installers"; name]) with
  | Fail err =>
      if is_ErrNotExist err then Fail ErrNoManifest else Fail (ErrOther err)
  | OK file => OK file
  end.

(** The [config := docker.ConfigJSON{...}] of [ImagePullSecret]. *)
Definition dockerConfig (keyData : string) : ConfigJSON :=
  let username := "_json_key" in
  let email := "auth@jetstack.io" in
  let auth := username +:+ ":" +:+ keyData in
  {| ConfigJSON_Auths :=
       {[ "eu.gcr.io" :=
            {| ConfigEntry_Username := username;
               ConfigEntry_Password := keyData;
               ConfigEntry_Email := email;
               ConfigEntry_Auth := EncodeToString (chars auth) |} ]} |}.

(** [func ImagePullSecret(keyFileLocation string) (secret, error)] *)
Definition ImagePullSecret (keyFileLocation : string) : result error Secret :=
  match os_Open keyFileLocation with
  | Fail err =>
      if is_ErrNotExist err then Fail ErrNoKeyFile else Fail (ErrOther err)
  | OK file =>
      keyData <-! wrap "failed to read key file" (lift (ioutil_ReadAll file));
      let config := dockerConfig keyData in
      configJSON <-! wrap "failed to encode docker config"
                          (lift (json_Marshal config));
      let secretName := "jse-gcr-creds" in
      let namespace := "jetstack-secure" in
      OK {| Secret_APIVersion := corev1_SchemeGroupVersion;
            Secret_Kind := "Secret";
            Secret_Name := secretName;
            Secret_Namespace := namespace;
            Secret_Type := corev1_SecretTypeDockerConfigJson;
            Secret_Data := {[ corev1_DockerConfigJsonKey := configJSON ]} |}
  end.

(** [ApplyOperatorYAML] up to its last line: the stream it builds. *)
Definition renderOperatorYAML (options : ApplyOperatorYAMLOptions)
  : result error string :=
  file <-! (if String.eqb (Version options) "" then latestManifest
            else manifestVersion (Version options));
  buf <-! lift (io_Copy file);
  secret <-! ImagePullSecret (CredentialsLocation options);
  secretData <-! wrap "error marshalling secret data"
                      (lift (yaml_Marshal_Secret secret));
  let buf := buf +:+ documentMarker +:+ secretData in
  tpl <-! lift (template_Parse buf);
  lift (template_Execute tpl {[ "ImageRegistry" := ImageRegistry options ]}).

(** [func ApplyOperatorYAML(ctx, applier, options) error] *)
Definition ApplyOperatorYAML (applier : Applier)
           (options : ApplyOperatorYAMLOptions) : run :=
  applyWith applier (renderOperatorYAML options).

(** [type ApplyInstallationYAMLOptions struct] *)
Record ApplyInstallationYAMLOptions : Type := {
  InstallCSIDriver : bool;
  InstallSpiffeCSIDriver : bool;
  InstallIstioCSR : bool;
  InstallVenafiOauthHelper : bool;
  VenafiIssuers : list VenafiIssuer;
  IstioCSRIssuer : string;
  Installation_ImageRegistry : string;
  Credentials : string;
  CertManagerReplicas : Z;
  CertManagerVersion : string;
  IstioCSRReplicas : Z;
  SpiffeCSIDriverReplicas : Z
}.

(** Assignment to [mf.installation.Spec.<field>] and to [mf.secrets]. *)
Definition withSpec (f : InstallationSpec -> InstallationSpec)
           (mf : manifests) : manifests :=
  let inst := installation mf in
  {| installation :=
       {| Installation_Kind := Installation_Kind inst;
          Installation_APIVersion := Installation_APIVersion inst;
          Installation_Name := Installation_Name inst;
          Installation_Spec := f (Installation_Spec inst);
          Installation_Status := Installation_Status inst |};
     secrets := secrets mf |}.

Definition appendSecret (secret : Secret) (mf : manifests) : manifests :=
  {| installation := installation mf; secrets := secrets mf ++ [secret] |}.

Definition setCertManager (cm : option CertManager) (s : InstallationSpec) :=
  {| Spec_Registry := Spec_Registry s; Spec_CertManager := cm;
     Spec_ApproverPolicy := Spec_ApproverPolicy s;
     Spec_CSIDrivers := Spec_CSIDrivers s; Spec_IstioCSR := Spec_IstioCSR s;
     Spec_VenafiOauthHelper := Spec_VenafiOauthHelper s;
     Spec_Issuers := Spec_Issuers s |}.

Definition setCSIDrivers (d : option CSIDrivers) (s : InstallationSpec) :=
  {| Spec_Registry := Spec_Registry s; Spec_CertManager := Spec_CertManager s;
     Spec_ApproverPolicy := Spec_ApproverPolicy s;
     Spec_CSIDrivers := d; Spec_IstioCSR := Spec_IstioCSR s;
     Spec_VenafiOauthHelper := Spec_VenafiOauthHelper s;
     Spec_Issuers := Spec_Issuers s |}.

Definition setIstioCSR (i : option IstioCSR) (s : InstallationSpec) :=
  {| Spec_Registry := Spec_Registry s; Spec_CertManager := Spec_CertManager s;
     Spec_ApproverPolicy := Spec_ApproverPolicy s;
     Spec_CSIDrivers := Spec_CSIDrivers s; Spec_IstioCSR := i;
     Spec_VenafiOauthHelper := Spec_VenafiOauthHelper s;
     Spec_Issuers := Spec_Issuers s |}.

Definition setVenafiOauthHelper (h : option VenafiOauthHelper)
           (s : InstallationSpec) :=
  {| Spec_Registry := Spec_Registry s; Spec_CertManager := Spec_CertManager s;
     Spec_ApproverPolicy := Spec_ApproverPolicy s;
     Spec_CSIDrivers := Spec_CSIDrivers s; Spec_IstioCSR := Spec_IstioCSR s;
     Spec_VenafiOauthHelper := h;
     Spec_Issuers := Spec_Issuers s |}.

Definition appendIssuer (issuer : Issuer) (s : InstallationSpec) :=
  {| Spec_Registry := Spec_Registry s; Spec_CertManager := Spec_CertManager s;
     Spec_ApproverPolicy := Spec_ApproverPolicy s;
     Spec_CSIDrivers := Spec_CSIDrivers s; Spec_IstioCSR := Spec_IstioCSR s;
     Spec_VenafiOauthHelper := Spec_VenafiOauthHelper s;
     Spec_Issuers := Spec_Issuers s ++ [issuer] |}.

(** [func applyCertManagerVersion(manifestTemplates, options)].  The
    assignment goes through the [CertManager] pointer. *)
Definition applyCertManagerVersion (manifestTemplates : manifests)
           (options : ApplyInstallationYAMLOptions) : result error manifests :=
  if String.eqb (CertManagerVersion options) "" then OK manifestTemplates
  else
    match Spec_CertManager (Installation_Spec (installation manifestTemplates)) with
    | None => Fail (Panic "nil pointer dereference")
    | Some cm =>
        OK (withSpec
              (setCertManager
                 (Some {| CertManager_Version := CertManagerVersion options;
                          CertManager_Controller := CertManager_Controller cm;
                          CertManager_Webhook := CertManager_Webhook cm |}))
              manifestTemplates)
    end.

(** The [drivers] value that [applyCSIDriversToInstallation] fills in. *)
Definition csiDrivers (options : ApplyInstallationYAMLOptions) : CSIDrivers :=
  {| CSIDrivers_CertManager :=
       if InstallCSIDriver options then Some Build_CSIDriverCertManager else None;
     CSIDrivers_CertManagerSpiffe :=
       if InstallSpiffeCSIDriver options
       then Some {| CSIDriverCertManagerSpiffe_ReplicaCount :=
                      Some (SpiffeCSIDriverReplicas options) |}
       else None |}.

(** [func applyCSIDriversToInstallation(manifests, options)] *)
Definition applyCSIDriversToInstallation (mf : manifests)
           (options : ApplyInstallationYAMLOptions) : manifests :=
  let assign := false in
  let assign := if InstallCSIDriver options then true else assign in
  let assign := if InstallSpiffeCSIDriver options then true else assign in
  let drivers := csiDrivers options in
  if assign then withSpec (setCSIDrivers (Some drivers)) mf else mf.

(** [func applyIstioCSRToInstallation(manifests, options) error] *)
Definition applyIstioCSRToInstallation (mf : manifests)
           (options : ApplyInstallationYAMLOptions) : result error manifests :=
  if negb (InstallIstioCSR options) then OK mf
  else
    let istio := {| IstioCSR_ReplicaCount := Some (IstioCSRReplicas options);
                    IstioCSR_IssuerRef := None |} in
    if String.eqb (IstioCSRIssuer options) "" then
      OK (withSpec (setIstioCSR (Some istio)) mf)
    else
      OK (withSpec
            (setIstioCSR
               (Some {| IstioCSR_ReplicaCount := IstioCSR_ReplicaCount istio;
                        IstioCSR_IssuerRef :=
                          Some {| ObjectReference_Name := IstioCSRIssuer options;
                                  ObjectReference_Kind := cmapi_IssuerKind;
                                  ObjectReference_Group := certmanager_GroupName |} |}))
            mf).

(** [func applyVenafiOauthHelperToInstallation(manifests, options) error] *)
Definition applyVenafiOauthHelperToInstallation (mf : manifests)
           (options : ApplyInstallationYAMLOptions) : result error manifests :=
  if negb (InstallVenafiOauthHelper options) then OK mf
  else
    let imagePullSecrets :=
      if negb (String.eqb (Credentials options) "") then ["jse-gcr-creds"]
      else [] in
    OK (withSpec
          (setVenafiOauthHelper
             (Some {| VenafiOauthHelper_ImagePullSecrets := imagePullSecrets |}))
          mf).

(** The block [if options.Credentials != "" { ... }] of
    [ApplyInstallationYAML], which collects the image pull secret. *)
Definition collectImagePullSecret (mf : manifests)
           (options : ApplyInstallationYAMLOptions) : result error manifests :=
  if negb (String.eqb (Credentials options) "") then
    secret <-! wrap "failed to parse image pull secret"
                    (ImagePullSecret (Credentials options));
    OK (appendSecret secret mf)
  else OK mf.

(** The loop of [generateVenafiIssuerManifests]. *)
Fixpoint generateIssuers (mf : manifests) (issuers : list VenafiIssuer)
  : result error manifests :=
  match issuers with
  | [] => OK mf
  | issuerTemplate :: rest =>
      match GenerateOperatorManifestsForIssuer issuerTemplate with
      | Fail err =>
          Fail (ErrWrap "error generating manifests for Venafi issuer" err)
      | OK (issuer, secret) =>
          generateIssuers
            (withSpec (appendIssuer issuer) (appendSecret secret mf)) rest
      end
  end.

(** [func generateVenafiIssuerManifests(mf, options) error] *)
Definition generateVenafiIssuerManifests (mf : manifests)
           (options : ApplyInstallationYAMLOptions) : result error manifests :=
  generateIssuers mf (VenafiIssuers options).

(** The loop of [marshalManifests] over the secrets. *)
Fixpoint marshalSecrets (buf : string) (l : list Secret) : result error string :=
  match l with
  | [] => OK buf
  | secret :: rest =>
      let buf := buf +:+ documentMarker in
      secretJson <-! wrap "failed to marshal Secret data"
                          (lift (yaml_Marshal_Secret secret));
      marshalSecrets (buf +:+ secretJson) rest
  end.

(** [func marshalManifests(mf) (io.Reader, error)] *)
Definition marshalManifests (mf : manifests) : result error string :=
  data <-! wrap "error marshalling Installation resource"
                (lift (yaml_Marshal_Installation (installation mf)));
  marshalSecrets data (secrets mf).

(** The [installation] and [manifestTemplates] that [ApplyInstallationYAML]
    starts from. *)
Definition skeleton (options : ApplyInstallationYAMLOptions) : manifests :=
  {| installation :=
       {| Installation_Kind := InstallationGVK_Kind;
          Installation_APIVersion := InstallationGVK_APIVersion;
          Installation_Name := "installation";
          Installation_Spec :=
            {| Spec_Registry := Installation_ImageRegistry options;
               Spec_CertManager :=
                 Some {| CertManager_Version := "";
                         CertManager_Controller :=
                           Some {| CertManagerControllerConfig_ReplicaCount :=
                                     Some (CertManagerReplicas options) |};
                         CertManager_Webhook :=
                           Some {| CertManagerWebhookConfig_ReplicaCount :=
                                     Some (CertManagerReplicas options) |} |};
               Spec_ApproverPolicy := Some Build_ApproverPolicy;
               Spec_CSIDrivers := None;
               Spec_IstioCSR := None;
               Spec_VenafiOauthHelper := None;
               Spec_Issuers := [] |};
          Installation_Status := {| Status_Conditions := [] |} |};
     secrets := [] |}.

(** [applyVenafiOauthHelperToInstallation(manifestTemplates, options)] as
    [ApplyInstallationYAML] calls it, without looking at the error. *)
Definition ignoringError (r : result error manifests) (mf : manifests)
  : manifests :=
  match r with
  | OK mf' => mf'
  | Fail _ => mf
  end.

(** [ApplyInstallationYAML] up to [marshalManifests]: the manifests it
    builds. *)
Definition buildManifests (options : ApplyInstallationYAMLOptions)
  : result error manifests :=
  let manifestTemplates := skeleton options in
  mf <-! wrap "failed to configure istio csr"
              (applyIstioCSRToInstallation manifestTemplates options);
  mf <-! applyCertManagerVersion mf options;
  let mf := applyCSIDriversToInstallation mf options in
  let mf := ignoringError (applyVenafiOauthHelperToInstallation mf options) mf in
  mf <-! collectImagePullSecret mf options;
  wrap "error building manifests for Venafi issuers"
       (generateVenafiIssuerManifests mf options).

(** [func ApplyInstallationYAML(ctx, applier, options) error] *)
Definition ApplyInstallationYAML (applier : Applier)
           (options : ApplyInstallationYAMLOptions) : run :=
  applyWith applier
    (mf <-! buildManifests options;
     wrap "error marshalling manifests" (marshalManifests mf)).

(** [type ComponentStatus struct] *)
Record ComponentStatus : Type := {
  ComponentStatus_Name : string;
  ComponentStatus_Ready : bool;
  ComponentStatus_Message : string
}.

(** [var componentNames = map[InstallationConditionType]string{...}] *)
Definition componentNames : gmap string string :=
  list_to_map
    [ (InstallationConditionCertManagerReady, "cert-manager");
      (InstallationConditionCertManagerIssuersReady, "issuers");
      (InstallationConditionCSIDriversReady, "csi-driver");
      (InstallationConditionIstioCSRReady, "istio-csr");
      (InstallationConditionApproverPolicyReady, "approver-policy");
      (InstallationConditionVenafiOauthHelperReady, "venafi-oauth-helper");
      (InstallationConditionManifestsReady, "manifests") ].

(** The loop of [Status] over the conditions. *)
Fixpoint collectStatuses (conditions : list InstallationCondition)
  : list ComponentStatus :=
  match conditions with
  | [] => []
  | condition :: rest =>
      let ready := String.eqb (Condition_Status condition) ConditionTrue in
      let message := if negb ready then Condition_Message condition else "" in
      match componentNames !! Condition_Type condition with
      | None => collectStatuses rest
      | Some componentName =>
          {| ComponentStatus_Name := componentName;
             ComponentStatus_Ready := ready;
             ComponentStatus_Message := message |} :: collectStatuses rest
      end
  end.

(** The [less] given to [sort.Slice]. *)
Definition lessName (a b : ComponentStatus) : bool :=
  String.ltb (ComponentStatus_Name a) (ComponentStatus_Name b).

(** [func (ic *InstallationClient) Status(ctx) ([]ComponentStatus, error)].
    [None] in the first component is the nil slice. *)
Definition Status (ic : InstallationClient)
  : option (list ComponentStatus) * option error :=
  let resource := "installations" in
  let name := "installation" in
  match client_Get ic resource name with
  | Fail err =>
      if IsNotFound err then (None, Some ErrNoInstallation)
      else (None, Some (ErrOther err))
  | OK installation =>
      let statuses :=
        collectStatuses (Status_Conditions (Installation_Status installation)) in
      (Some (sort_Slice lessName statuses), None)
  end.
(** *** The order of the mutation steps

    [ApplyInstallationYAML] runs six steps on the skeleton.  To speak of
    other orders, each step is named and a list of names is run from left to
    right, stopping at the first error as the function does. *)
Inductive step : Type :=
| StepIstioCSR
| StepCertManagerVersion
| StepCSIDrivers
| StepVenafiOauthHelper
| StepImagePullSecret
| StepVenafiIssuers.

Definition runStep (options : ApplyInstallationYAMLOptions) (s : step)
           (mf : manifests) : result error manifests :=
  match s with
  | StepIstioCSR =>
      wrap "failed to configure istio csr" (applyIstioCSRToInstallation mf options)
  | StepCertManagerVersion => applyCertManagerVersion mf options
  | StepCSIDrivers => OK (applyCSIDriversToInstallation mf options)
  | StepVenafiOauthHelper =>
      OK (ignoringError (applyVenafiOauthHelperToInstallation mf options) mf)
  | StepImagePullSecret => collectImagePullSecret mf options
  | StepVenafiIssuers =>
      wrap "error building manifests for Venafi issuers"
           (generateVenafiIssuerManifests mf options)
  end.

Fixpoint runSteps (options : ApplyInstallationYAMLOptions) (order : list step)
         (mf : manifests) : result error manifests :=
  match order with
  | [] => OK mf
  | s :: rest => mf' <-! runStep options s mf; runSteps options rest mf'
  end.

(** The order in the source. *)
Definition implementedOrder : list step :=
  [StepIstioCSR; StepCertManagerVersion; StepCSIDrivers; StepVenafiOauthHelper;
   StepImagePullSecret; StepVenafiIssuers].

(** The place of a step in the source, and the insertion of a step in a list
    ordered by place. *)
Definition rank (s : step) : nat :=
  match s with
  | StepIstioCSR => 0
  | StepCertManagerVersion => 1
  | StepCSIDrivers => 2
  | StepVenafiOauthHelper => 3
  | StepImagePullSecret => 4
  | StepVenafiIssuers => 5
  end.

Fixpoint insertStep (s : step) (l : list step) : list step :=
  match l with
  | [] => [s]
  | t :: r => if (rank s <=? rank t)%nat then s :: l else t :: insertStep s r
  end.

Definition sortSteps (l : list step) : list step := fold_right insertStep [] l.

(** [a] comes before every [b] of the list. *)
Fixpoint comesBefore (a b : step) (l : list step) : bool :=
  match l with
  | [] => true
  | s :: r =>
      if (rank s =? rank b)%nat
      then forallb (fun t => negb (rank t =? rank a)%nat) r && comesBefore a b r
      else comesBefore a b r
  end.

(** What a step that sets a field does to the spec.  [applyCertManagerVersion]
    keeps the rest of the [CertManager] value it finds. *)
Definition fieldUpdate (options : ApplyInstallationYAMLOptions) (s : step)
  : InstallationSpec -> InstallationSpec :=
  match s with
  | StepIstioCSR =>
      if negb (InstallIstioCSR options) then id
      else
        setIstioCSR
          (Some {| IstioCSR_ReplicaCount := Some (IstioCSRReplicas options);
                   IstioCSR_IssuerRef :=
                     if String.eqb (IstioCSRIssuer options) "" then None
                     else Some {| ObjectReference_Name := IstioCSRIssuer options;
                                  ObjectReference_Kind := cmapi_IssuerKind;
                                  ObjectReference_Group := certmanager_GroupName |} |})
  | StepCertManagerVersion =>
      fun spec =>
        if String.eqb (CertManagerVersion options) "" then spec
        else
          match Spec_CertManager spec with
          | None => spec
          | Some cm =>
              setCertManager
                (Some {| CertManager_Version := CertManagerVersion options;
                         CertManager_Controller := CertManager_Controller cm;
                         CertManager_Webhook := CertManager_Webhook cm |}) spec
          end
  | StepCSIDrivers =>
      if InstallCSIDriver options || InstallSpiffeCSIDriver options
      then setCSIDrivers (Some (csiDrivers options)) else id
  | StepVenafiOauthHelper =>
      if negb (InstallVenafiOauthHelper options) then id
      else
        setVenafiOauthHelper
          (Some {| VenafiOauthHelper_ImagePullSecrets :=
                     if negb (String.eqb (Credentials options) "")
                     then ["jse-gcr-creds"] else [] |})
  | StepImagePullSecret => id
  | StepVenafiIssuers => id
  end.

(** The [CertManager] pointer of the manifest is not nil. *)
Definition hasCertManager (mf : manifests) : Prop :=
  is_Some (Spec_CertManager (Installation_Spec (installation mf))).

(** The statuses that [Status] is to report for a list of conditions: one
    for each condition whose type has a component name. *)
Definition statusOf (condition : InstallationCondition)
  : option ComponentStatus :=
  match componentNames !! Condition_Type condition with
  | None => None
  | Some componentName =>
      let ready := String.eqb (Condition_Status condition) ConditionTrue in
      Some {| ComponentStatus_Name := componentName;
              ComponentStatus_Ready := ready;
              ComponentStatus_Message :=
                if ready then "" else Condition_Message condition |}
  end.

(** *** Code outside the path of [ApplyInstallationYAML] *)

Definition withInstallationSpec (f : InstallationSpec -> InstallationSpec)
           (inst : Installation) : Installation :=
  {| Installation_Kind := Installation_Kind inst;
     Installation_APIVersion := Installation_APIVersion inst;
     Installation_Name := Installation_Name inst;
     Installation_Spec := f (Installation_Spec inst);
     Installation_Status := Installation_Status inst |}.

(** [func applyImagePullSecrets(installation, options) error], which no
    function of the package calls. *)
Definition applyImagePullSecrets (installation : Installation)
           (options : ApplyInstallationYAMLOptions) : result error Installation :=
  if negb (InstallVenafiOauthHelper options) then OK installation
  else
    OK (withInstallationSpec
          (setVenafiOauthHelper
             (Some {| VenafiOauthHelper_ImagePullSecrets := [] |}))
          installation).

(** *** Words for the properties of the streams and of the lists *)

(** The documents that follow the first one in a stream: each after a
    document marker. *)
Definition followingDocuments (docs : list string) : string :=
  fold_right (fun doc out => documentMarker +:+ doc +:+ out) "" docs.

(** The spec with issuers appended one after the other. *)
Definition appendIssuers (issuers : list Issuer) (spec : InstallationSpec)
  : InstallationSpec :=
  fold_left (fun spec issuer => appendIssuer issuer spec) issuers spec.

End Operator.

(** ** A reference instance of the collaborators

    The examples below run the package on a small world: three embedded
    installers, one credentials file, release versions [MAJOR.MINOR.PATCH],
    templates made of text and field actions, the JSON of a docker config as
    [encoding/json] writes its strings, and the YAML of a secret with its
    data in base64, as [sigs.k8s.io/yaml] writes a byte slice. *)

Module Reference.

#[export] Instance api : OperatorAPI := {|
  Issuer := string;
  InstallationGVK_APIVersion := "operator.jetstack.io/v1alpha1";
  InstallationGVK_Kind := "Installation";
  ConditionTrue := "True";
  InstallationConditionCertManagerReady := "CertManagerReady";
  InstallationConditionCertManagerIssuersReady := "CertManagerIssuersReady";
  InstallationConditionCSIDriversReady := "CSIDriversReady";
  InstallationConditionIstioCSRReady := "IstioCSRReady";
  InstallationConditionApproverPolicyReady := "ApproverPolicyReady";
  InstallationConditionVenafiOauthHelperReady := "VenafiOauthHelperReady";
  InstallationConditionManifestsReady := "ManifestsReady"
|}.

(** *** Release versions *)

Definition isDigit (c : ascii) : bool :=
  (48 <=? byte c)%N && (byte c <=? 57)%N.

Fixpoint parseDigits (l : list ascii) (acc : N) : option N :=
  match l with
  | [] => Some acc
  | c :: r => if isDigit c then parseDigits r (acc * 10 + (byte c - 48))%N else None
  end.

Definition parseNumber (s : string) : option N :=
  match chars s with
  | [] => None
  | l => parseDigits l 0
  end.

Fixpoint splitDot (s : string) (cur : string) : list string :=
  match s with
  | EmptyString => [cur]
  | String c s' =>
      if Ascii.eqb c "."%char then cur :: splitDot s' ""
      else splitDot s' (cur +:+ String c "")
  end.

Definition release : Type := N * N * N.

Definition parseRelease (raw : string) : result liberror release :=
  let body := match raw with
              | String c r => if Ascii.eqb c "v"%char then r else raw
              | EmptyString => raw
              end in
  match List.map parseNumber (splitDot body "") with
  | [Some major; Some minor; Some patch] => OK (major, minor, patch)
  | _ => Fail (Generic "Invalid Semantic Version")
  end.

Definition decimal (n : N) : string := DecimalString.NilZero.string_of_uint (N.to_uint n).

Definition releaseString (v : release) : string :=
  let '(major, minor, patch) := v in
  decimal major +:+ "." +:+ decimal minor +:+ "." +:+ decimal patch.

Definition releaseLess (a b : release) : bool :=
  let '(a1, a2, a3) := a in
  let '(b1, b2, b3) := b in
  (a1 <? b1)%N ||
  ((a1 =? b1)%N && ((a2 <? b2)%N || ((a2 =? b2)%N && (a3 <? b3)%N))).

Lemma element_append (a b : string) :
  forallb (fun c => negb (isSep c)) (chars (a +:+ b))
  = forallb (fun c => negb (isSep c)) (chars a)
    && forallb (fun c => negb (isSep c)) (chars b).
Proof.
  induction a as [|c a IH]; simpl; [done|]. by rewrite IH, andb_assoc.
Qed.

Lemma decimal_element (n : N) :
  forallb (fun c => negb (isSep c)) (chars (decimal n)) = true.
Proof.
  unfold decimal.
  assert (forall d, forallb (fun c => negb (isSep c))
                            (chars (DecimalString.NilEmpty.string_of_uint d))
                    = true) as Hdigits.
  { induction d; simpl; done. }
  destruct (N.to_uint n) eqn:Hn; try apply Hdigits. reflexivity.
Qed.

Lemma releaseString_element (v : release) :
  forallb (fun c => negb (isSep c)) (chars (releaseString v)) = true.
Proof.
  destruct v as [[major minor] patch]. unfold releaseString.
  by rewrite !element_append, !decimal_element.
Qed.

#[export] Instance semver : Semver := {|
  semver_Version := release;
  NewVersion := parseRelease;
  Version_String := releaseString;
  LessThan := releaseLess;
  Version_String_element := releaseString_element
|}.

(** *** Templates of text and field actions *)

Inductive node : Type :=
| TextNode (text : string)
| FieldNode (name : string).

Definition textNodes (text : string) : list node :=
  if String.eqb text "" then [] else [TextNode text].

Fixpoint trimLeft (l : list ascii) : list ascii :=
  match l with
  | c :: r => if Ascii.eqb c " "%char then trimLeft r else l
  | [] => []
  end.

Definition trimSpaces (s : string) : string :=
  str (rev (trimLeft (rev (trimLeft (chars s))))).

Definition isIdentChar (c : ascii) : bool :=
  isDigit c || ((65 <=? byte c)%N && (byte c <=? 90)%N)
  || ((97 <=? byte c)%N && (byte c <=? 122)%N) || Ascii.eqb c "_"%char.

(** The action between the delimiters: a field [.Name].  The other actions
    of [text/template] are outside this instance, which rejects them. *)
Definition parseAction (body : string) : result liberror node :=
  match trimSpaces body with
  | String c name =>
      if Ascii.eqb c "."%char && negb (String.eqb name "")
         && forallb isIdentChar (chars name)
      then OK (FieldNode name)
      else Fail (Generic "unexpected token in action")
  | EmptyString => Fail (Generic "missing value for command")
  end.

(** The lexer: text up to the left delimiter, then an action up to the right
    delimiter.  [cur] is the text or the action read so far. *)
Fixpoint parseTemplate (s : string) (inAction : bool) (cur : string)
  : result liberror (list node) :=
  match s with
  | EmptyString =>
      if inAction then Fail (Generic "unclosed action") else OK (textNodes cur)
  | String c r =>
      if inAction then
        match r with
        | String d r' =>
            if Ascii.eqb c "}"%char && Ascii.eqb d "}"%char then
              n <-! parseAction cur;
              rest <-! parseTemplate r' false "";
              OK (n :: rest)
            else parseTemplate r true (cur +:+ String c "")
        | EmptyString => Fail (Generic "unclosed action")
        end
      else
        match r with
        | String d r' =>
            if Ascii.eqb c "{"%char && Ascii.eqb d "{"%char then
              rest <-! parseTemplate r' true "";
              OK (textNodes cur ++ rest)
            else parseTemplate r false (cur +:+ String c "")
        | EmptyString => OK (textNodes (cur +:+ String c ""))
        end
  end.

Definition executeNode (data : gmap string string) (n : node) : string :=
  match n with
  | TextNode text => text
  | FieldNode name =>
      match data !! name with
      | Some value => value
      | None => "<no value>"
      end
  end.

Definition executeTemplate (t : list node) (data : gmap string string)
  : result liberror string :=
  OK (fold_right (fun n out => executeNode data n +:+ out) "" t).

(** *** UTF-8 *)

Definition inRange (lo hi : N) (c : ascii) : bool :=
  (lo <=? byte c)%N && (byte c <=? hi)%N.

(** [utf8.DecodeRuneInString] at a first byte of 0x80 or more: the length of
    the well-formed sequence of two to four bytes at the head of [src], or 0
    when the bytes at the head are none, and the rune is [RuneError] of
    width 1.  The ranges of the second byte keep out the encodings that are
    longer than needed, the surrogates and what is above U+10FFFF. *)
Definition sequenceLength (src : list ascii) : nat :=
  match src with
  | b0 :: b1 :: rest =>
      if inRange 194 223 b0 then
        if inRange 128 191 b1 then 2 else 0
      else
        match rest with
        | b2 :: rest' =>
            if inRange 224 239 b0 then
              if inRange (if (byte b0 =? 224)%N then 160 else 128)
                         (if (byte b0 =? 237)%N then 159 else 191) b1
                 && inRange 128 191 b2
              then 3 else 0
            else
              match rest' with
              | b3 :: _ =>
                  if inRange 240 244 b0
                     && inRange (if (byte b0 =? 240)%N then 144 else 128)
                                (if (byte b0 =? 244)%N then 143 else 191) b1
                     && inRange 128 191 b2 && inRange 128 191 b3
                  then 4 else 0
              | [] => 0
              end
        | [] => 0
        end
  | _ => 0
  end%nat.

(** A well-formed sequence of two to four bytes: it is one whatever bytes
    follow it. *)
Definition sequence (rune : list ascii) : Prop :=
  (2 <= List.length rune <= 4)%nat
  /\ (exists b0 more, rune = b0 :: more /\ (byte b0 <? 128)%N = false)
  /\ forall tail, sequenceLength (rune ++ tail) = List.length rune.

(** The bytes as a loop over [utf8.DecodeRuneInString] walks them: one byte
    below 0x80, a well-formed sequence, or one byte that starts none. *)
Fixpoint runes (src : list ascii) : list (list ascii) :=
  match src with
  | [] => []
  | b0 :: rest =>
      if (byte b0 <? 128)%N then [b0] :: runes rest
      else
        match sequenceLength src, rest with
        | 2%nat, b1 :: rest1 => [b0; b1] :: runes rest1
        | 3%nat, b1 :: b2 :: rest2 => [b0; b1; b2] :: runes rest2
        | 4%nat, b1 :: b2 :: b3 :: rest3 => [b0; b1; b2; b3] :: runes rest3
        | _, _ => [b0] :: runes rest
        end
  end.

(** An element of [runes] that is no [RuneError] of width 1. *)
Definition validRune (rune : list ascii) : bool :=
  match rune with
  | [c] => (byte c <? 128)%N
  | _ => true
  end.

(** [utf8.ValidString] *)
Definition utf8_ValidString (s : string) : bool :=
  forallb validRune (runes (chars s)).

(** U+FFFD, the replacement character, in UTF-8. *)
Definition replacement : list ascii :=
  [ascii_of_N 239; ascii_of_N 191; ascii_of_N 189].

Definition coerceRune (rune : list ascii) : list ascii :=
  if validRune rune then rune else replacement.

(** The string with each byte that is in no well-formed sequence replaced
    by U+FFFD. *)
Definition toValidUTF8 (s : string) : string :=
  str (List.concat (List.map coerceRune (runes (chars s)))).

(** [utf8.EncodeRune] *)
Definition utf8_EncodeRune (r : N) : list ascii :=
  if (r <? 128)%N then [ascii_of_N r]
  else if (r <? 2048)%N then
    [ascii_of_N (192 + r / 64); ascii_of_N (128 + r mod 64)]
  else if ((55296 <=? r) && (r <=? 57343) || (1114111 <? r))%N then replacement
  else if (r <? 65536)%N then
    [ascii_of_N (224 + r / 4096); ascii_of_N (128 + (r / 64) mod 64);
     ascii_of_N (128 + r mod 64)]
  else
    [ascii_of_N (240 + r / 262144); ascii_of_N (128 + (r / 4096) mod 64);
     ascii_of_N (128 + (r / 64) mod 64); ascii_of_N (128 + r mod 64)].

(** *** JSON *)

Definition quote : string := String (ascii_of_nat 34) "".

Definition backslash : string := String (ascii_of_nat 92) "".

Definition hexDigit (n : N) : ascii :=
  match String.get (N.to_nat n) "0123456789abcdef" with
  | Some c => c
  | None => "0"%char
  end.

(** A byte below 0x80 in a JSON string, as [json.Marshal] writes it: the
    quote and the backslash after a backslash; the line feed, the carriage
    return and the tab as [\n], [\r] and [\t]; the other control characters
    and [<], [>], [&] as [\u00] and two hexadecimal digits; the other bytes
    as they are.  The backspace and the form feed are among the other control
    characters, as in the library when the package was written; later
    versions of the library write them [\b] and [\f], which read back as the
    same bytes. *)
Definition escapeByte (c : ascii) : string :=
  let b := byte c in
  if ((b =? 34) || (b =? 92))%N then String (ascii_of_nat 92) (String c "")
  else if (b =? 10)%N then String (ascii_of_nat 92) "n"
  else if (b =? 13)%N then String (ascii_of_nat 92) "r"
  else if (b =? 9)%N then String (ascii_of_nat 92) "t"
  else if ((b <? 32) || (b =? 60) || (b =? 62) || (b =? 38))%N then
    String (ascii_of_nat 92)
      ("u00" +:+ String (hexDigit (b / 16)) (String (hexDigit (b mod 16)) ""))
  else String c "".

(** An element of [runes] in a JSON string: a byte that is in no well-formed
    sequence is written as the escape of U+FFFD, a backslash and [ufffd]; the
    line and paragraph separators U+2028 and U+2029 are written as their
    escapes, a backslash and [u2028] or [u2029]; the other sequences are
    copied. *)
Definition escapeRune (rune : list ascii) : string :=
  match rune with
  | [c] =>
      if (byte c <? 128)%N then escapeByte c
      else String (ascii_of_nat 92) "ufffd"
  | [b0; b1; b2] =>
      if ((byte b0 =? 226) && (byte b1 =? 128)
          && ((byte b2 =? 168) || (byte b2 =? 169)))%N
      then String (ascii_of_nat 92)
             ("u202" +:+ String (hexDigit (byte b2 mod 16)) "")
      else str rune
  | _ => str rune
  end.

Definition escapeRunes (l : list (list ascii)) : string :=
  fold_right (fun rune out => escapeRune rune +:+ out) "" l.

(** A string as [json.Marshal] writes it. *)
Definition jsonString (s : string) : string :=
  quote +:+ escapeRunes (runes (chars s)) +:+ quote.

Definition jsonField (name value : string) : string :=
  jsonString name +:+ ":" +:+ value.

Fixpoint commaSeparated (l : list string) : string :=
  match l with
  | [] => ""
  | [x] => x
  | x :: r => x +:+ "," +:+ commaSeparated r
  end.

Definition jsonObject (fields : list string) : string :=
  "{" +:+ commaSeparated fields +:+ "}".

(** Modelled from the spec: the JSON names of the fields of
    [docker.ConfigEntry] and [docker.ConfigJSON], which are declared in
    [internal/docker]: the blob is
    [{auths: {<registry-host>: {username, password, email, auth}}}]. *)
Definition jsonEntry (e : ConfigEntry) : string :=
  jsonObject
    [ jsonField "username" (jsonString (ConfigEntry_Username e));
      jsonField "password" (jsonString (ConfigEntry_Password e));
      jsonField "email" (jsonString (ConfigEntry_Email e));
      jsonField "auth" (jsonString (ConfigEntry_Auth e)) ].

(** The document of a docker config: the registries under [auths]. *)
Definition jsonDocument (config : ConfigJSON) : string :=
  jsonObject
    [ jsonField "auths"
        (jsonObject
           (List.map (fun kv => jsonField (fst kv) (jsonEntry (snd kv)))
                     (map_to_list (ConfigJSON_Auths config)))) ].

(** [json.Marshal] of a [docker.ConfigJSON]. *)
Definition jsonConfig (config : ConfigJSON) : result liberror string :=
  OK (jsonDocument config).

(** *** Reading JSON back

    The documents that [json.Marshal] writes for a docker config, read as
    [json.Unmarshal] reads them: objects whose values are strings or
    objects. *)

Definition hexValue (c : ascii) : option N :=
  let b := byte c in
  if ((48 <=? b) && (b <=? 57))%N then Some (b - 48)%N
  else if ((97 <=? b) && (b <=? 102))%N then Some (b - 87)%N
  else if ((65 <=? b) && (b <=? 70))%N then Some (b - 55)%N
  else None.

(** Four hexadecimal digits as a number. *)
Definition getu4 (h1 h2 h3 h4 : ascii) : option N :=
  match hexValue h1, hexValue h2, hexValue h3, hexValue h4 with
  | Some d1, Some d2, Some d3, Some d4 =>
      Some (((d1 * 16 + d2) * 16 + d3) * 16 + d4)%N
  | _, _, _, _ => None
  end.

Definition isSurrogate (r : N) : bool := ((55296 <=? r) && (r <? 57344))%N.

(** [utf16.DecodeRune]: the code point of a surrogate pair, when the two are
    one. *)
Definition utf16_DecodeRune (r1 r2 : N) : option N :=
  if ((55296 <=? r1) && (r1 <? 56320) && (56320 <=? r2) && (r2 <? 57344))%N
  then Some ((r1 - 55296) * 1024 + (r2 - 56320) + 65536)%N
  else None.

(** The byte that the character after a backslash stands for. *)
Definition simpleEscape (c : ascii) : option ascii :=
  let b := byte c in
  if ((b =? 34) || (b =? 92) || (b =? 47))%N then Some c
  else if (b =? 98)%N then Some (ascii_of_N 8)
  else if (b =? 102)%N then Some (ascii_of_N 12)
  else if (b =? 110)%N then Some (ascii_of_N 10)
  else if (b =? 114)%N then Some (ascii_of_N 13)
  else if (b =? 116)%N then Some (ascii_of_N 9)
  else None.

Inductive token : Type :=
| TokenOpen
| TokenClose
| TokenColon
| TokenComma
| TokenString (s : string).

Definition punctuation (c : ascii) : option token :=
  let b := byte c in
  if (b =? 123)%N then Some TokenOpen
  else if (b =? 125)%N then Some TokenClose
  else if (b =? 58)%N then Some TokenColon
  else if (b =? 44)%N then Some TokenComma
  else None.

Definition isSpace (c : ascii) : bool :=
  let b := byte c in ((b =? 32) || (b =? 9) || (b =? 13) || (b =? 10))%N.

Definition push (bytes : list ascii)
           (r : option (list ascii * list token))
  : option (list ascii * list token) :=
  match r with
  | Some (more, tokens) => Some (bytes ++ more, tokens)
  | None => None
  end.

Definition prepend (t : token) (r : option (list ascii * list token))
  : option (list ascii * list token) :=
  match r with
  | Some (_, tokens) => Some ([], t :: tokens)
  | None => None
  end.

(** The tokens of a document.  Inside a string, [inString], the result also
    holds the bytes of the string from here to its closing quote: an escape
    stands for its byte or for the UTF-8 of its code point, a byte that is
    in no well-formed sequence becomes U+FFFD, and a control character ends
    the reading. *)
Fixpoint lex (inString : bool) (s : list ascii)
  : option (list ascii * list token) :=
  match s with
  | [] => if inString then None else Some ([], [])
  | c :: rest =>
      if inString then
        if (byte c =? 34)%N then
          match lex false rest with
          | Some (_, tokens) => Some ([], tokens)
          | None => None
          end
        else if (byte c =? 92)%N then
          match rest with
          | e :: rest1 =>
              match simpleEscape e with
              | Some b => push [b] (lex true rest1)
              | None =>
                  if (byte e =? 117)%N then
                    match rest1 with
                    | h1 :: h2 :: h3 :: h4 :: rest5 =>
                        match getu4 h1 h2 h3 h4 with
                        | Some r =>
                            if isSurrogate r then
                              match rest5 with
                              | e1 :: e2 :: g1 :: g2 :: g3 :: g4 :: rest11 =>
                                  match
                                    (if ((byte e1 =? 92) && (byte e2 =? 117))%N
                                     then getu4 g1 g2 g3 g4 else None)
                                  with
                                  | Some r2 =>
                                      match utf16_DecodeRune r r2 with
                                      | Some dec =>
                                          push (utf8_EncodeRune dec)
                                               (lex true rest11)
                                      | None => push replacement (lex true rest5)
                                      end
                                  | None => push replacement (lex true rest5)
                                  end
                              | _ => push replacement (lex true rest5)
                              end
                            else push (utf8_EncodeRune r) (lex true rest5)
                        | None => None
                        end
                    | _ => None
                    end
                  else None
              end
          | [] => None
          end
        else if (byte c <? 32)%N then None
        else if (byte c <? 128)%N then push [c] (lex true rest)
        else
          match sequenceLength s, rest with
          | 2%nat, b1 :: rest1 => push [c; b1] (lex true rest1)
          | 3%nat, b1 :: b2 :: rest2 => push [c; b1; b2] (lex true rest2)
          | 4%nat, b1 :: b2 :: b3 :: rest3 =>
              push [c; b1; b2; b3] (lex true rest3)
          | _, _ => push replacement (lex true rest)
          end
      else if (byte c =? 34)%N then
        match lex true rest with
        | Some (bytes, tokens) => Some ([], TokenString (str bytes) :: tokens)
        | None => None
        end
      else if isSpace c then lex false rest
      else
        match punctuation c with
        | Some t =>
            match lex false rest with
            | Some (_, tokens) => Some ([], t :: tokens)
            | None => None
            end
        | None => None
        end
  end.

Inductive jsonValue : Type :=
| JSONString (s : string)
| JSONObject (members : list jsonMember)
with jsonMember : Type :=
| JSONMember (name : string) (value : jsonValue).

Definition memberName (member : jsonMember) : string :=
  match member with JSONMember name _ => name end.

(** A value at the head of the tokens, and the tokens after it.  [fuel]
    bounds the number of values and members. *)
Fixpoint parseValue (fuel : nat) (tokens : list token)
  : option (jsonValue * list token) :=
  match fuel with
  | O => None
  | S fuel =>
      match tokens with
      | TokenString s :: rest => Some (JSONString s, rest)
      | TokenOpen :: TokenClose :: rest => Some (JSONObject [], rest)
      | TokenOpen :: rest =>
          match parseMembers fuel rest with
          | Some (members, rest') => Some (JSONObject members, rest')
          | None => None
          end
      | _ => None
      end
  end
with parseMembers (fuel : nat) (tokens : list token)
  : option (list jsonMember * list token) :=
  match fuel with
  | O => None
  | S fuel =>
      match tokens with
      | TokenString name :: TokenColon :: rest =>
          match parseValue fuel rest with
          | Some (value, TokenComma :: rest') =>
              match parseMembers fuel rest' with
              | Some (members, rest'') =>
                  Some (JSONMember name value :: members, rest'')
              | None => None
              end
          | Some (value, TokenClose :: rest') =>
              Some ([JSONMember name value], rest')
          | _ => None
          end
      | _ => None
      end
  end.

(** The string member of that name; the last one, when the name is there
    more than once, and the empty string when it is not there. *)
Definition memberString (name : string) (members : list jsonMember)
  : option string :=
  match List.find (fun member => String.eqb (memberName member) name)
                  (rev members) with
  | Some (JSONMember _ (JSONString s)) => Some s
  | Some (JSONMember _ (JSONObject _)) => None
  | None => Some ""
  end.

(** A registry entry, with the JSON names of [jsonEntry]. *)
Definition entryOf (value : jsonValue) : option ConfigEntry :=
  match value with
  | JSONObject members =>
      match memberString "username" members, memberString "password" members,
            memberString "email" members, memberString "auth" members with
      | Some username, Some password, Some email, Some auth =>
          Some {| ConfigEntry_Username := username;
                  ConfigEntry_Password := password;
                  ConfigEntry_Email := email;
                  ConfigEntry_Auth := auth |}
      | _, _, _, _ => None
      end
  | JSONString _ => None
  end.

Fixpoint entriesOf (hosts : list jsonMember)
  : option (list (string * ConfigEntry)) :=
  match hosts with
  | [] => Some []
  | JSONMember host value :: rest =>
      match entryOf value, entriesOf rest with
      | Some entry, Some entries => Some ((host, entry) :: entries)
      | _, _ => None
      end
  end.

(** [json.Unmarshal] into a [docker.ConfigJSON]. *)
Definition json_Unmarshal (data : string) : option ConfigJSON :=
  match lex false (chars data) with
  | Some (_, tokens) =>
      match parseValue (List.length tokens) tokens with
      | Some (JSONObject members, []) =>
          match List.find (fun member => String.eqb (memberName member) "auths")
                          (rev members) with
          | Some (JSONMember _ (JSONObject hosts)) =>
              match entriesOf hosts with
              | Some entries =>
                  Some {| ConfigJSON_Auths := list_to_map (rev entries) |}
              | None => None
              end
          | Some (JSONMember _ (JSONString _)) => None
          | None => Some {| ConfigJSON_Auths := ∅ |}
          end
      | _ => None
      end
  | None => None
  end.

(** *** YAML *)

Definition yamlLine (indent key value : string) : string :=
  indent +:+ key +:+ ": " +:+ value +:+ newline.

(** The YAML document of a secret; the values of [data] are byte slices and
    are written in base64. *)
Definition yamlSecret (secret : Secret) : result liberror string :=
  OK (yamlLine "" "apiVersion" (Secret_APIVersion secret)
      +:+ "data:" +:+ newline
      +:+ fold_right
            (fun kv out =>
               yamlLine "  " (fst kv) (EncodeToString (chars (snd kv))) +:+ out)
            "" (map_to_list (Secret_Data secret))
      +:+ yamlLine "" "kind" (Secret_Kind secret)
      +:+ "metadata:" +:+ newline
      +:+ yamlLine "  " "creationTimestamp" "null"
      +:+ yamlLine "  " "name" (Secret_Name secret)
      +:+ yamlLine "  " "namespace" (Secret_Namespace secret)
      +:+ yamlLine "" "type" (Secret_Type secret)).

(** The head of the YAML document of an Installation. *)
Definition yamlInstallation (inst : Installation) : result liberror string :=
  OK (yamlLine "" "apiVersion" (Installation_APIVersion inst)
      +:+ yamlLine "" "kind" (Installation_Kind inst)
      +:+ "metadata:" +:+ newline
      +:+ yamlLine "  " "name" (Installation_Name inst)
      +:+ "spec:" +:+ newline
      +:+ yamlLine "  " "registry" (Spec_Registry (Installation_Spec inst))).

#[export] Instance encoding : Encoding := {|
  json_Marshal := jsonConfig;
  yaml_Marshal_Secret := yamlSecret;
  yaml_Marshal_Installation := yamlInstallation;
  Template := list node;
  template_Parse := fun text => parseTemplate text false "";
  template_Execute := executeTemplate
|}.

(** *** The embedded installers and the credentials file *)

Definition installerHead (v : string) : string :=
  "# operator " +:+ v +:+ newline +:+ "image: {{ .ImageRegistry }}".

Definition installerTail (v : string) : string :=
  "/js-operator:" +:+ v +:+ newline.

Definition installerTemplate (v : string) : string :=
  installerHead v +:+ installerTail v.

Definition installer (v : string) : DirEntry :=
  {| DirEntry_Name := v +:+ ".yaml";
     DirEntry_IsDir := false;
     DirEntry_Data := installerTemplate v |}.

(** A world with the given embedded entries, those below them, and the file
    [key.json] holding [keyData]. *)
Definition worldWith (entries : list DirEntry)
           (below : list (string * string * DirEntry)) (keyData : string)
  : World := {|
  installers := entries;
  installers_below := below;
  os_Open := fun path =>
    if String.eqb path "key.json" then OK {| ioutil_ReadAll := OK keyData |}
    else Fail (PathNotExist path)
|}.

(** A world where every embedded entry is a file. *)
Definition worldOf (entries : list DirEntry) (keyData : string) : World :=
  worldWith entries [] keyData.

Definition world (keyData : string) : World :=
  worldOf [installer "v1.10.0"; installer "v1.2.0"; installer "v1.9.3"] keyData.

(** *** Issuer templates *)

(** An issuer template is a name; the empty name does not expand. *)
Definition generateIssuer (template : string) : result error (string * Secret) :=
  if String.eqb template "" then Fail (ErrOther (Generic "issuer has no name"))
  else OK (template,
           {| Secret_APIVersion := corev1_SchemeGroupVersion;
              Secret_Kind := "Secret";
              Secret_Name := template;
              Secret_Namespace := "jetstack-secure";
              Secret_Type := "Opaque";
              Secret_Data := {[ "access-token" := "token" ]} |}).

#[export] Instance venafi : Venafi := {|
  VenafiIssuer := string;
  GenerateOperatorManifestsForIssuer := generateIssuer
|}.

Definition recordingApplier : Applier := {| Apply := fun _ => None |}.

(** *** Inputs of the examples *)

Definition operatorOptions (version : string) : ApplyOperatorYAMLOptions :=
  {| Version := version;
     ImageRegistry := "registry.example.com";
     CredentialsLocation := "key.json" |}.

Definition installationOptions (issuers : list string)
  : ApplyInstallationYAMLOptions :=
  {| InstallCSIDriver := true;
     InstallSpiffeCSIDriver := false;
     InstallIstioCSR := true;
     InstallVenafiOauthHelper := true;
     VenafiIssuers := issuers;
     IstioCSRIssuer := "";
     Installation_ImageRegistry := "registry.example.com";
     Credentials := "key.json";
     CertManagerReplicas := 2;
     CertManagerVersion := "v1.9.1";
     IstioCSRReplicas := 1;
     SpiffeCSIDriverReplicas := 1 |}.

(** The conditions of the example of the specification. *)
Definition exampleConditions : list InstallationCondition :=
  [ {| Condition_Type := "CertManagerReady"; Condition_Status := "True";
       Condition_Message := "" |};
    {| Condition_Type := "IstioCSRReady"; Condition_Status := "False";
       Condition_Message := "pending" |};
    {| Condition_Type := "UnknownType"; Condition_Status := "True";
       Condition_Message := "" |} ].

Definition clientReturning (r : result liberror Installation)
  : InstallationClient :=
  {| client_Get := fun _ _ => r |}.

Definition installationWith (conditions : list InstallationCondition)
  : Installation :=
  {| Installation_Kind := InstallationGVK_Kind;
     Installation_APIVersion := InstallationGVK_APIVersion;
     Installation_Name := "installation";
     Installation_Spec :=
       {| Spec_Registry := ""; Spec_CertManager := None;
          Spec_ApproverPolicy := None; Spec_CSIDrivers := None;
          Spec_IstioCSR := None; Spec_VenafiOauthHelper := None;
          Spec_Issuers := [] |};
     Installation_Status := {| Status_Conditions := conditions |} |}.

(** The order of the steps with the last two exchanged. *)
Definition issuersFirst : list step :=
  [StepIstioCSR; StepCertManagerVersion; StepCSIDrivers; StepVenafiOauthHelper;
   StepVenafiIssuers; StepImagePullSecret].

(** The names of the secrets of a build. *)
Definition secretNames (r : result error manifests) : list string :=
  match r with
  | OK mf => List.map Secret_Name (secrets mf)
  | Fail _ => []
  end.

(** *** Further inputs *)

(** The embedded names of the example of the specification: without the
    leading [v]. *)
Definition plainEntry (name : string) : DirEntry :=
  {| DirEntry_Name := name; DirEntry_IsDir := false;
     DirEntry_Data := "image: {{ .ImageRegistry }}/js-operator" +:+ newline |}.

Definition plainWorld : World :=
  worldOf [plainEntry "1.10.0.yaml"; plainEntry "1.2.0.yaml"] "ABC123".

(** An embedded directory with nothing but a sub-directory, which holds
    one installer. *)
Definition emptyWorld : World :=
  worldWith [ {| DirEntry_Name := "old.yaml"; DirEntry_IsDir := true;
                 DirEntry_Data := "" |} ]
            [ ("old.yaml", "inner.yaml", installer "inner") ] "ABC123".

(** An encoder that refuses a secret without name. *)
Definition namedSecretsEncoding : Encoding := {|
  json_Marshal := jsonConfig;
  yaml_Marshal_Secret := fun secret =>
    if String.eqb (Secret_Name secret) ""
    then Fail (Generic "secret has no name") else yamlSecret secret;
  yaml_Marshal_Installation := yamlInstallation;
  Template := list node;
  template_Parse := fun text => parseTemplate text false "";
  template_Execute := executeTemplate
|}.

Definition secretNamed (name : string) : Secret :=
  {| Secret_APIVersion := corev1_SchemeGroupVersion;
     Secret_Kind := "Secret";
     Secret_Name := name;
     Secret_Namespace := "jetstack-secure";
     Secret_Type := "Opaque";
     Secret_Data := ∅ |}.

Definition condition (type status message : string) : InstallationCondition :=
  {| Condition_Type := type; Condition_Status := status;
     Condition_Message := message |}.

(** The contents of a key file that is not valid UTF-8: the bytes
    [ff 00 fe]. *)
Definition invalidKey : string :=
  str [ascii_of_N 255; ascii_of_N 0; ascii_of_N 254].

(** An embedded directory where two names are no versions. *)
Definition brokenWorld : World :=
  worldOf [installer "v1.2.0"; plainEntry "latest.yaml";
           plainEntry "nightly.yaml"] "ABC123".

(** Options that name a key file that does not exist. *)
Definition missingKeyOptions : ApplyInstallationYAMLOptions :=
  {| InstallCSIDriver := false;
     InstallSpiffeCSIDriver := false;
     InstallIstioCSR := false;
     InstallVenafiOauthHelper := false;
     VenafiIssuers := [];
     IstioCSRIssuer := "";
     Installation_ImageRegistry := "registry.example.com";
     Credentials := "missing.json";
     CertManagerReplicas := 2;
     CertManagerVersion := "";
     IstioCSRReplicas := 1;
     SpiffeCSIDriverReplicas := 1 |}.

End Reference.

(** * Proofs *)

(** ** Results *)

Lemma wrap_OK_inv {A} msg (r : result error A) a :
  wrap msg r = OK a -> r = OK a.
Proof. destruct r; simpl; congruence. Qed.

Lemma lift_OK_inv {A} (r : result liberror A) a :
  lift r = OK a -> r = OK a.
Proof. destruct r; simpl; congruence. Qed.

(** ** Insertion sort *)

Lemma StronglySorted_weaken {A} (R1 R2 : A -> A -> Prop) l :
  (forall a b, R1 a b -> R2 a b) -> StronglySorted R1 l -> StronglySorted R2 l.
Proof.
  intros HR. induction 1 as [|a l Hl IH Ha]; constructor; [done|].
  eapply Forall_impl; [exact Ha|]. intros b. apply HR.
Qed.

Section Sorting.
Context {A : Type} (less : A -> A -> bool).

Lemma insertDown_Permutation x hi : insertDown less x hi ≡ₚ x :: hi.
Proof.
  induction hi as [|y r IH]; simpl; [reflexivity|].
  destruct (less x y); [|reflexivity].
  rewrite IH. apply perm_swap.
Qed.

Lemma fold_insertDown_Permutation data hi :
  fold_left (fun hi x => insertDown less x hi) data hi ≡ₚ data ++ hi.
Proof.
  revert hi. induction data as [|x data IH]; intros hi; simpl; [reflexivity|].
  rewrite IH, insertDown_Permutation.
  symmetry. apply Permutation_middle.
Qed.

Lemma insertionSort_Permutation data : insertionSort less data ≡ₚ data.
Proof.
  unfold insertionSort.
  rewrite <- Permutation_rev, fold_insertDown_Permutation.
  by rewrite app_nil_r.
Qed.

(** [less] is a strict weak order: it is asymmetric, and "not less" is
    transitive. *)
Hypothesis less_asym : forall a b, less a b = true -> less b a = false.
Hypothesis not_less_trans :
  forall a b c, less a b = false -> less b c = false -> less a c = false.

Lemma insertDown_descending x hi :
  descending less hi -> descending less (insertDown less x hi).
Proof.
  unfold descending.
  induction hi as [|y r IH]; intros Hs; simpl.
  - repeat constructor.
  - apply StronglySorted_inv in Hs as [Hr Hy].
    destruct (less x y) eqn:Hxy.
    + constructor; [by apply IH|].
      rewrite (insertDown_Permutation x r).
      constructor; [by apply less_asym | done].
    + constructor; [by constructor|].
      constructor; [done|].
      eapply Forall_impl; [exact Hy|].
      intros b Hb. by eapply not_less_trans.
Qed.

Lemma fold_insertDown_descending data hi :
  descending less hi ->
  descending less (fold_left (fun hi x => insertDown less x hi) data hi).
Proof.
  revert hi. induction data as [|x data IH]; intros hi Hs; simpl; [done|].
  by apply IH, insertDown_descending.
Qed.

Lemma descending_rev hi : descending less hi -> ascending less (rev hi).
Proof.
  unfold descending, ascending.
  induction hi as [|y r IH]; intros Hs; simpl; [constructor|].
  apply StronglySorted_inv in Hs as [Hr Hy].
  apply StronglySorted_app_2; [|by apply IH | repeat constructor].
  intros a b Ha Hb. apply list_elem_of_singleton in Hb as ->.
  apply list_elem_of_In, in_rev, list_elem_of_In in Ha.
  rewrite Forall_forall in Hy. by apply Hy.
Qed.

Lemma insertionSort_ascending data : ascending less (insertionSort less data).
Proof.
  apply descending_rev, fold_insertDown_descending. constructor.
Qed.

End Sorting.

(** ** Order of strings *)

Lemma ltb_false_leb a b : String.ltb a b = false <-> String.leb b a = true.
Proof.
  unfold String.ltb, String.leb. rewrite (String.compare_antisym a b).
  destruct (String.compare b a); simpl; split; congruence.
Qed.

Lemma ltb_asym a b : String.ltb a b = true -> String.ltb b a = false.
Proof.
  unfold String.ltb. rewrite (String.compare_antisym a b).
  destruct (String.compare b a); simpl; congruence.
Qed.

Lemma leb_trans a b c :
  String.leb a b = true -> String.leb b c = true -> String.leb a c = true.
Proof.
  intros Hab Hbc.
  assert (String.le a c) as H; [|by apply Is_true_true_1 in H].
  transitivity b; by apply Is_true_true_2.
Qed.

Lemma not_ltb_trans a b c :
  String.ltb a b = false -> String.ltb b c = false -> String.ltb a c = false.
Proof. rewrite !ltb_false_leb. intros. by apply (leb_trans c b a). Qed.

(** ** The status reader *)

Section StatusProofs.
Context `{API : OperatorAPI} `{SORT : Sort}.

Lemma collectStatuses_omap conditions :
  collectStatuses conditions = omap statusOf conditions.
Proof.
  induction conditions as [|c rest IH]; simpl; [done|].
  unfold statusOf.
  destruct (componentNames !! Condition_Type c); rewrite IH; [|done].
  by destruct (String.eqb (Condition_Status c) ConditionTrue).
Qed.

Lemma sorted_by_name (statuses : list ComponentStatus) :
  StronglySorted
    (fun a b => String.leb (ComponentStatus_Name a) (ComponentStatus_Name b) = true)
    (sort_Slice lessName statuses).
Proof.
  eapply StronglySorted_weaken; [|apply (sort_Slice_ascending _ lessName)].
  - intros a b H. by apply ltb_false_leb.
  - intros a b. apply ltb_asym.
  - intros a b c. apply not_ltb_trans.
Qed.

(** C7.  When the Installation resource is fetched, [Status] returns, with no
    error, the entries of the conditions whose type is in [componentNames]
    (the others are dropped): an entry has the component name of the type,
    is ready exactly when the condition status is [ConditionTrue], carries
    the condition message only when it is not ready, and the entries are in
    ascending order of name. *)
Theorem status_reports_components (ic : InstallationClient)
        (inst : Installation) :
  client_Get ic "installations" "installation" = OK inst ->
  exists statuses,
    Status ic = (Some statuses, None)
    /\ statuses ≡ₚ omap statusOf (Status_Conditions (Installation_Status inst))
    /\ StronglySorted
         (fun a b =>
            String.leb (ComponentStatus_Name a) (ComponentStatus_Name b) = true)
         statuses
    /\ forall s, s ∈ statuses ->
         exists condition,
           condition ∈ Status_Conditions (Installation_Status inst)
           /\ componentNames !! Condition_Type condition
              = Some (ComponentStatus_Name s)
           /\ (ComponentStatus_Ready s = true
               <-> Condition_Status condition = ConditionTrue)
           /\ ComponentStatus_Message s
              = if ComponentStatus_Ready s then ""
                else Condition_Message condition.
Proof.
  intros Hget. unfold Status. rewrite Hget.
  eexists. split; [reflexivity|].
  assert (sort_Slice lessName
            (collectStatuses (Status_Conditions (Installation_Status inst)))
          ≡ₚ omap statusOf (Status_Conditions (Installation_Status inst))) as Hp.
  { rewrite sort_Slice_Permutation. by rewrite collectStatuses_omap. }
  split; [exact Hp|]. split; [apply sorted_by_name|].
  intros s Hs. rewrite Hp in Hs.
  apply list_elem_of_omap in Hs as (c & Hc & Hsc).
  exists c. split; [done|].
  unfold statusOf in Hsc.
  destruct (componentNames !! Condition_Type c) as [n|]; [|done].
  injection Hsc as <-. simpl. split; [done|]. split; [|done].
  apply String.eqb_eq.
Qed.

(** C8.  [Status] returns [ErrNoInstallation] exactly when the fetch fails
    with an error that [kerrors.IsNotFound] accepts; any other fetch error is
    returned as it is; and whenever an error is returned the slice of
    statuses is nil. *)
Theorem status_fetch_errors (ic : InstallationClient) :
  (snd (Status ic) = Some ErrNoInstallation
   <-> exists err, client_Get ic "installations" "installation" = Fail err
                   /\ IsNotFound err = true)
  /\ (forall err, client_Get ic "installations" "installation" = Fail err ->
                  IsNotFound err = false ->
                  Status ic = (None, Some (ErrOther err)))
  /\ (forall e, snd (Status ic) = Some e -> fst (Status ic) = None).
Proof.
  unfold Status.
  destruct (client_Get ic "installations" "installation") as [inst|err].
  - split; [|split].
    + split; [discriminate|]. by intros (e & He & _).
    + discriminate.
    + discriminate.
  - destruct (IsNotFound err) eqn:Hnf; simpl.
    + split; [|split]; [|congruence|done].
      split; [|done]. intros _. by exists err.
    + split; [|split]; [|congruence|done].
      split; [discriminate|]. intros (e & He & Hn). congruence.
Qed.

End StatusProofs.

(** ** The version catalog *)

Section VersionProofs.
Context `{SV : Semver} `{SORT : Sort} `{W : World}.

Lemma rawVersionsOf_map entries :
  rawVersionsOf entries
  = List.map (fun entry =>
                strings_TrimSuffix (filepath_Base (DirEntry_Name entry)) ".yaml")
             (List.filter (fun entry => negb (DirEntry_IsDir entry)) entries).
Proof.
  induction entries as [|entry rest IH]; simpl; [done|].
  destruct (DirEntry_IsDir entry); simpl; by rewrite IH.
Qed.

Lemma parseVersions_all rawVersions parsed :
  Forall2 (fun raw p => NewVersion raw = OK p) rawVersions parsed ->
  parseVersions rawVersions = OK parsed.
Proof.
  induction 1 as [|raw p raws ps Hp _ IH]; simpl; [done|].
  by rewrite Hp, IH.
Qed.

Lemma parseVersions_some_invalid rawVersions raw err :
  raw ∈ rawVersions -> NewVersion raw = Fail err ->
  exists raw' err',
    raw' ∈ rawVersions /\ NewVersion raw' = Fail err'
    /\ parseVersions rawVersions = Fail (ErrOther err').
Proof.
  induction rawVersions as [|r rest IH]; intros Hin Hfail.
  - by apply elem_of_nil in Hin.
  - simpl. destruct (NewVersion r) as [p|e] eqn:Hr.
    + apply elem_of_cons in Hin as [->|Hin]; [congruence|].
      destruct (IH Hin Hfail) as (raw' & err' & Hin' & Hf' & Hp).
      exists raw', err'. rewrite Hp. split; [by right|done].
    + exists r, e. split; [by left|done].
Qed.

(** C5.  Let the names be those of the embedded files with the [.yaml]
    suffix removed.  When every name parses as a version, [Versions] returns
    those versions in ascending [LessThan] order, each printed with a [v] in
    front; when some name does not parse, [Versions] fails with the parse
    error of such a name.  [LessThan] is taken to be a strict weak order. *)
Theorem versions_sorted_or_parse_error
        (less_asym : forall a b, LessThan a b = true -> LessThan b a = false)
        (not_less_trans : forall a b c, LessThan a b = false ->
                                        LessThan b c = false ->
                                        LessThan a c = false) :
  let names :=
    List.map (fun entry =>
                strings_TrimSuffix (filepath_Base (DirEntry_Name entry)) ".yaml")
             (List.filter (fun entry => negb (DirEntry_IsDir entry)) installers) in
  (forall parsed,
      Forall2 (fun raw p => NewVersion raw = OK p) names parsed ->
      exists sorted,
        Versions = OK (List.map (fun p => "v" +:+ Version_String p) sorted)
        /\ sorted ≡ₚ parsed
        /\ ascending LessThan sorted)
  /\ (forall raw err,
        raw ∈ names -> NewVersion raw = Fail err ->
        exists raw' err',
          raw' ∈ names /\ NewVersion raw' = Fail err'
          /\ Versions = Fail (ErrOther err')).
Proof.
  intros names. subst names. rewrite <- rawVersionsOf_map. split.
  - intros parsed Hall. exists (sort_Sort LessThan parsed).
    unfold Versions. rewrite (parseVersions_all _ _ Hall). simpl.
    split; [done|]. split; [apply sort_Slice_Permutation|].
    by apply sort_Slice_ascending.
  - intros raw err Hin Hfail.
    destruct (parseVersions_some_invalid _ _ _ Hin Hfail)
      as (raw' & err' & Hin' & Hf' & Hp).
    exists raw', err'. unfold Versions. by rewrite Hp.
Qed.

End VersionProofs.

(** ** Base64 *)

Lemma land_shifted_small (a n b : N) :
  (b < 2 ^ n)%N -> N.land (a * 2 ^ n) b = 0%N.
Proof.
  intros Hb. apply N.bits_inj. intros m.
  rewrite N.land_spec, N.bits_0.
  destruct (N.lt_ge_cases m n) as [Hm|Hm].
  - by rewrite N.mul_pow2_bits_low.
  - destruct (N.eq_dec b 0) as [->|Hb0]; [by rewrite N.bits_0, andb_false_r|].
    rewrite (N.bits_above_log2 b m), andb_false_r; [done|].
    apply N.lt_le_trans with n; [|done].
    apply N.log2_lt_pow2; lia.
Qed.

Lemma lor_shiftl_add (a n b k : N) :
  k = (2 ^ n)%N -> (b < k)%N -> N.lor (N.shiftl a n) b = (a * k + b)%N.
Proof.
  intros -> Hb. rewrite N.shiftl_mul_pow2.
  rewrite <- N.lxor_lor, <- N.add_nocarry_lxor; auto using land_shifted_small.
Qed.

Lemma byte_lt (c : ascii) : (byte c < 256)%N.
Proof. apply N_ascii_bounded. Qed.

Lemma group_value (a b c : N) :
  (a < 256 -> b < 256 -> c < 256 ->
   N.lor (N.lor (N.shiftl a 16) (N.shiftl b 8)) c = a * 65536 + b * 256 + c)%N.
Proof.
  intros Ha Hb Hc.
  replace (N.shiftl a 16) with (N.shiftl (N.shiftl a 8) 8)
    by (by rewrite N.shiftl_shiftl).
  rewrite <- N.shiftl_lor.
  rewrite (lor_shiftl_add a 8 b 256) by done.
  rewrite (lor_shiftl_add _ 8 c 256) by done. lia.
Qed.

Lemma digits_value (d0 d1 d2 d3 : N) :
  (d0 < 64 -> d1 < 64 -> d2 < 64 -> d3 < 64 ->
   N.lor (N.lor (N.lor (N.shiftl d0 18) (N.shiftl d1 12)) (N.shiftl d2 6)) d3
   = d0 * 262144 + d1 * 4096 + d2 * 64 + d3)%N.
Proof.
  intros H0 H1 H2 H3.
  replace (N.shiftl d0 18) with (N.shiftl (N.shiftl (N.shiftl d0 6) 6) 6)
    by (by rewrite !N.shiftl_shiftl).
  replace (N.shiftl d1 12) with (N.shiftl (N.shiftl d1 6) 6)
    by (by rewrite !N.shiftl_shiftl).
  rewrite <- !N.shiftl_lor.
  rewrite (lor_shiftl_add d0 6 d1 64) by done.
  rewrite (lor_shiftl_add _ 6 d2 64) by done.
  rewrite (lor_shiftl_add _ 6 d3 64) by done. lia.
Qed.

Lemma sextet_of (val : N) (k : N) :
  N.land (N.shiftr val k) 63 = ((val / 2 ^ k) mod 64)%N.
Proof. rewrite N.shiftr_div_pow2. apply (N.land_ones _ 6). Qed.

Lemma digit_sextet (i : N) : (i < 64)%N -> digit (sextet i) = Some i.
Proof.
  intros Hi.
  assert (forallb (fun n => match digit (sextet (N.of_nat n)) with
                            | Some j => N.eqb j (N.of_nat n)
                            | None => false
                            end) (seq 0 64) = true) as Hall by (vm_compute; reflexivity).
  rewrite forallb_forall in Hall.
  specialize (Hall (N.to_nat i)). rewrite N2Nat.id in Hall.
  destruct (digit (sextet i)) as [j|].
  - f_equal. apply N.eqb_eq, Hall, in_seq. lia.
  - discriminate Hall. apply in_seq. lia.
Qed.

Lemma sextet_not_pad (i : N) : (i < 64)%N -> Ascii.eqb (sextet i) "="%char = false.
Proof.
  intros Hi.
  assert (forallb (fun n => negb (Ascii.eqb (sextet (N.of_nat n)) "="%char))
                  (seq 0 64) = true) as Hall by (vm_compute; reflexivity).
  rewrite forallb_forall in Hall.
  specialize (Hall (N.to_nat i)). rewrite N2Nat.id in Hall.
  apply negb_true_iff, Hall, in_seq. lia.
Qed.

Lemma octet_byte (c : ascii) (n : N) : n = byte c -> octet n = c.
Proof.
  intros ->. unfold octet, byte.
  change 255%N with (N.ones 8). rewrite N.land_ones.
  rewrite N.mod_small by apply N_ascii_bounded. apply ascii_N_embedding.
Qed.

Lemma octet_mod (c : ascii) (n : N) : (n mod 256 = byte c)%N -> octet n = c.
Proof.
  intros H. unfold octet. change 255%N with (N.ones 8).
  rewrite N.land_ones. change (2 ^ 8)%N with 256%N. rewrite H.
  apply ascii_N_embedding.
Qed.

Local Ltac euclid := zify; Z.to_euclidean_division_equations; lia.

Lemma DecodeString_digits (d0 d1 d2 d3 : N) (tail t : list ascii) :
  (d0 < 64)%N -> (d1 < 64)%N -> (d2 < 64)%N -> (d3 < 64)%N ->
  DecodeString tail = Some t ->
  DecodeString (sextet d0 :: sextet d1 :: sextet d2 :: sextet d3 :: tail)
  = let val := (d0 * 262144 + d1 * 4096 + d2 * 64 + d3)%N in
    Some (octet (N.shiftr val 16) :: octet (N.shiftr val 8) :: octet val :: t).
Proof.
  intros H0 H1 H2 H3 Ht. cbn [DecodeString].
  rewrite !digit_sextet, Ht, digits_value by done.
  destruct tail as [|x tail']; [|done].
  rewrite (sextet_not_pad d3) by done. injection Ht as <-. done.
Qed.

Lemma chars_String x s : chars (String x s) = x :: chars s.
Proof. reflexivity. Qed.

Lemma DecodeString_group (a b c : ascii) (rest : list ascii) :
  DecodeString (chars (EncodeToString rest)) = Some rest ->
  DecodeString (chars (EncodeToString (a :: b :: c :: rest)))
  = Some (a :: b :: c :: rest).
Proof.
  intros Hrest. cbn [EncodeToString]. cbn zeta.
  pose proof (byte_lt a). pose proof (byte_lt b). pose proof (byte_lt c).
  rewrite group_value by done.
  rewrite !sextet_of, (N.land_ones _ 6), !chars_String.
  change (2 ^ 18)%N with 262144%N. change (2 ^ 12)%N with 4096%N.
  change (2 ^ 6)%N with 64%N.
  rewrite (DecodeString_digits _ _ _ _ _ rest) by (done || euclid).
  cbn zeta. rewrite !N.shiftr_div_pow2.
  change (2 ^ 16)%N with 65536%N. change (2 ^ 8)%N with 256%N.
  repeat f_equal; apply octet_mod; euclid.
Qed.

Lemma DecodeString_one (a : ascii) :
  DecodeString (chars (EncodeToString [a])) = Some [a].
Proof.
  cbn [EncodeToString]. cbn zeta. pose proof (byte_lt a).
  rewrite !sextet_of, !chars_String, N.shiftl_mul_pow2.
  change (2 ^ 18)%N with 262144%N. change (2 ^ 12)%N with 4096%N.
  change (2 ^ 16)%N with 65536%N.
  cbn [DecodeString chars list_ascii_of_string].
  rewrite !digit_sextet by euclid. cbn [Ascii.eqb Bool.eqb].
  change (Ascii.eqb "=" "=") with true. cbn iota.
  replace (N.shiftl ((byte a * 65536 / 262144) mod 64) 18)
    with (N.shiftl (N.shiftl ((byte a * 65536 / 262144) mod 64) 6) 12)
    by (by rewrite N.shiftl_shiftl).
  rewrite <- N.shiftl_lor, (lor_shiftl_add _ 6 _ 64) by (done || euclid).
  rewrite N.shiftl_mul_pow2, N.shiftr_div_pow2.
  change (2 ^ 12)%N with 4096%N. change (2 ^ 16)%N with 65536%N.
  repeat f_equal; apply octet_mod; euclid.
Qed.

Lemma DecodeString_two (a b : ascii) :
  DecodeString (chars (EncodeToString [a; b])) = Some [a; b].
Proof.
  cbn [EncodeToString]. cbn zeta. pose proof (byte_lt a). pose proof (byte_lt b).
  replace (N.shiftl (byte a) 16) with (N.shiftl (N.shiftl (byte a) 8) 8)
    by (by rewrite N.shiftl_shiftl).
  rewrite <- N.shiftl_lor, (lor_shiftl_add _ 8 _ 256) by done.
  rewrite !sextet_of, !chars_String, N.shiftl_mul_pow2.
  change (2 ^ 18)%N with 262144%N. change (2 ^ 12)%N with 4096%N.
  change (2 ^ 8)%N with 256%N. change (2 ^ 6)%N with 64%N.
  cbn [DecodeString chars list_ascii_of_string].
  rewrite !digit_sextet by euclid.
  change (Ascii.eqb "=" "=") with true. cbn iota.
  rewrite sextet_not_pad by euclid.
  replace (N.shiftl (((byte a * 256 + byte b) * 256 / 262144) mod 64) 18)
    with (N.shiftl (N.shiftl (N.shiftl
            (((byte a * 256 + byte b) * 256 / 262144) mod 64) 6) 6) 6)
    by (by rewrite !N.shiftl_shiftl).
  replace (N.shiftl (((byte a * 256 + byte b) * 256 / 4096) mod 64) 12)
    with (N.shiftl (N.shiftl
            (((byte a * 256 + byte b) * 256 / 4096) mod 64) 6) 6)
    by (by rewrite !N.shiftl_shiftl).
  rewrite <- !N.shiftl_lor.
  rewrite (lor_shiftl_add _ 6 _ 64) by (done || euclid).
  rewrite (lor_shiftl_add _ 6 _ 64) by (done || euclid).
  rewrite N.shiftl_mul_pow2, !N.shiftr_div_pow2.
  change (2 ^ 6)%N with 64%N. change (2 ^ 16)%N with 65536%N.
  change (2 ^ 8)%N with 256%N.
  repeat f_equal; apply octet_mod; euclid.
Qed.

(** What [EncodeToString] writes, [DecodeString] reads back. *)
Lemma DecodeString_EncodeToString (src : list ascii) :
  DecodeString (chars (EncodeToString src)) = Some src.
Proof.
  assert (DecodeString (chars (EncodeToString src)) = Some src
          /\ (forall a, DecodeString (chars (EncodeToString (a :: src)))
                        = Some (a :: src))
          /\ (forall a b, DecodeString (chars (EncodeToString (a :: b :: src)))
                          = Some (a :: b :: src)))
    as [H _]; [|exact H].
  induction src as [|c src (IH0 & IH1 & IH2)].
  - split; [reflexivity|].
    split; [apply DecodeString_one|apply DecodeString_two].
  - split; [exact (IH1 c)|]. split; [exact (fun a => IH2 a c)|].
    intros a b. by apply DecodeString_group.
Qed.

(** ** The image pull secret *)

Section SecretProofs.
Context `{API : OperatorAPI} `{SV : Semver} `{SORT : Sort} `{ENC : !Encoding}
        `{W : World}.

Lemma ImagePullSecret_OK_inv keyFileLocation secret :
  ImagePullSecret keyFileLocation = OK secret ->
  exists file keyData configJSON,
    os_Open keyFileLocation = OK file
    /\ ioutil_ReadAll file = OK keyData
    /\ json_Marshal (dockerConfig keyData) = OK configJSON
    /\ secret = {| Secret_APIVersion := corev1_SchemeGroupVersion;
                   Secret_Kind := "Secret";
                   Secret_Name := "jse-gcr-creds";
                   Secret_Namespace := "jetstack-secure";
                   Secret_Type := corev1_SecretTypeDockerConfigJson;
                   Secret_Data := {[ corev1_DockerConfigJsonKey := configJSON ]} |}.
Proof.
  unfold ImagePullSecret. intros H.
  destruct (os_Open keyFileLocation) as [file|err]; [|by destruct (is_ErrNotExist err)].
  destruct (ioutil_ReadAll file) as [keyData|err] eqn:Hread; [|done].
  simpl in H.
  destruct (json_Marshal (dockerConfig keyData)) as [configJSON|err] eqn:Hjson; [|done].
  simpl in H. injection H as <-. by exists file, keyData, configJSON.
Qed.

End SecretProofs.

(** ** The installation builder *)

Section BuilderProofs.
Context `{API : OperatorAPI} `{SV : Semver} `{SORT : Sort}
        `{ENC : !Encoding}
        `{W : World} `{VEN : !Venafi}.

Implicit Types (mf : manifests) (options : ApplyInstallationYAMLOptions)
         (spec : InstallationSpec) (s t : step).

Lemma withSpec_id mf : withSpec id mf = mf.
Proof. by destruct mf as [[] ?]. Qed.

Lemma withSpec_withSpec f g mf :
  withSpec f (withSpec g mf) = withSpec (fun spec => f (g spec)) mf.
Proof. reflexivity. Qed.

Lemma withSpec_appendSecret f secret mf :
  withSpec f (appendSecret secret mf) = appendSecret secret (withSpec f mf).
Proof. reflexivity. Qed.

Lemma withSpec_ext f g mf :
  (forall spec, f spec = g spec) -> withSpec f mf = withSpec g mf.
Proof. intros H. unfold withSpec. by rewrite H. Qed.

(** The steps that set a field are total on a manifest that has its
    [CertManager], and are the assignment of [fieldUpdate]. *)
Lemma runStep_field options s mf :
  (rank s < 4)%nat -> hasCertManager mf ->
  runStep options s mf = OK (withSpec (fieldUpdate options s) mf).
Proof.
  intros Hs [cm Hcm]. destruct s; simpl in Hs; try lia; simpl.
  - unfold applyIstioCSRToInstallation.
    destruct (InstallIstioCSR options); simpl; [|by rewrite withSpec_id].
    by destruct (String.eqb (IstioCSRIssuer options) "").
  - unfold applyCertManagerVersion.
    destruct (String.eqb (CertManagerVersion options) "") eqn:Hv.
    + f_equal. rewrite <- (withSpec_id mf) at 1. apply withSpec_ext.
      by intros spec.
    + rewrite Hcm. f_equal. unfold withSpec. simpl. by rewrite Hcm.
  - unfold applyCSIDriversToInstallation.
    destruct (InstallCSIDriver options), (InstallSpiffeCSIDriver options);
      simpl; by rewrite ?withSpec_id.
  - unfold applyVenafiOauthHelperToInstallation.
    destruct (InstallVenafiOauthHelper options); simpl; by rewrite ?withSpec_id.
Qed.

Lemma fieldUpdate_CertManager options s spec :
  is_Some (Spec_CertManager spec) ->
  is_Some (Spec_CertManager (fieldUpdate options s spec)).
Proof.
  intros [cm Hcm]. destruct s; simpl;
    repeat match goal with |- context [if ?b then _ else _] => destruct b end;
    simpl; rewrite ?Hcm; eauto.
Qed.

Lemma fieldUpdate_appendIssuer options s issuer spec :
  fieldUpdate options s (appendIssuer issuer spec)
  = appendIssuer issuer (fieldUpdate options s spec).
Proof.
  destruct s; simpl;
    repeat match goal with |- context [if ?b then _ else _] => destruct b end;
    simpl; try reflexivity.
  by destruct (Spec_CertManager spec).
Qed.

Lemma fieldUpdate_comm options s t spec :
  fieldUpdate options s (fieldUpdate options t spec)
  = fieldUpdate options t (fieldUpdate options s spec).
Proof.
  destruct s, t; simpl;
    repeat match goal with |- context [if ?b then _ else _] => destruct b end;
    simpl; try reflexivity;
    destruct (Spec_CertManager spec); reflexivity.
Qed.

Lemma fieldUpdate_CSIDrivers options s spec :
  s <> StepCSIDrivers ->
  Spec_CSIDrivers (fieldUpdate options s spec) = Spec_CSIDrivers spec.
Proof.
  intros Hs. destruct s; try done; simpl;
    repeat match goal with |- context [if ?b then _ else _] => destruct b end;
    simpl; try reflexivity.
  by destruct (Spec_CertManager spec).
Qed.

Lemma fieldUpdate_CSIDrivers_set options spec :
  Spec_CSIDrivers (fieldUpdate options StepCSIDrivers spec)
  = if InstallCSIDriver options || InstallSpiffeCSIDriver options
    then Some (csiDrivers options) else Spec_CSIDrivers spec.
Proof.
  simpl.
  by destruct (InstallCSIDriver options || InstallSpiffeCSIDriver options).
Qed.

(** The two steps that collect secrets leave the fields alone: they go
    through an assignment to the spec that goes through [appendIssuer]. *)
Lemma generateIssuers_withSpec f mf issuers :
  (forall issuer spec, f (appendIssuer issuer spec) = appendIssuer issuer (f spec)) ->
  generateIssuers (withSpec f mf) issuers
  = mapResult (withSpec f) (generateIssuers mf issuers).
Proof.
  intros Hf. revert mf.
  induction issuers as [|issuerTemplate rest IH]; intros mf; simpl; [done|].
  destruct (GenerateOperatorManifestsForIssuer issuerTemplate)
    as [[issuer secret]|err]; [|done].
  rewrite <- IH. f_equal.
  rewrite <- withSpec_appendSecret, !withSpec_withSpec.
  apply withSpec_ext. intros spec. by rewrite Hf.
Qed.

Lemma runStep_late_withSpec options s t mf :
  (4 <= rank t)%nat ->
  runStep options t (withSpec (fieldUpdate options s) mf)
  = mapResult (withSpec (fieldUpdate options s)) (runStep options t mf).
Proof.
  intros Ht. destruct t; simpl in Ht; try lia; simpl.
  - unfold collectImagePullSecret.
    destruct (negb (String.eqb (Credentials options) "")); [|done].
    by destruct (ImagePullSecret (Credentials options)).
  - unfold generateVenafiIssuerManifests.
    rewrite generateIssuers_withSpec by apply fieldUpdate_appendIssuer.
    by destruct (generateIssuers mf (VenafiIssuers options)).
Qed.

Lemma generateIssuers_grows mf issuers mf' :
  generateIssuers mf issuers = OK mf' ->
  exists f extra,
    mf' = withSpec f {| installation := installation mf;
                        secrets := secrets mf ++ extra |}
    /\ (forall spec, Spec_CertManager (f spec) = Spec_CertManager spec)
    /\ (forall spec, Spec_CSIDrivers (f spec) = Spec_CSIDrivers spec).
Proof.
  revert mf. induction issuers as [|issuerTemplate rest IH]; intros mf; simpl.
  - intros [= <-]. exists id, []. rewrite app_nil_r, withSpec_id.
    by destruct mf.
  - destruct (GenerateOperatorManifestsForIssuer issuerTemplate)
      as [[issuer secret]|err]; [|done].
    intros H. apply IH in H as (f & extra & -> & Hcm & Hcsi).
    exists (fun spec => f (appendIssuer issuer spec)), (secret :: extra).
    simpl. rewrite <- app_assoc. split; [done|].
    split; intros spec; by rewrite ?Hcm, ?Hcsi.
Qed.

Lemma runStep_hasCertManager options s mf mf' :
  hasCertManager mf -> runStep options s mf = OK mf' -> hasCertManager mf'.
Proof.
  intros Hcm. destruct (decide (rank s < 4)%nat) as [Hs|Hs].
  - rewrite runStep_field by done. intros [= <-].
    by apply fieldUpdate_CertManager.
  - destruct s; simpl in Hs; try lia; simpl.
    + unfold collectImagePullSecret.
      destruct (negb (String.eqb (Credentials options) "")); [|by intros [= <-]].
      destruct (ImagePullSecret (Credentials options)); [|done].
      by intros [= <-].
    + intros H. apply wrap_OK_inv, generateIssuers_grows in H
        as (f & extra & -> & Hf & _).
      unfold hasCertManager. simpl. by rewrite Hf.
Qed.

Lemma skeleton_hasCertManager options : hasCertManager (skeleton options).
Proof. unfold hasCertManager. simpl. eauto. Qed.

Lemma buildManifests_runSteps options :
  buildManifests options = runSteps options implementedOrder (skeleton options).
Proof.
  unfold buildManifests. simpl.
  destruct (applyIstioCSRToInstallation (skeleton options) options) as [m1|];
    [|done]. simpl.
  destruct (applyCertManagerVersion m1 options) as [m2|]; [|done]. simpl.
  destruct (collectImagePullSecret _ options) as [m3|]; [|done]. simpl.
  by destruct (generateVenafiIssuerManifests m3 options).
Qed.

(** Two steps can be exchanged, unless they are the two that append to the
    list of secrets. *)
Lemma runStep_exchange options s t mf (k : manifests -> result error manifests) :
  hasCertManager mf ->
  ~ (rank s = 5 /\ rank t = 4)%nat -> ~ (rank s = 4 /\ rank t = 5)%nat ->
  (m1 <-! runStep options s mf; m2 <-! runStep options t m1; k m2)
  = (m1 <-! runStep options t mf; m2 <-! runStep options s m1; k m2).
Proof.
  intros Hcm H54 H45.
  destruct (decide (rank s < 4)%nat) as [Hs|Hs],
           (decide (rank t < 4)%nat) as [Ht|Ht].
  - rewrite (runStep_field options s mf), (runStep_field options t mf) by done.
    simpl.
    rewrite !runStep_field by (done || by apply fieldUpdate_CertManager).
    simpl. f_equal. rewrite !withSpec_withSpec. apply withSpec_ext.
    intros spec. apply fieldUpdate_comm.
  - rewrite (runStep_field options s mf) by done. simpl.
    rewrite runStep_late_withSpec by lia.
    destruct (runStep options t mf) as [m1|] eqn:Hm1; [|done]. simpl.
    rewrite runStep_field; [done..|]. by eapply runStep_hasCertManager.
  - rewrite (runStep_field options t mf) by done. simpl.
    rewrite runStep_late_withSpec by lia.
    destruct (runStep options s mf) as [m1|] eqn:Hm1; [|done]. simpl.
    rewrite runStep_field; [done..|]. by eapply runStep_hasCertManager.
  - destruct s, t; simpl in *; solve [lia | done].
Qed.

Lemma runSteps_insertStep options s l mf :
  hasCertManager mf ->
  (forall t, t ∈ l -> ~ (rank s = 5 /\ rank t = 4)%nat) ->
  runSteps options (insertStep s l) mf = runSteps options (s :: l) mf.
Proof.
  revert mf. induction l as [|t r IH]; intros mf Hcm Hok; [done|].
  simpl insertStep. destruct (rank s <=? rank t)%nat eqn:Hle; [done|].
  apply Nat.leb_gt in Hle.
  transitivity (m1 <-! runStep options t mf;
                m2 <-! runStep options s m1; runSteps options r m2).
  - simpl. destruct (runStep options t mf) as [m1|] eqn:Hm1; [|done]. simpl.
    apply IH; [by eapply runStep_hasCertManager|].
    intros u Hu. apply Hok. by right.
  - simpl. symmetry. apply runStep_exchange; [done| |lia].
    apply Hok. by left.
Qed.

Lemma insertStep_Permutation s l : insertStep s l ≡ₚ s :: l.
Proof.
  induction l as [|t r IH]; simpl; [done|].
  destruct (rank s <=? rank t)%nat; [done|]. rewrite IH. apply perm_swap.
Qed.

Lemma sortSteps_Permutation l : sortSteps l ≡ₚ l.
Proof.
  induction l as [|s l IH]; simpl; [done|].
  by rewrite insertStep_Permutation, IH.
Qed.

Lemma insertStep_Sorted s l :
  Sorted (fun a b => rank a <= rank b)%nat l ->
  Sorted (fun a b => rank a <= rank b)%nat (insertStep s l).
Proof.
  induction l as [|t r IH]; intros Hl; simpl; [by repeat constructor|].
  destruct (rank s <=? rank t)%nat eqn:Hle.
  - apply Nat.leb_le in Hle. constructor; [done|]. by constructor.
  - apply Nat.leb_gt in Hle. apply Sorted_inv in Hl as [Hr Ht].
    constructor; [by apply IH|].
    destruct r as [|u r]; simpl.
    + constructor. lia.
    + apply HdRel_inv in Ht.
      destruct (rank s <=? rank u)%nat; constructor; lia.
Qed.

Lemma sortSteps_Sorted l :
  Sorted (fun a b => rank a <= rank b)%nat (sortSteps l).
Proof.
  induction l as [|s l IH]; simpl; [constructor|]. by apply insertStep_Sorted.
Qed.

Lemma sortSteps_implementedOrder order :
  order ≡ₚ implementedOrder -> sortSteps order = implementedOrder.
Proof.
  intros Hp.
  assert (Transitive (fun a b => rank a <= rank b)%nat) by (intros a b c; lia).
  assert (AntiSymm (=) (fun a b => rank a <= rank b)%nat).
  { intros a b Hab Hba. destruct a, b; simpl in *; solve [done | lia]. }
  apply (Sorted_unique (fun a b => rank a <= rank b)%nat).
  - apply sortSteps_Sorted.
  - unfold implementedOrder. repeat constructor.
  - by rewrite sortSteps_Permutation.
Qed.

Lemma runSteps_sortSteps options order mf :
  hasCertManager mf ->
  (forall pre s rest t, order = pre ++ s :: rest -> t ∈ rest ->
                        ~ (rank s = 5 /\ rank t = 4)%nat) ->
  runSteps options (sortSteps order) mf = runSteps options order mf.
Proof.
  revert mf. induction order as [|s l IH]; intros mf Hcm Hok; [done|].
  simpl sortSteps. rewrite runSteps_insertStep; [|done|].
  - simpl. destruct (runStep options s mf) as [m1|] eqn:Hm1; [|done]. simpl.
    apply IH; [by eapply runStep_hasCertManager|].
    intros pre u rest t -> Ht. by apply (Hok (s :: pre) u rest t).
  - intros t Ht. rewrite sortSteps_Permutation in Ht.
    by apply (Hok [] s l t).
Qed.

Lemma comesBefore_spec a b l :
  comesBefore a b l = true ->
  forall pre s rest t, l = pre ++ s :: rest -> t ∈ rest ->
                       ~ (rank s = rank b /\ rank t = rank a).
Proof.
  induction l as [|x l IH]; intros Hb pre s rest t Heq Ht [Hs Hta].
  - by destruct pre.
  - simpl in Hb. destruct pre as [|y pre]; simplify_eq/=.
    + rewrite Hs, Nat.eqb_refl in Hb. apply andb_true_iff in Hb as [Hall _].
      rewrite forallb_forall in Hall.
      apply list_elem_of_In, Hall in Ht. rewrite Hta, Nat.eqb_refl in Ht.
      done.
    + destruct (rank y =? rank b)%nat.
      * apply andb_true_iff in Hb as [_ Hb]. by eapply IH.
      * by eapply IH.
Qed.

Lemma hasCertManager_fieldUpdate options s mf :
  hasCertManager mf -> hasCertManager (withSpec (fieldUpdate options s) mf).
Proof. apply fieldUpdate_CertManager. Qed.

Local Ltac solve_field :=
  try (simpl; lia); repeat apply hasCertManager_fieldUpdate; done.

(** The four assignments at the head of the order in the source. *)
Lemma runSteps_assignments options rest mf :
  hasCertManager mf ->
  runSteps options
    (StepIstioCSR :: StepCertManagerVersion :: StepCSIDrivers
       :: StepVenafiOauthHelper :: rest) mf
  = runSteps options rest
      (withSpec
         (fun spec =>
            fieldUpdate options StepVenafiOauthHelper
              (fieldUpdate options StepCSIDrivers
                 (fieldUpdate options StepCertManagerVersion
                    (fieldUpdate options StepIstioCSR spec))))
         mf).
Proof.
  intros Hcm. cbn [runSteps].
  rewrite (runStep_field options StepIstioCSR) by solve_field.
  cbn [bind].
  rewrite (runStep_field options StepCertManagerVersion) by solve_field.
  cbn [bind].
  rewrite (runStep_field options StepCSIDrivers) by solve_field.
  cbn [bind].
  rewrite (runStep_field options StepVenafiOauthHelper) by solve_field.
  cbn [bind]. by rewrite !withSpec_withSpec.
Qed.

(** What a successful build looks like: the four assignments on the
    skeleton, then the pull secret when there is a credentials path, then
    what the issuers added. *)
Lemma buildManifests_OK_inv options mf :
  buildManifests options = OK mf ->
  exists pulled f extra,
    mf = withSpec f
           {| installation :=
                installation
                  (withSpec
                     (fun spec =>
                        fieldUpdate options StepVenafiOauthHelper
                          (fieldUpdate options StepCSIDrivers
                             (fieldUpdate options StepCertManagerVersion
                                (fieldUpdate options StepIstioCSR spec))))
                     (skeleton options));
              secrets := pulled ++ extra |}
    /\ (forall spec, Spec_CSIDrivers (f spec) = Spec_CSIDrivers spec)
    /\ (if String.eqb (Credentials options) "" then pulled = []
        else exists secret,
            pulled = [secret]
            /\ ImagePullSecret (Credentials options) = OK secret).
Proof.
  rewrite buildManifests_runSteps. unfold implementedOrder.
  rewrite runSteps_assignments by apply skeleton_hasCertManager.
  cbn [runSteps runStep].
  unfold collectImagePullSecret, generateVenafiIssuerManifests.
  destruct (String.eqb (Credentials options) ""); simpl.
  - intros H.
    destruct (generateIssuers _ (VenafiIssuers options)) as [m|] eqn:Hg; [|done].
    simpl in H. injection H as <-.
    apply generateIssuers_grows in Hg as (f & extra & -> & _ & Hcsi).
    by exists [], f, extra.
  - destruct (ImagePullSecret (Credentials options)) as [secret|]; [|done].
    simpl. intros H.
    destruct (generateIssuers _ (VenafiIssuers options)) as [m|] eqn:Hg; [|done].
    simpl in H. injection H as <-.
    apply generateIssuers_grows in Hg as (f & extra & -> & _ & Hcsi).
    exists [secret], f, extra. split; [done|]. split; [done|]. by exists secret.
Qed.

Lemma generateIssuers_fails mf issuers tmpl err :
  tmpl ∈ issuers -> GenerateOperatorManifestsForIssuer tmpl = Fail err ->
  exists e, generateIssuers mf issuers = Fail e.
Proof.
  revert mf. induction issuers as [|u rest IH]; intros mf Hin Hfail.
  - by apply elem_of_nil in Hin.
  - simpl.
    destruct (GenerateOperatorManifestsForIssuer u) as [[issuer secret]|e] eqn:Hu;
      [|eauto].
    apply elem_of_cons in Hin as [->|Hin]; [congruence|]. by apply IH.
Qed.

Lemma buildManifests_issuer_fails options tmpl err :
  tmpl ∈ VenafiIssuers options ->
  GenerateOperatorManifestsForIssuer tmpl = Fail err ->
  exists e, buildManifests options = Fail e.
Proof.
  intros Hin Hfail. unfold buildManifests.
  destruct (applyIstioCSRToInstallation _ options) as [m1|]; [|simpl; eauto].
  simpl.
  destruct (applyCertManagerVersion m1 options) as [m2|]; [|simpl; eauto].
  simpl.
  destruct (collectImagePullSecret _ options) as [m3|]; [|simpl; eauto].
  simpl. unfold generateVenafiIssuerManifests.
  destruct (generateIssuers_fails m3 _ _ _ Hin Hfail) as [e ->]. simpl. eauto.
Qed.

(** C1.  In the manifests that [ApplyInstallationYAML] builds, the
    [CSIDrivers] field of the Installation is nil exactly when
    [InstallCSIDriver] and [InstallSpiffeCSIDriver] are both false; when it
    is set, its [CertManager] is set exactly when [InstallCSIDriver] is true
    and its [CertManagerSpiffe] (with the replica count of the options)
    exactly when [InstallSpiffeCSIDriver] is true. *)
Theorem csi_drivers_set_iff_flag options mf :
  buildManifests options = OK mf ->
  let field := Spec_CSIDrivers (Installation_Spec (installation mf)) in
  (field = None
   <-> InstallCSIDriver options = false /\ InstallSpiffeCSIDriver options = false)
  /\ (forall drivers,
        field = Some drivers ->
        CSIDrivers_CertManager drivers
        = (if InstallCSIDriver options then Some Build_CSIDriverCertManager
           else None)
        /\ CSIDrivers_CertManagerSpiffe drivers
           = (if InstallSpiffeCSIDriver options
              then Some {| CSIDriverCertManagerSpiffe_ReplicaCount :=
                             Some (SpiffeCSIDriverReplicas options) |}
              else None)).
Proof.
  intros H. apply buildManifests_OK_inv in H as (pulled & f & extra & -> & Hf & _).
  cbn [withSpec installation Installation_Spec]. cbn zeta.
  rewrite Hf, fieldUpdate_CSIDrivers, fieldUpdate_CSIDrivers_set by done.
  rewrite !fieldUpdate_CSIDrivers by done.
  unfold csiDrivers.
  destruct (InstallCSIDriver options), (InstallSpiffeCSIDriver options); simpl.
  1-3: split; [split; [done|by intros []]|]; by intros drivers [= <-].
  split; [done|]. by intros drivers.
Qed.

(** C3, as amended.  Five of the six mutation steps can run in any order,
    but the collection of the pull secret and the expansion of the issuer
    templates both append to the list of secrets: every order of the six
    steps in which the pull secret is collected before the issuers are
    expanded gives, from the skeleton, the result of the order in the
    source, the manifests or the error. *)
Theorem steps_commute_given_secret_order options order :
  order ≡ₚ implementedOrder ->
  comesBefore StepImagePullSecret StepVenafiIssuers order = true ->
  runSteps options order (skeleton options) = buildManifests options.
Proof.
  intros Hp Hb.
  rewrite buildManifests_runSteps, <- (sortSteps_implementedOrder order Hp).
  symmetry. apply runSteps_sortSteps; [apply skeleton_hasCertManager|].
  intros pre s rest t Heq Ht.
  by apply (comesBefore_spec _ _ _ Hb pre s rest t).
Qed.

(** C4.  [ApplyInstallationYAML] calls [Apply] at most once.  If the build
    of the manifests fails, or their marshalling fails, the error is returned
    and [Apply] is not called; this is so in particular when the pull secret
    cannot be made or when the expansion of one issuer template fails.  A
    stream is handed to [Apply] only when it is the marshalling of the
    manifests that were built. *)
Theorem apply_installation_is_atomic applier options :
  let r := ApplyInstallationYAML applier options in
  (List.length (Applied r) <= 1)%nat
  /\ (forall err, buildManifests options = Fail err -> r = returnErr err)
  /\ (forall mf err,
        buildManifests options = OK mf -> marshalManifests mf = Fail err ->
        r = returnErr (ErrWrap "error marshalling manifests" err))
  /\ (forall issuerTemplate err,
        issuerTemplate ∈ VenafiIssuers options ->
        GenerateOperatorManifestsForIssuer issuerTemplate = Fail err ->
        Applied r = [] /\ is_Some (Returned r))
  /\ (forall err,
        Credentials options <> "" ->
        ImagePullSecret (Credentials options) = Fail err ->
        r = returnErr (ErrWrap "failed to parse image pull secret" err))
  /\ (forall buf,
        buf ∈ Applied r ->
        Applied r = [buf]
        /\ exists mf, buildManifests options = OK mf
                      /\ marshalManifests mf = OK buf).
Proof.
  intros r. subst r. unfold ApplyInstallationYAML.
  split; [|split; [|split; [|split; [|split]]]].
  - destruct (buildManifests options) as [mf|]; simpl; [|lia].
    destruct (marshalManifests mf); simpl; lia.
  - by intros err ->.
  - intros mf err Hb Hm. rewrite Hb. simpl. by rewrite Hm.
  - intros tmpl err Hin Hfail.
    destruct (buildManifests_issuer_fails options tmpl err Hin Hfail) as [e ->].
    simpl. eauto.
  - intros err Hcred Hfail.
    assert (buildManifests options
            = Fail (ErrWrap "failed to parse image pull secret" err)) as ->; [|done].
    rewrite buildManifests_runSteps. unfold implementedOrder.
    rewrite runSteps_assignments by apply skeleton_hasCertManager.
    cbn [runSteps runStep]. unfold collectImagePullSecret.
    apply String.eqb_neq in Hcred. by rewrite Hcred, Hfail.
  - intros buf Hin.
    destruct (buildManifests options) as [mf|]; simpl in *;
      [|by apply elem_of_nil in Hin].
    destruct (marshalManifests mf) as [out|] eqn:Hm; simpl in *;
      [|by apply elem_of_nil in Hin].
    apply list_elem_of_singleton in Hin as ->. split; [done|]. by exists mf.
Qed.

(** C9.  Whatever the key file, the docker config in the secret of
    [ImagePullSecret] has exactly one [auths] entry, under the host
    [eu.gcr.io], with the email [auth@jetstack.io]; neither function takes the
    host or the email from its input.  The pull secret that
    [ApplyInstallationYAML] collects, and the one whose document
    [ApplyOperatorYAML] appends to the installer, is the result of
    [ImagePullSecret] on the credentials path: no other option, the image
    registry among them, takes part in it. *)
Theorem registry_host_is_fixed :
  (forall keyFileLocation secret,
      ImagePullSecret keyFileLocation = OK secret ->
      exists config configJSON entry,
        Secret_Data secret = {[ ".dockerconfigjson" := configJSON ]}
        /\ json_Marshal config = OK configJSON
        /\ ConfigJSON_Auths config = {[ "eu.gcr.io" := entry ]}
        /\ size (ConfigJSON_Auths config) = 1
        /\ ConfigEntry_Email entry = "auth@jetstack.io")
  /\ (forall options mf,
        buildManifests options = OK mf -> Credentials options <> "" ->
        exists secret rest,
          secrets mf = secret :: rest
          /\ ImagePullSecret (Credentials options) = OK secret)
  /\ (forall (opts : ApplyOperatorYAMLOptions) output,
        renderOperatorYAML opts = OK output ->
        exists file buf secret secretData tpl,
          io_Copy file = OK buf
          /\ ImagePullSecret (CredentialsLocation opts) = OK secret
          /\ yaml_Marshal_Secret secret = OK secretData
          /\ template_Parse (buf +:+ documentMarker +:+ secretData) = OK tpl
          /\ template_Execute tpl {[ "ImageRegistry" := ImageRegistry opts ]}
             = OK output).
Proof.
  split; [|split].
  - intros loc secret H.
    apply ImagePullSecret_OK_inv in H
      as (file & keyData & configJSON & _ & _ & Hjson & ->).
    eexists (dockerConfig keyData), configJSON, _.
    split; [reflexivity|]. split; [exact Hjson|].
    split; [reflexivity|]. split; [|reflexivity].
    simpl. apply map_size_singleton.
  - intros options mf H Hcred.
    apply buildManifests_OK_inv in H as (pulled & f & extra & -> & _ & Hp).
    apply String.eqb_neq in Hcred. rewrite Hcred in Hp.
    destruct Hp as (secret & -> & Hs). by exists secret, extra.
  - intros opts output H. unfold renderOperatorYAML in H.
    destruct (if String.eqb (Version opts) "" then _ else _) as [file|]; [|done].
    simpl in H.
    destruct (io_Copy file) as [buf|] eqn:Hcopy; [|done]. simpl in H.
    destruct (ImagePullSecret (CredentialsLocation opts)) as [secret|] eqn:Hs;
      [|done].
    simpl in H.
    destruct (yaml_Marshal_Secret secret) as [secretData|] eqn:Hy; [|done].
    simpl in H.
    destruct (template_Parse _) as [tpl|] eqn:Hparse; [|done]. simpl in H.
    apply lift_OK_inv in H.
    by exists file, buf, secret, secretData, tpl.
Qed.

End BuilderProofs.

(** ** Paths *)

Lemma append_assoc (a b c : string) : (a +:+ b) +:+ c = a +:+ (b +:+ c).
Proof. induction a as [|x a IH]; simpl; [done|]. by rewrite IH. Qed.

Lemma append_empty_r (a : string) : a +:+ "" = a.
Proof. induction a as [|x a IH]; simpl; [done|]. by f_equal. Qed.

Lemma chars_append (a b : string) : chars (a +:+ b) = chars a ++ chars b.
Proof. induction a as [|x a IH]; simpl; [done|]. by f_equal. Qed.

Lemma length_append (a b : string) :
  String.length (a +:+ b) = (String.length a + String.length b)%nat.
Proof. induction a as [|x a IH]; simpl; [done|]. by rewrite IH. Qed.

Lemma noBrace_append (a b : string) :
  noBrace (a +:+ b) = noBrace a && noBrace b.
Proof. unfold noBrace. by rewrite chars_append, forallb_app. Qed.

Lemma splitSep_no_separator (name cur : string) :
  forallb (fun c => negb (isSep c)) (chars name) = true ->
  splitSep name cur = [cur +:+ name].
Proof.
  revert cur. induction name as [|c name IH]; intros cur Hn; simpl.
  - by rewrite append_empty_r.
  - simpl in Hn. apply andb_true_iff in Hn as [Hc Hn].
    apply negb_true_iff in Hc. rewrite Hc, IH by done.
    by rewrite append_assoc.
Qed.

(** Joining [installers] and a name without separator that is a real
    element gives the two, separated: there is nothing to clean. *)
Lemma filepath_Join_installers (name : string) :
  forallb (fun c => negb (isSep c)) (chars name) = true ->
  (3 <= String.length name)%nat ->
  filepath_Join ["installers"; name] = "installers/" +:+ name.
Proof.
  intros Hsep Hlen.
  assert (forall s, (String.length s < 3)%nat -> String.eqb name s = false) as Hne.
  { intros s Hs. apply String.eqb_neq. intros ->. lia. }
  unfold filepath_Join, filepath_Clean. simpl.
  rewrite (splitSep_no_separator name "") by done. simpl.
  unfold cleanStep at 1. simpl.
  unfold cleanStep. rewrite !Hne by (simpl; lia). simpl.
  destruct name; [simpl in Hlen; lia|done].
Qed.

Lemma versioned_name_is_element (version : string) :
  forallb (fun c => negb (isSep c)) (chars version) = true ->
  forallb (fun c => negb (isSep c)) (chars (version +:+ ".yaml")) = true
  /\ (3 <= String.length (version +:+ ".yaml"))%nat.
Proof.
  intros H. rewrite chars_append, forallb_app, H, length_append. simpl.
  split; [done|lia].
Qed.

(** ** The installer renderer *)

Section RendererProofs.
Context `{API : OperatorAPI} `{SV : Semver} `{SORT : Sort} `{ENC : !Encoding}
        `{W : World}.

Lemma installers_Open_not_found (path : string) :
  (forall entry, entry ∈ installers ->
                 "installers/" +:+ DirEntry_Name entry <> path) ->
  (forall dir rest entry,
      (dir, rest, entry) ∈ installers_below ->
      "installers/" +:+ dir +:+ "/" +:+ rest <> path) ->
  installers_Open path = Fail (PathNotExist path).
Proof.
  intros Htop Hbelow. unfold installers_Open.
  destruct (List.find _ installers) as [entry|] eqn:Hfind.
  { apply find_some in Hfind as [Hin Heq].
    apply String.eqb_eq in Heq. apply list_elem_of_In in Hin.
    by destruct (Htop entry Hin). }
  destruct (List.find _ installers_below) as [[[dir rest] entry]|] eqn:Hfind';
    [|done].
  apply find_some in Hfind' as [Hin Heq].
  apply String.eqb_eq in Heq. apply list_elem_of_In in Hin.
  by destruct (Hbelow dir rest entry Hin).
Qed.

(** A path below a directory of [installers] is not the path of a name
    without separator. *)
Lemma below_has_separator (dir rest name : string) :
  forallb (fun c => negb (isSep c)) (chars name) = true ->
  "installers/" +:+ dir +:+ "/" +:+ rest <> "installers/" +:+ name.
Proof.
  intros Hname Heq. apply (inj (String.app "installers/")) in Heq.
  rewrite <- Heq, !chars_append, !forallb_app in Hname.
  apply andb_true_iff in Hname as [_ Hname]. discriminate Hname.
Qed.

(** A name without separator that no entry of [installers] has is not
    embedded. *)
Lemma installers_Open_no_entry (name : string) :
  forallb (fun c => negb (isSep c)) (chars name) = true ->
  (forall entry, entry ∈ installers -> DirEntry_Name entry <> name) ->
  installers_Open ("installers/" +:+ name)
  = Fail (PathNotExist ("installers/" +:+ name)).
Proof.
  intros Hname Hnone. apply installers_Open_not_found.
  - intros entry Hin Heq. apply (Hnone entry Hin).
    by apply (inj (String.app "installers/")) in Heq.
  - intros dir rest entry _. by apply below_has_separator.
Qed.

Lemma Versions_prefixed versions latest :
  Versions = OK versions -> last versions = Some latest ->
  String.eqb latest "" = false.
Proof.
  unfold Versions. intros Hv Hlast.
  destruct (parseVersions _) as [parsed|]; [|done]. simpl in Hv.
  injection Hv as <-.
  apply last_Some_elem_of, list_elem_of_In, in_map_iff in Hlast
    as (p & <- & _).
  done.
Qed.

(** The strings of [Versions] hold no path separator. *)
Lemma Versions_element versions version :
  Versions = OK versions -> version ∈ versions ->
  forallb (fun c => negb (isSep c)) (chars version) = true.
Proof.
  unfold Versions. intros Hv Hin.
  destruct (parseVersions _) as [parsed|]; [|done]. simpl in Hv.
  injection Hv as <-.
  apply list_elem_of_In, in_map_iff in Hin as (p & <- & _).
  exact (Version_String_element p).
Qed.

(** The stream of [ApplyOperatorYAML]: the installer, the document marker
    and the document of the pull secret are parsed as one template, which is
    then executed with the registry. *)
Lemma renderOperatorYAML_stream options file buf secret secretData :
  (if String.eqb (Version options) "" then latestManifest
   else manifestVersion (Version options)) = OK file ->
  io_Copy file = OK buf ->
  ImagePullSecret (CredentialsLocation options) = OK secret ->
  yaml_Marshal_Secret secret = OK secretData ->
  renderOperatorYAML options
  = (tpl <-! lift (template_Parse (buf +:+ documentMarker +:+ secretData));
     lift (template_Execute tpl {[ "ImageRegistry" := ImageRegistry options ]})).
Proof.
  intros Hfile Hcopy Hsecret Hyaml. unfold renderOperatorYAML.
  rewrite Hfile. simpl. rewrite Hcopy. simpl. rewrite Hsecret. simpl.
  by rewrite Hyaml.
Qed.

(** What [ApplyOperatorYAML] does after the installer is opened does not
    end in [ErrNoManifest]. *)
Lemma rendered_not_ErrNoManifest applier registry credentials file :
  applyWith applier
    (buf <-! lift (io_Copy file);
     secret <-! ImagePullSecret credentials;
     secretData <-! wrap "error marshalling secret data"
                         (lift (yaml_Marshal_Secret secret));
     tpl <-! lift (template_Parse (buf +:+ documentMarker +:+ secretData));
     lift (template_Execute tpl {[ "ImageRegistry" := registry ]}))
  <> returnErr ErrNoManifest.
Proof.
  destruct (io_Copy file) as [buf|]; [|done]. cbn [lift bind].
  unfold ImagePullSecret.
  destruct (os_Open credentials) as [key|err];
    [|by destruct (is_ErrNotExist err)].
  destruct (ioutil_ReadAll key) as [keyData|]; [|done]. cbn [lift wrap bind].
  destruct (json_Marshal (dockerConfig keyData)); [|done]. cbn [lift wrap bind].
  destruct (yaml_Marshal_Secret _); [|done]. cbn [lift wrap bind].
  destruct (template_Parse _); [|done]. cbn [lift bind].
  by destruct (template_Execute _ _).
Qed.

(** C2, as amended.  With the same registry and credentials, an empty
    [Version] hands the applier the stream that the highest string of
    [Versions] hands it (and returns the same error, when the installer of
    that name is embedded).  A [Version] that is not empty fails with
    [ErrNoManifest] exactly when [installers/Version.yaml], once joined and
    cleaned as a path, is the path of nothing embedded, neither of an entry
    of [installers] nor of one below a directory of [installers]; nothing is
    applied then.  For a [Version] without path separator that is so when
    no entry of [installers] is named [Version.yaml]. *)
Theorem operator_version_selection applier registry credentials :
  let apply version :=
    ApplyOperatorYAML applier
      {| Version := version; ImageRegistry := registry;
         CredentialsLocation := credentials |} in
  (forall versions latest,
      Versions = OK versions -> last versions = Some latest ->
      Applied (apply "") = Applied (apply latest)
      /\ (forall file,
            installers_Open (filepath_Join ["installers"; latest +:+ ".yaml"])
            = OK file ->
            apply "" = apply latest))
  /\ (forall version,
        version <> "" ->
        apply version = returnErr ErrNoManifest
        <-> (forall entry,
                entry ∈ installers ->
                "installers/" +:+ DirEntry_Name entry
                <> filepath_Join ["installers"; version +:+ ".yaml"])
            /\ (forall dir rest entry,
                   (dir, rest, entry) ∈ installers_below ->
                   "installers/" +:+ dir +:+ "/" +:+ rest
                   <> filepath_Join ["installers"; version +:+ ".yaml"]))
  /\ (forall version,
        version <> "" ->
        forallb (fun c => negb (isSep c)) (chars version) = true ->
        (forall entry, entry ∈ installers ->
                       DirEntry_Name entry <> version +:+ ".yaml") ->
        apply version = returnErr ErrNoManifest).
Proof.
  intros apply.
  assert (forall version,
             version <> "" ->
             (forall entry, entry ∈ installers ->
                            "installers/" +:+ DirEntry_Name entry
                            <> filepath_Join ["installers"; version +:+ ".yaml"]) ->
             (forall dir rest entry,
                 (dir, rest, entry) ∈ installers_below ->
                 "installers/" +:+ dir +:+ "/" +:+ rest
                 <> filepath_Join ["installers"; version +:+ ".yaml"]) ->
             apply version = returnErr ErrNoManifest) as Hmissing.
  { intros version Hne Htop Hbelow. subst apply. cbv beta.
    unfold ApplyOperatorYAML, renderOperatorYAML. simpl.
    apply String.eqb_neq in Hne. rewrite Hne.
    unfold manifestVersion. by rewrite installers_Open_not_found. }
  split; [|split].
  2:{ intros version Hne. split; [|by intros [Htop Hbelow]; apply Hmissing].
      subst apply. cbv beta.
      unfold ApplyOperatorYAML, renderOperatorYAML.
      cbn [Version ImageRegistry CredentialsLocation].
      apply String.eqb_neq in Hne. rewrite Hne.
      unfold manifestVersion.
      destruct (installers_Open _) as [file|err] eqn:Hopen.
      - intros H. by apply rendered_not_ErrNoManifest in H.
      - intros _. unfold installers_Open in Hopen.
        destruct (List.find _ installers) eqn:Htop; [done|].
        destruct (List.find _ installers_below) as [[[? ?] ?]|] eqn:Hbelow;
          [done|].
        split.
        + intros entry Hin. apply list_elem_of_In in Hin.
          apply String.eqb_neq. exact (find_none _ _ Htop entry Hin).
        + intros dir rest entry Hin. apply list_elem_of_In in Hin.
          apply String.eqb_neq.
          exact (find_none _ _ Hbelow (dir, rest, entry) Hin). }
  - intros versions latest Hv Hlast.
    pose proof (Versions_prefixed _ _ Hv Hlast) as Hne.
    assert (renderOperatorYAML
              {| Version := ""; ImageRegistry := registry;
                 CredentialsLocation := credentials |}
            = (file <-! lift (installers_Open
                                (filepath_Join ["installers"; latest +:+ ".yaml"]));
               buf <-! lift (io_Copy file);
               secret <-! ImagePullSecret credentials;
               secretData <-! wrap "error marshalling secret data"
                                   (lift (yaml_Marshal_Secret secret));
               tpl <-! lift (template_Parse
                               (buf +:+ documentMarker +:+ secretData));
               lift (template_Execute tpl {[ "ImageRegistry" := registry ]})))
      as Hdefault.
    { unfold renderOperatorYAML, latestManifest. simpl.
      rewrite Hv. simpl. by rewrite Hlast. }
    assert (renderOperatorYAML
              {| Version := latest; ImageRegistry := registry;
                 CredentialsLocation := credentials |}
            = (file <-! manifestVersion latest;
               buf <-! lift (io_Copy file);
               secret <-! ImagePullSecret credentials;
               secretData <-! wrap "error marshalling secret data"
                                   (lift (yaml_Marshal_Secret secret));
               tpl <-! lift (template_Parse
                               (buf +:+ documentMarker +:+ secretData));
               lift (template_Execute tpl {[ "ImageRegistry" := registry ]})))
      as Hnamed.
    { unfold renderOperatorYAML. simpl. by rewrite Hne. }
    subst apply. cbv beta. unfold ApplyOperatorYAML.
    rewrite Hdefault, Hnamed. unfold manifestVersion.
    destruct (installers_Open _) as [file|err]; simpl.
    + split; [done|]. by intros _ _.
    + split; [|done]. by destruct (is_ErrNotExist err).
  - intros version Hne Hsep Hnone.
    destruct (versioned_name_is_element version Hsep) as [Hs Hl].
    apply Hmissing; [done| |]; rewrite filepath_Join_installers by done.
    + intros entry Hin Heq. apply (Hnone entry Hin).
      by apply (inj (String.app "installers/")) in Heq.
    + intros dir rest entry _. by apply below_has_separator.
Qed.

End RendererProofs.

(** ** The reference instance *)

Import Reference.

Lemma releaseLess_spec (a b : release) :
  releaseLess a b = true
  <-> (a.1.1 < b.1.1
       \/ (a.1.1 = b.1.1
           /\ (a.1.2 < b.1.2 \/ (a.1.2 = b.1.2 /\ a.2 < b.2))))%N.
Proof.
  destruct a as [[a1 a2] a3], b as [[b1 b2] b3]. unfold releaseLess. simpl.
  rewrite !orb_true_iff, !andb_true_iff, !orb_true_iff, !andb_true_iff,
    !N.ltb_lt, !N.eqb_eq.
  tauto.
Qed.

Lemma releaseLess_asym (a b : release) :
  releaseLess a b = true -> releaseLess b a = false.
Proof.
  intros H. apply not_true_iff_false. rewrite releaseLess_spec in *. lia.
Qed.

Lemma releaseLess_not_trans (a b c : release) :
  releaseLess a b = false -> releaseLess b c = false -> releaseLess a c = false.
Proof. rewrite <- !not_true_iff_false, !releaseLess_spec. lia. Qed.

Lemma get_In (n : nat) (s : string) (c : ascii) :
  String.get n s = Some c -> In c (chars s).
Proof.
  revert n. induction s as [|d s IH]; intros n; simpl; [done|].
  destruct n as [|n]; [intros [= ->]; by left|]. intros H. right. by eapply IH.
Qed.

Lemma sextet_not_brace (i : N) : isBrace (sextet i) = false.
Proof.
  unfold sextet. destruct (String.get (N.to_nat i) encodeStd) as [c|] eqn:Hc;
    [|reflexivity].
  apply get_In in Hc.
  assert (forallb (fun c => negb (isBrace c)) (chars encodeStd) = true)
    as Hall by reflexivity.
  rewrite forallb_forall in Hall. by apply negb_true_iff, Hall.
Qed.

Lemma noBrace_String c s :
  noBrace (String c s) = negb (isBrace c) && noBrace s.
Proof. reflexivity. Qed.

Lemma noBrace_cons c s :
  isBrace c = false -> noBrace s = true -> noBrace (String c s) = true.
Proof. intros Hc Hs. by rewrite noBrace_String, Hc, Hs. Qed.

Lemma noBrace_sextet i s : noBrace (String (sextet i) s) = noBrace s.
Proof. by rewrite noBrace_String, sextet_not_brace. Qed.

Lemma EncodeToString_shape (src : list ascii) :
  match src with
  | [] => EncodeToString src = ""
  | [_] =>
      exists i0 i1,
        EncodeToString src = String (sextet i0) (String (sextet i1) "==")
  | [_; _] =>
      exists i0 i1 i2,
        EncodeToString src
        = String (sextet i0) (String (sextet i1) (String (sextet i2) "="))
  | _ :: _ :: _ :: rest =>
      exists i0 i1 i2 i3,
        EncodeToString src
        = String (sextet i0) (String (sextet i1) (String (sextet i2)
            (String (sextet i3) (EncodeToString rest))))
  end.
Proof.
  destruct src as [|a [|b [|c rest]]]; [reflexivity|..];
    repeat eexists; reflexivity.
Qed.

(** Base64 text holds no brace. *)
Lemma EncodeToString_noBrace (src : list ascii) :
  noBrace (EncodeToString src) = true.
Proof.
  assert (noBrace (EncodeToString src) = true
          /\ (forall a, noBrace (EncodeToString (a :: src)) = true)
          /\ (forall a b, noBrace (EncodeToString (a :: b :: src)) = true))
    as [H _]; [|exact H].
  induction src as [|c src (IH0 & IH1 & IH2)].
  - split; [reflexivity|]. split.
    + intros a. destruct (EncodeToString_shape [a]) as (i0 & i1 & ->).
      by do 2 rewrite noBrace_sextet.
    + intros a b. destruct (EncodeToString_shape [a; b]) as (i0 & i1 & i2 & ->).
      by do 3 rewrite noBrace_sextet.
  - split; [exact (IH1 c)|]. split; [exact (fun a => IH2 a c)|].
    intros a b.
    destruct (EncodeToString_shape (a :: b :: c :: src))
      as (i0 & i1 & i2 & i3 & ->).
    do 4 rewrite noBrace_sextet. exact IH0.
Qed.

Lemma isBrace_false c :
  isBrace c = false ->
  Ascii.eqb c "{"%char = false /\ Ascii.eqb c "}"%char = false.
Proof. unfold isBrace. by intros [? ?]%orb_false_iff. Qed.

(** Text without brace is one text node, and does not close an action. *)
Lemma parseTemplate_text (text cur : string) :
  noBrace text = true ->
  parseTemplate text false cur = OK (textNodes (cur +:+ text)).
Proof.
  revert cur. induction text as [|c r IH]; intros cur Hn.
  - simpl. by rewrite append_empty_r.
  - rewrite noBrace_String in Hn. apply andb_true_iff in Hn as [Hc Hr].
    apply negb_true_iff, isBrace_false in Hc as [Hc _]. cbn [parseTemplate].
    destruct r as [|d r'].
    + done.
    + rewrite Hc. cbn [andb]. rewrite IH by done. by rewrite append_assoc.
Qed.

Lemma parseTemplate_unclosed (text cur : string) :
  noBrace text = true -> isOK (parseTemplate text true cur) = false.
Proof.
  revert cur. induction text as [|c r IH]; intros cur Hn; [done|].
  rewrite noBrace_String in Hn. apply andb_true_iff in Hn as [Hc Hr].
  apply negb_true_iff, isBrace_false in Hc as [_ Hc]. cbn [parseTemplate].
  destruct r as [|d r']; [done|].
  rewrite Hc. cbn [andb]. by apply IH.
Qed.

Lemma isOK_bind {E A B} (r : result E A) (k k' : A -> result E B) :
  (forall a, isOK (k a) = isOK (k' a)) -> isOK (bind r k) = isOK (bind r k').
Proof. intros H. destruct r; simpl; [apply H|done]. Qed.

Lemma parseTemplate_step c d r inAction cur :
  parseTemplate (String c (String d r)) inAction cur
  = if inAction then
      if Ascii.eqb c "}"%char && Ascii.eqb d "}"%char then
        n <-! parseAction cur;
        rest <-! parseTemplate r false "";
        OK (n :: rest)
      else parseTemplate (String d r) true (cur +:+ String c "")
    else
      if Ascii.eqb c "{"%char && Ascii.eqb d "{"%char then
        rest <-! parseTemplate r true "";
        OK (textNodes cur ++ rest)
      else parseTemplate (String d r) false (cur +:+ String c "").
Proof. by destruct inAction. Qed.

(** A template followed by text without brace parses exactly when the
    template alone does. *)
Lemma parseTemplate_suffix (template text : string) :
  noBrace text = true ->
  forall inAction cur,
    isOK (parseTemplate (template +:+ text) inAction cur)
    = isOK (parseTemplate template inAction cur).
Proof.
  intros Hn.
  assert ((forall inAction cur,
              isOK (parseTemplate (template +:+ text) inAction cur)
              = isOK (parseTemplate template inAction cur))
          /\ (forall c inAction cur,
                isOK (parseTemplate (String c template +:+ text) inAction cur)
                = isOK (parseTemplate (String c template) inAction cur)))
    as [H _]; [|exact H].
  induction template as [|d template [IH0 IH1]].
  - assert (forall inAction cur,
               isOK (parseTemplate text inAction cur)
               = isOK (parseTemplate "" inAction cur)) as Hbase.
    { intros [] cur; simpl.
      - by apply parseTemplate_unclosed.
      - by rewrite parseTemplate_text. }
    split; [exact Hbase|].
    intros c inAction cur. simpl String.append.
    destruct text as [|e text']; [done|].
    pose proof Hn as Hn'. rewrite noBrace_String in Hn'.
    apply andb_true_iff in Hn' as [He _].
    apply negb_true_iff, isBrace_false in He as [He1 He2].
    rewrite parseTemplate_step, He1, He2, !andb_false_r.
    destruct inAction.
    + by apply parseTemplate_unclosed.
    + by rewrite parseTemplate_text.
  - split; [apply IH1|].
    intros c inAction cur. simpl String.append.
    rewrite !parseTemplate_step.
    destruct inAction.
    + destruct (Ascii.eqb c "}"%char && Ascii.eqb d "}"%char).
      * apply isOK_bind. intros n. unfold bind.
        specialize (IH0 false "").
        by destruct (parseTemplate (template +:+ text) false ""),
                    (parseTemplate template false "").
      * apply IH1.
    + destruct (Ascii.eqb c "{"%char && Ascii.eqb d "{"%char).
      * specialize (IH0 true ""). unfold bind.
        by destruct (parseTemplate (template +:+ text) true ""),
                    (parseTemplate template true "").
      * apply IH1.
Qed.

(** The document of a pull secret holds no brace: the credentials are in it
    in base64 only. *)
Lemma pull_secret_document_noBrace (W : World) keyFileLocation secret
      secretData :
  ImagePullSecret keyFileLocation = OK secret ->
  yamlSecret secret = OK secretData ->
  noBrace secretData = true.
Proof.
  intros Hs Hy.
  apply ImagePullSecret_OK_inv in Hs
    as (file & keyData & configJSON & _ & _ & _ & ->).
  unfold yamlSecret in Hy. cbn [Secret_Data Secret_APIVersion Secret_Kind
    Secret_Name Secret_Namespace Secret_Type] in Hy.
  rewrite map_to_list_singleton in Hy. injection Hy as <-.
  unfold yamlLine. cbn [fold_right fst snd].
  repeat (apply noBrace_cons; [reflexivity|]).
  rewrite !noBrace_append, EncodeToString_noBrace. reflexivity.
Qed.

(** C10, as amended.  [ApplyOperatorYAML] parses the installer, the document
    marker and the document of the pull secret together as one template
    before it substitutes the registry, and when the parsing or the execution
    fails it returns the error without calling [Apply].  The contents of the
    credentials file reach that stream in base64 only: the document of the
    pull secret holds no brace whatever the contents, and the stream parses
    exactly when the installer alone does. *)
Theorem operator_stream_is_one_template :
  (forall (API : OperatorAPI) (SV : Semver) (SORT : Sort) (ENC : Encoding)
          (W : World) applier options file buf secret secretData,
      (if String.eqb (Version options) "" then latestManifest
       else manifestVersion (Version options)) = OK file ->
      io_Copy file = OK buf ->
      ImagePullSecret (CredentialsLocation options) = OK secret ->
      yaml_Marshal_Secret secret = OK secretData ->
      ApplyOperatorYAML applier options
      = match template_Parse (buf +:+ documentMarker +:+ secretData) with
        | Fail err => returnErr (ErrOther err)
        | OK tpl =>
            match template_Execute tpl
                    {[ "ImageRegistry" := ImageRegistry options ]} with
            | Fail err => returnErr (ErrOther err)
            | OK output =>
                {| Applied := [output]; Returned := Apply applier output |}
            end
        end)
  /\ (forall (W : World) keyFileLocation secret secretData,
        ImagePullSecret keyFileLocation = OK secret ->
        yamlSecret secret = OK secretData ->
        noBrace secretData = true)
  /\ (forall buf secretData,
        noBrace secretData = true ->
        isOK (parseTemplate (buf +:+ documentMarker +:+ secretData) false "")
        = isOK (parseTemplate buf false "")).
Proof.
  split; [|split].
  - intros API SV SORT ENC W applier options file buf secret secretData
           Hfile Hcopy Hsecret Hyaml.
    unfold ApplyOperatorYAML.
    rewrite (renderOperatorYAML_stream options file buf secret secretData)
      by done.
    destruct (template_Parse _) as [tpl|]; [|done]. simpl.
    by destruct (template_Execute tpl _).
  - apply pull_secret_document_noBrace.
  - intros buf secretData Hn. apply parseTemplate_suffix.
    by rewrite noBrace_append, Hn.
Qed.

(** ** UTF-8 and JSON strings *)

Lemma byte_high (c : ascii) :
  (byte c <? 128)%N = false ->
  (byte c =? 34)%N = false /\ (byte c =? 92)%N = false
  /\ (byte c <? 32)%N = false.
Proof.
  rewrite N.ltb_ge. intros H.
  repeat split; [apply N.eqb_neq|apply N.eqb_neq|apply N.ltb_ge]; lia.
Qed.

Lemma sequenceLength_2 b0 b1 rest :
  sequenceLength (b0 :: b1 :: rest) = 2%nat ->
  forall tail, sequenceLength (b0 :: b1 :: tail) = 2%nat.
Proof.
  unfold sequenceLength. intros H tail.
  destruct (inRange 194 223 b0).
  - by destruct (inRange 128 191 b1).
  - destruct rest as [|b2 [|b3 rest]];
      repeat match type of H with
             | context [if ?b then _ else _] => destruct b
             end; discriminate H.
Qed.

Lemma sequenceLength_3 b0 b1 b2 rest :
  sequenceLength (b0 :: b1 :: b2 :: rest) = 3%nat ->
  forall tail, sequenceLength (b0 :: b1 :: b2 :: tail) = 3%nat.
Proof.
  unfold sequenceLength. intros H tail.
  destruct (inRange 194 223 b0).
  - by destruct (inRange 128 191 b1).
  - destruct (inRange 224 239 b0).
    + by destruct (_ && _).
    + destruct rest; [discriminate H|].
      by destruct (_ && _ && _ && _).
Qed.

Lemma sequenceLength_4 b0 b1 b2 b3 rest :
  sequenceLength (b0 :: b1 :: b2 :: b3 :: rest) = 4%nat ->
  forall tail, sequenceLength (b0 :: b1 :: b2 :: b3 :: tail) = 4%nat.
Proof.
  unfold sequenceLength. intros H tail.
  destruct (inRange 194 223 b0).
  - by destruct (inRange 128 191 b1).
  - destruct (inRange 224 239 b0).
    + by destruct (_ && _).
    + by destruct (_ && _ && _ && _).
Qed.

(** One step of [runes]: a single byte, or a well-formed sequence. *)
Lemma runes_step (b0 : ascii) (rest : list ascii) :
  runes (b0 :: rest) = [b0] :: runes rest
  \/ exists rune rest',
      b0 :: rest = rune ++ rest' /\ sequence rune
      /\ runes (b0 :: rest) = rune :: runes rest'.
Proof.
  cbn [runes]. destruct (byte b0 <? 128)%N eqn:Hb; [by left|].
  destruct (sequenceLength (b0 :: rest)) as [|[|[|[|[|n]]]]] eqn:Hlen;
    try (by left); try (left; by destruct rest as [|? [|? [|? ?]]]).
  - destruct rest as [|b1 rest1]; [by left|]. right.
    exists [b0; b1], rest1. split; [done|]. split; [|done].
    split; [simpl; lia|]. split; [by exists b0, [b1]|].
    intros tail. by apply (sequenceLength_2 b0 b1 rest1).
  - destruct rest as [|b1 [|b2 rest2]]; [by left..|]. right.
    exists [b0; b1; b2], rest2. split; [done|]. split; [|done].
    split; [simpl; lia|]. split; [by exists b0, [b1; b2]|].
    intros tail. by apply (sequenceLength_3 b0 b1 b2 rest2).
  - destruct rest as [|b1 [|b2 [|b3 rest3]]]; [by left..|]. right.
    exists [b0; b1; b2; b3], rest3. split; [done|]. split; [|done].
    split; [simpl; lia|]. split; [by exists b0, [b1; b2; b3]|].
    intros tail. by apply (sequenceLength_4 b0 b1 b2 b3 rest3).
Qed.

(** Induction along [runes]. *)
Lemma runes_ind (P : list ascii -> Prop) :
  P [] ->
  (forall c rest,
      runes (c :: rest) = [c] :: runes rest -> P rest -> P (c :: rest)) ->
  (forall rune rest,
      sequence rune -> runes (rune ++ rest) = rune :: runes rest ->
      P rest -> P (rune ++ rest)) ->
  forall src, P src.
Proof.
  intros Hnil Hbyte Hseq src.
  remember (List.length src) as n eqn:Hn. revert src Hn.
  induction n as [n IH] using lt_wf_ind. intros [|b0 rest] Hn; [done|].
  destruct (runes_step b0 rest) as [Hstep|(rune & rest' & Heq & Hrune & Hstep)].
  - apply Hbyte; [done|]. apply (IH (List.length rest)); [|done].
    subst n. simpl. lia.
  - rewrite Heq. apply Hseq; [done|by rewrite <- Heq|].
    apply (IH (List.length rest')); [|done].
    subst n. apply (f_equal (@List.length _)) in Heq.
    rewrite length_app in Heq. destruct Hrune as [Hlen _].
    simpl in Heq |- *. lia.
Qed.

Lemma lex_escapeRune_byte (c : ascii) (tail : list ascii) :
  lex true (chars (escapeRune [c]) ++ tail)
  = push (coerceRune [c]) (lex true tail).
Proof.
  destruct c as [[] [] [] [] [] [] [] []]; reflexivity.
Qed.

(** Reading at a byte of 0x80 or more. *)
Lemma lex_high (c : ascii) (rest : list ascii) :
  (byte c <? 128)%N = false ->
  lex true (c :: rest)
  = match sequenceLength (c :: rest), rest with
    | 2%nat, b1 :: rest1 => push [c; b1] (lex true rest1)
    | 3%nat, b1 :: b2 :: rest2 => push [c; b1; b2] (lex true rest2)
    | 4%nat, b1 :: b2 :: b3 :: rest3 => push [c; b1; b2; b3] (lex true rest3)
    | _, _ => push replacement (lex true rest)
    end.
Proof.
  intros Hc. destruct (byte_high c Hc) as (Hq & Hb & Hl).
  cbn [lex]. by rewrite Hq, Hb, Hl, Hc.
Qed.

Lemma byte_eq (c : ascii) (n : N) : (byte c =? n)%N = true -> c = ascii_of_N n.
Proof.
  intros H. apply N.eqb_eq in H. rewrite <- H. unfold byte.
  by rewrite ascii_N_embedding.
Qed.

Lemma lex_escapeRune_sequence (rune tail : list ascii) :
  sequence rune ->
  lex true (chars (escapeRune rune) ++ tail) = push rune (lex true tail).
Proof.
  intros (Hlen & (b & more & Hb0 & Hb) & Hseq).
  destruct rune as [|b0 [|b1 [|b2 [|b3 [|b4 rune]]]]];
    simpl in Hlen; try lia; injection Hb0 as <- _.
  - unfold escapeRune, str. cbn [string_of_list_ascii chars list_ascii_of_string app].
    rewrite lex_high by done. specialize (Hseq tail). cbn [app] in Hseq.
    by rewrite Hseq.
  - unfold escapeRune.
    destruct (_ && _ && _)%N eqn:Hsep.
    + apply andb_true_iff in Hsep as [Hsep H2].
      apply andb_true_iff in Hsep as [H0 H1].
      apply byte_eq in H0, H1. subst b0 b1.
      apply orb_true_iff in H2 as [H2|H2]; apply byte_eq in H2; subst b2;
        reflexivity.
    + unfold str. cbn [string_of_list_ascii chars list_ascii_of_string app].
      rewrite lex_high by done. specialize (Hseq tail). cbn [app] in Hseq.
      by rewrite Hseq.
  - unfold escapeRune, str. cbn [string_of_list_ascii chars list_ascii_of_string app].
    rewrite lex_high by done. specialize (Hseq tail). cbn [app] in Hseq.
    by rewrite Hseq.
Qed.

Lemma coerceRune_sequence (rune : list ascii) :
  sequence rune -> coerceRune rune = rune.
Proof.
  intros ([Hlen _] & _). unfold coerceRune, validRune.
  destruct rune as [|b0 [|b1 rune]]; simpl in Hlen; try lia; done.
Qed.

(** Reading what [json.Marshal] wrote for a string gives the string with
    the bytes that are in no well-formed sequence replaced. *)
Lemma lex_escapeRunes (src tail : list ascii) :
  lex true (chars (escapeRunes (runes src)) ++ ascii_of_nat 34 :: tail)
  = match lex false tail with
    | Some (_, tokens) =>
        Some (List.concat (List.map coerceRune (runes src)), tokens)
    | None => None
    end.
Proof.
  induction src as [|c rest Hstep IH|rune rest Hrune Hstep IH] using runes_ind.
  - cbn [runes escapeRunes fold_right chars list_ascii_of_string app lex].
    change (byte (ascii_of_nat 34) =? 34)%N with true. cbv iota.
    by destruct (lex false tail) as [[? ?]|].
  - rewrite Hstep. cbn [escapeRunes fold_right List.map List.concat].
    fold (escapeRunes (runes rest)).
    rewrite chars_append, <- app_assoc, lex_escapeRune_byte, IH.
    by destruct (lex false tail) as [[? ?]|].
  - rewrite Hstep. cbn [escapeRunes fold_right List.map List.concat].
    fold (escapeRunes (runes rest)).
    rewrite chars_append, <- app_assoc, lex_escapeRune_sequence, IH by done.
    rewrite coerceRune_sequence by done.
    by destruct (lex false tail) as [[? ?]|].
Qed.

Lemma lex_jsonString (s : string) (tail : list ascii) :
  lex false (chars (jsonString s) ++ tail)
  = match lex false tail with
    | Some (_, tokens) => Some ([], TokenString (toValidUTF8 s) :: tokens)
    | None => None
    end.
Proof.
  unfold jsonString, quote.
  rewrite !chars_append, <- !app_assoc.
  cbn [chars list_ascii_of_string app lex].
  change (byte (ascii_of_nat 34) =? 34)%N with true. cbv iota.
  rewrite lex_escapeRunes.
  by destruct (lex false tail) as [[? ?]|].
Qed.

Lemma validRune_sequence (rune : list ascii) :
  sequence rune -> validRune rune = true.
Proof.
  intros ([Hlen _] & _). unfold validRune.
  destruct rune as [|b0 [|b1 rune]]; simpl in Hlen; try lia; done.
Qed.

Lemma coerced_valid (src : list ascii) :
  forallb validRune (runes src) = true ->
  List.concat (List.map coerceRune (runes src)) = src.
Proof.
  induction src as [|c rest Hstep IH|rune rest Hrune Hstep IH] using runes_ind;
    [done| |]; rewrite Hstep; cbn [forallb List.map List.concat];
    intros [Hv Hrest]%andb_true_iff; rewrite IH by done.
  - unfold coerceRune. by rewrite Hv.
  - by rewrite coerceRune_sequence.
Qed.

Lemma coerced_length (src : list ascii) :
  (List.length src <= List.length (List.concat (List.map coerceRune (runes src))))%nat.
Proof.
  induction src as [|c rest Hstep IH|rune rest Hrune Hstep IH] using runes_ind;
    [done| |]; rewrite Hstep; cbn [List.map List.concat];
    rewrite length_app.
  - unfold coerceRune at 1. destruct (validRune [c]); simpl; lia.
  - rewrite coerceRune_sequence, length_app by done. lia.
Qed.

Lemma coerced_invalid (src : list ascii) :
  forallb validRune (runes src) = false ->
  (List.length src < List.length (List.concat (List.map coerceRune (runes src))))%nat.
Proof.
  induction src as [|c rest Hstep IH|rune rest Hrune Hstep IH] using runes_ind;
    [done| |]; rewrite Hstep; cbn [forallb List.map List.concat];
    rewrite length_app.
  - pose proof (coerced_length rest) as Hle.
    unfold coerceRune at 1. destruct (validRune [c]); simpl.
    + intros Hrest. specialize (IH Hrest). lia.
    + intros _. lia.
  - rewrite validRune_sequence, coerceRune_sequence, length_app by done.
    simpl. intros Hrest. specialize (IH Hrest). lia.
Qed.

Lemma str_chars (s : string) : str (chars s) = s.
Proof. apply string_of_list_ascii_of_string. Qed.

Lemma chars_str (l : list ascii) : chars (str l) = l.
Proof. apply list_ascii_of_string_of_list_ascii. Qed.

(** The replacement changes a string exactly when the string is not valid
    UTF-8. *)
Lemma toValidUTF8_fixes (s : string) :
  toValidUTF8 s = s <-> utf8_ValidString s = true.
Proof.
  unfold toValidUTF8, utf8_ValidString. split.
  - intros Heq. destruct (forallb validRune (runes (chars s))) eqn:Hv; [done|].
    apply coerced_invalid in Hv.
    apply (f_equal chars) in Heq. rewrite chars_str in Heq.
    rewrite Heq in Hv. lia.
  - intros Hv. by rewrite coerced_valid, str_chars.
Qed.

(** A string of bytes below 0x80 is valid UTF-8. *)
Lemma ascii_ValidString (s : string) :
  forallb (fun c => (byte c <? 128)%N) (chars s) = true ->
  utf8_ValidString s = true.
Proof.
  unfold utf8_ValidString. induction (chars s) as [|c rest IH]; [done|].
  cbn [forallb runes]. intros [Hc Hrest]%andb_true_iff.
  rewrite Hc. cbn [forallb validRune]. by rewrite Hc, IH.
Qed.

(** ** The docker config, written and read back *)

Lemma lex_string (s : string) (tail : list ascii) :
  lex false (chars (jsonString s) ++ tail)
  = prepend (TokenString (toValidUTF8 s)) (lex false tail).
Proof. apply lex_jsonString. Qed.

Lemma lex_punctuation (c : ascii) (t : token) (tail : list ascii) :
  punctuation c = Some t ->
  lex false (c :: tail) = prepend t (lex false tail).
Proof.
  intros Hp. cbn [lex]. unfold punctuation in *.
  destruct (byte c =? 34)%N eqn:Hq.
  { apply N.eqb_eq in Hq. rewrite Hq in Hp. discriminate Hp. }
  destruct (isSpace c) eqn:Hs.
  { unfold isSpace in Hs.
    repeat (apply orb_true_iff in Hs as [Hs|Hs]);
      apply N.eqb_eq in Hs; rewrite Hs in Hp; discriminate Hp. }
  by rewrite Hp.
Qed.

Lemma EncodeToString_forallb (P : ascii -> bool) (src : list ascii) :
  (forall i, P (sextet i) = true) -> P "="%char = true ->
  forallb P (chars (EncodeToString src)) = true.
Proof.
  intros Hsextet Hpad.
  assert (forallb P (chars (EncodeToString src)) = true
          /\ (forall a, forallb P (chars (EncodeToString (a :: src))) = true)
          /\ (forall a b,
                 forallb P (chars (EncodeToString (a :: b :: src))) = true))
    as [H _]; [|exact H].
  induction src as [|c src (IH0 & IH1 & IH2)].
  - split; [reflexivity|]. split.
    + intros a. destruct (EncodeToString_shape [a]) as (i0 & i1 & ->).
      cbn [chars list_ascii_of_string forallb]. by rewrite !Hsextet, Hpad.
    + intros a b. destruct (EncodeToString_shape [a; b]) as (i0 & i1 & i2 & ->).
      cbn [chars list_ascii_of_string forallb]. by rewrite !Hsextet, Hpad.
  - split; [exact (IH1 c)|]. split; [exact (fun a => IH2 a c)|].
    intros a b.
    destruct (EncodeToString_shape (a :: b :: c :: src))
      as (i0 & i1 & i2 & i3 & ->).
    cbn [chars list_ascii_of_string forallb].
    rewrite !Hsextet. exact IH0.
Qed.

Lemma sextet_ascii (i : N) : (byte (sextet i) <? 128)%N = true.
Proof.
  unfold sextet. destruct (String.get (N.to_nat i) encodeStd) as [c|] eqn:Hc;
    [|reflexivity].
  apply get_In in Hc.
  assert (forallb (fun c => (byte c <? 128)%N) (chars encodeStd) = true)
    as Hall by reflexivity.
  rewrite forallb_forall in Hall. by apply Hall.
Qed.

(** Base64 text is valid UTF-8. *)
Lemma toValidUTF8_EncodeToString (src : list ascii) :
  toValidUTF8 (EncodeToString src) = EncodeToString src.
Proof.
  apply toValidUTF8_fixes, ascii_ValidString, EncodeToString_forallb;
    [apply sextet_ascii|reflexivity].
Qed.

(** The docker config of a key file, as [json.Marshal] writes it and
    [json.Unmarshal] reads it back: the password is the contents of the key
    file with the bytes that are in no well-formed sequence replaced. *)
Lemma json_Unmarshal_dockerConfig (keyData : string) :
  json_Unmarshal (jsonDocument (dockerConfig keyData))
  = Some {| ConfigJSON_Auths :=
              {[ "eu.gcr.io" :=
                   {| ConfigEntry_Username := "_json_key";
                      ConfigEntry_Password := toValidUTF8 keyData;
                      ConfigEntry_Email := "auth@jetstack.io";
                      ConfigEntry_Auth :=
                        EncodeToString (chars ("_json_key:" +:+ keyData)) |} ]} |}.
Proof.
  unfold jsonDocument, dockerConfig. cbn [ConfigJSON_Auths].
  rewrite map_to_list_singleton.
  unfold json_Unmarshal.
  set (auth := EncodeToString _).
  unfold jsonEntry, jsonObject, jsonField.
  cbn [List.map fst snd commaSeparated
       ConfigEntry_Username ConfigEntry_Password ConfigEntry_Email
       ConfigEntry_Auth].
  unfold jsonObject, jsonField. cbn [commaSeparated].
  rewrite !chars_append, <- ?app_assoc.
  change (chars "{") with ["{"%char]. change (chars "}") with ["}"%char].
  change (chars ":") with [":"%char]. change (chars ",") with [","%char].
  cbn [app].
  repeat first
    [ rewrite lex_string
    | rewrite (lex_punctuation "{" TokenOpen) by reflexivity
    | rewrite (lex_punctuation "}" TokenClose) by reflexivity
    | rewrite (lex_punctuation ":" TokenColon) by reflexivity
    | rewrite (lex_punctuation "," TokenComma) by reflexivity ].
  subst auth. rewrite toValidUTF8_EncodeToString.
  reflexivity.
Qed.

Section PullSecretProofs.
Context `{API : OperatorAPI} `{ENC : !Encoding} `{W : World}.

(** C6, as amended.  For a key file that opens and reads, with
    [encoding/json] as the encoder, [ImagePullSecret] returns the secret
    named [jse-gcr-creds] in the namespace [jetstack-secure], of type
    [kubernetes.io/dockerconfigjson], whose only data entry is a JSON
    document that reads back as a docker config with the single registry
    [eu.gcr.io]: the user name is [_json_key], the [auth] is the base64 of
    [_json_key:] followed by the contents of the file, which decodes to that
    text, and the password is the contents of the file with every byte that
    is in no well-formed UTF-8 sequence replaced by U+FFFD.  The password is
    the contents of the file exactly when they are valid UTF-8. *)
Theorem image_pull_secret_contents keyFileLocation file keyData :
  (forall config, json_Marshal config = jsonConfig config) ->
  os_Open keyFileLocation = OK file ->
  ioutil_ReadAll file = OK keyData ->
  exists secret configJSON,
    ImagePullSecret keyFileLocation = OK secret
    /\ Secret_Name secret = "jse-gcr-creds"
    /\ Secret_Namespace secret = "jetstack-secure"
    /\ Secret_Type secret = "kubernetes.io/dockerconfigjson"
    /\ Secret_Data secret = {[ ".dockerconfigjson" := configJSON ]}
    /\ json_Unmarshal configJSON
       = Some {| ConfigJSON_Auths :=
                   {[ "eu.gcr.io" :=
                        {| ConfigEntry_Username := "_json_key";
                           ConfigEntry_Password := toValidUTF8 keyData;
                           ConfigEntry_Email := "auth@jetstack.io";
                           ConfigEntry_Auth :=
                             EncodeToString
                               (chars ("_json_key:" +:+ keyData)) |} ]} |}
    /\ (toValidUTF8 keyData = keyData <-> utf8_ValidString keyData = true)
    /\ DecodeString
         (chars (EncodeToString (chars ("_json_key:" +:+ keyData))))
       = Some (chars ("_json_key:" +:+ keyData)).
Proof.
  intros Hjson Hopen Hread.
  exists {| Secret_APIVersion := corev1_SchemeGroupVersion;
            Secret_Kind := "Secret";
            Secret_Name := "jse-gcr-creds";
            Secret_Namespace := "jetstack-secure";
            Secret_Type := corev1_SecretTypeDockerConfigJson;
            Secret_Data :=
              {[ corev1_DockerConfigJsonKey
                 := jsonDocument (dockerConfig keyData) ]} |},
         (jsonDocument (dockerConfig keyData)).
  split.
  { unfold ImagePullSecret. rewrite Hopen, Hread. cbn [lift wrap bind].
    rewrite Hjson. unfold jsonConfig. cbn [lift wrap bind]. reflexivity. }
  repeat (split; [reflexivity|]).
  split; [apply json_Unmarshal_dockerConfig|].
  split; [apply toValidUTF8_fixes|].
  apply DecodeString_EncodeToString.
Qed.

End PullSecretProofs.

(** ** The examples

    The theorems at the reference instance: each is applied to a concrete
    input on which its hypotheses hold.  The sort of the examples is the
    insertion sort. *)

#[global] Instance insertionSorter : Sort := {|
  sort_Slice := @insertionSort;
  sort_Slice_Permutation := @insertionSort_Permutation;
  sort_Slice_ascending :=
    fun A less data less_asym not_less_trans =>
      insertionSort_ascending less less_asym not_less_trans data
|}.

Lemma csi_drivers_set_iff_flag_witness :
  exists mf,
    buildManifests (W := world "ABC123") (installationOptions ["edge"]) = OK mf
    /\ (Spec_CSIDrivers (Installation_Spec (installation mf)) = None
        <-> true = false /\ false = false)
    /\ forall drivers,
        Spec_CSIDrivers (Installation_Spec (installation mf)) = Some drivers ->
        CSIDrivers_CertManager drivers = Some Build_CSIDriverCertManager
        /\ CSIDrivers_CertManagerSpiffe drivers = None.
Proof.
  eexists. split; [vm_compute; reflexivity|].
  apply (csi_drivers_set_iff_flag (W := world "ABC123")
           (installationOptions ["edge"])).
  vm_compute. reflexivity.
Defined.

Lemma entry_of_world (keyData : string) (entry : DirEntry) :
  entry ∈ installers (World := world keyData) ->
  DirEntry_Name entry = "v1.10.0.yaml" \/ DirEntry_Name entry = "v1.2.0.yaml"
  \/ DirEntry_Name entry = "v1.9.3.yaml".
Proof.
  simpl. rewrite !elem_of_cons, elem_of_nil.
  intros [->|[->|[->|[]]]]; auto.
Qed.

Lemma operator_version_selection_witness :
  Applied (ApplyOperatorYAML (W := world "ABC123") recordingApplier
             (operatorOptions ""))
  = Applied (ApplyOperatorYAML (W := world "ABC123") recordingApplier
               (operatorOptions "v1.10.0"))
  /\ ApplyOperatorYAML (W := world "ABC123") recordingApplier
       (operatorOptions "v9.9.9")
     = returnErr ErrNoManifest
  /\ ApplyOperatorYAML (W := emptyWorld) recordingApplier
       (operatorOptions "old.yaml/other")
     = returnErr ErrNoManifest
  /\ ApplyOperatorYAML (W := emptyWorld) recordingApplier
       (operatorOptions "old.yaml/inner")
     <> returnErr ErrNoManifest.
Proof.
  destruct (operator_version_selection (W := world "ABC123") recordingApplier
              "registry.example.com" "key.json") as (Hlatest & _ & Hmissing).
  destruct (operator_version_selection (W := emptyWorld) recordingApplier
              "registry.example.com" "key.json") as (_ & Hpath & _).
  split; [|split; [|split]].
  - apply (Hlatest ["v1.2.0"; "v1.9.3"; "v1.10.0"] "v1.10.0");
      vm_compute; reflexivity.
  - apply (Hmissing "v9.9.9"); [done|reflexivity|].
    intros entry Hin Heq.
    destruct (entry_of_world _ _ Hin) as [H|[H|H]]; rewrite H in Heq;
      discriminate Heq.
  - apply (Hpath "old.yaml/other"); [done|]. split.
    + intros entry Hin Heq. apply list_elem_of_singleton in Hin.
      rewrite Hin in Heq. vm_compute in Heq. discriminate Heq.
    + intros dir rest entry Hin Heq. apply list_elem_of_singleton in Hin.
      injection Hin as -> -> _. vm_compute in Heq. discriminate Heq.
  - intros Hfail. apply (Hpath "old.yaml/inner") in Hfail as [_ Hbelow];
      [|done].
    apply (Hbelow "old.yaml" "inner.yaml" (installer "inner"));
      [by left|vm_compute; reflexivity].
Defined.

(** A [Version] with a separator reaches the installer below an embedded
    directory, which is then applied. *)
Example nested_installer_is_opened :
  manifestVersion (W := emptyWorld) "old.yaml/inner" = OK (installer "inner")
  /\ Returned (ApplyOperatorYAML (W := emptyWorld) recordingApplier
                 (operatorOptions "old.yaml/inner")) = None.
Proof. split; vm_compute; reflexivity. Qed.

(** C2 as it is written fails: [./v1.2.0] is not a version of the catalog,
    and no embedded file has the name [./v1.2.0.yaml], yet the path is
    cleaned to that of the installer [v1.2.0.yaml], which is applied; and the
    empty [Version], which is no version of the catalog either, selects the
    latest installer instead of failing. *)
Lemma version_outside_catalog_accepted :
  Versions (W := world "ABC123") = OK ["v1.2.0"; "v1.9.3"; "v1.10.0"]
  /\ ("./v1.2.0" ∉ ["v1.2.0"; "v1.9.3"; "v1.10.0"])
  /\ List.map DirEntry_Name (installers (World := world "ABC123"))
     = ["v1.10.0.yaml"; "v1.2.0.yaml"; "v1.9.3.yaml"]
  /\ Returned (ApplyOperatorYAML (W := world "ABC123") recordingApplier
                 (operatorOptions "./v1.2.0")) = None
  /\ ApplyOperatorYAML (W := world "ABC123") recordingApplier
       (operatorOptions "./v1.2.0")
     = ApplyOperatorYAML (W := world "ABC123") recordingApplier
         (operatorOptions "v1.2.0")
  /\ Returned (ApplyOperatorYAML (W := world "ABC123") recordingApplier
                 (operatorOptions "")) = None.
Proof.
  split; [vm_compute; reflexivity|].
  split; [rewrite !elem_of_cons, elem_of_nil; intros [H|[H|[H|[]]]]; discriminate H|].
  repeat split; vm_compute; reflexivity.
Qed.

Lemma steps_commute_given_secret_order_witness :
  runSteps (W := world "ABC123") (installationOptions ["edge"; "core"])
    [StepCSIDrivers; StepImagePullSecret; StepIstioCSR; StepVenafiIssuers;
     StepVenafiOauthHelper; StepCertManagerVersion]
    (skeleton (installationOptions ["edge"; "core"]))
  = buildManifests (W := world "ABC123") (installationOptions ["edge"; "core"]).
Proof.
  apply (steps_commute_given_secret_order (W := world "ABC123")).
  - unfold implementedOrder. solve_Permutation.
  - reflexivity.
Defined.

(** C3 as it is written fails: with a credentials path and an issuer
    template, expanding the issuers before collecting the pull secret puts
    the secret of the issuer first in the list of secrets, and the order of
    the source puts the pull secret first. *)
Lemma secret_steps_do_not_commute :
  issuersFirst ≡ₚ implementedOrder
  /\ secretNames
       (runSteps (W := world "ABC123") (installationOptions ["edge"])
          issuersFirst (skeleton (installationOptions ["edge"])))
     = ["edge"; "jse-gcr-creds"]
  /\ secretNames
       (buildManifests (W := world "ABC123") (installationOptions ["edge"]))
     = ["jse-gcr-creds"; "edge"]
  /\ runSteps (W := world "ABC123") (installationOptions ["edge"])
       issuersFirst (skeleton (installationOptions ["edge"]))
     <> buildManifests (W := world "ABC123") (installationOptions ["edge"]).
Proof.
  split; [unfold issuersFirst, implementedOrder; solve_Permutation|].
  split; [vm_compute; reflexivity|]. split; [vm_compute; reflexivity|].
  intros H. apply (f_equal secretNames) in H. vm_compute in H. discriminate H.
Qed.

Lemma apply_installation_is_atomic_witness :
  Applied (ApplyInstallationYAML (W := world "ABC123") recordingApplier
             (installationOptions ["edge"; ""])) = []
  /\ is_Some (Returned (ApplyInstallationYAML (W := world "ABC123")
                          recordingApplier (installationOptions ["edge"; ""]))).
Proof.
  destruct (apply_installation_is_atomic (W := world "ABC123") recordingApplier
              (installationOptions ["edge"; ""])) as (_ & _ & _ & Hissuer & _).
  apply (Hissuer "" (ErrOther (Generic "issuer has no name"))).
  - simpl. right. left.
  - reflexivity.
Defined.

Lemma versions_sorted_or_parse_error_witness :
  exists sorted,
    Versions (W := world "ABC123")
    = OK (List.map (fun p => "v" +:+ Version_String p) sorted)
    /\ sorted ≡ₚ [(1, 10, 0); (1, 2, 0); (1, 9, 3)]%N
    /\ ascending LessThan sorted.
Proof.
  apply (proj1 (versions_sorted_or_parse_error (SV := semver)
                  (W := world "ABC123")
                  releaseLess_asym releaseLess_not_trans)).
  repeat constructor.
Defined.

(** The example of the specification: [1.2.0.yaml] and [1.10.0.yaml] give
    [v1.2.0] before [v1.10.0]. *)
Example versions_semantic_order :
  Versions (W := worldOf [ {| DirEntry_Name := "1.10.0.yaml";
                              DirEntry_IsDir := false; DirEntry_Data := "" |};
                           {| DirEntry_Name := "1.2.0.yaml";
                              DirEntry_IsDir := false; DirEntry_Data := "" |} ]
                         "")
  = OK ["v1.2.0"; "v1.10.0"].
Proof. vm_compute. reflexivity. Qed.

Lemma image_pull_secret_contents_witness :
  exists secret configJSON,
    ImagePullSecret (W := world "ABC123") "key.json" = OK secret
    /\ Secret_Name secret = "jse-gcr-creds"
    /\ Secret_Namespace secret = "jetstack-secure"
    /\ Secret_Type secret = "kubernetes.io/dockerconfigjson"
    /\ Secret_Data secret = {[ ".dockerconfigjson" := configJSON ]}
    /\ json_Unmarshal configJSON
       = Some {| ConfigJSON_Auths :=
                   {[ "eu.gcr.io" :=
                        {| ConfigEntry_Username := "_json_key";
                           ConfigEntry_Password := toValidUTF8 "ABC123";
                           ConfigEntry_Email := "auth@jetstack.io";
                           ConfigEntry_Auth :=
                             EncodeToString
                               (chars ("_json_key:" +:+ "ABC123")) |} ]} |}
    /\ (toValidUTF8 "ABC123" = "ABC123" <-> utf8_ValidString "ABC123" = true)
    /\ DecodeString
         (chars (EncodeToString (chars ("_json_key:" +:+ "ABC123"))))
       = Some (chars ("_json_key:" +:+ "ABC123")).
Proof.
  apply (image_pull_secret_contents (W := world "ABC123") "key.json"
           {| ioutil_ReadAll := OK "ABC123" |} "ABC123").
  - reflexivity.
  - reflexivity.
  - reflexivity.
Defined.

(** The example of the specification: the password and the [auth] that the
    secret of the key file [ABC123] reads back as. *)
Example pull_secret_of_ABC123 :
  toValidUTF8 "ABC123" = "ABC123"
  /\ EncodeToString (chars ("_json_key:" +:+ "ABC123"))
     = "X2pzb25fa2V5OkFCQzEyMw=="
  /\ DecodeString (chars "X2pzb25fa2V5OkFCQzEyMw==")
     = Some (chars "_json_key:ABC123").
Proof. repeat split; vm_compute; reflexivity. Qed.

(** C6 as it is written fails: a key file that holds the three bytes
    [ff 00 fe] is readable, and the docker config of the secret that
    [ImagePullSecret] returns for it has a password of seven bytes, U+FFFD,
    the zero byte and U+FFFD, which is not the contents of the file:
    [encoding/json] writes a byte that is in no well-formed UTF-8 sequence
    as the escape of U+FFFD.  The [auth] still decodes to the contents. *)
Lemma invalid_key_bytes_are_replaced :
  exists secret configJSON config entry,
    os_Open (World := world invalidKey) "key.json"
    = OK {| ioutil_ReadAll := OK invalidKey |}
    /\ ImagePullSecret (W := world invalidKey) "key.json" = OK secret
    /\ Secret_Data secret = {[ ".dockerconfigjson" := configJSON ]}
    /\ json_Unmarshal configJSON = Some config
    /\ ConfigJSON_Auths config = {[ "eu.gcr.io" := entry ]}
    /\ ConfigEntry_Password entry
       = str (replacement ++ [ascii_of_N 0] ++ replacement)
    /\ ConfigEntry_Password entry <> invalidKey
    /\ jsonString invalidKey
       = quote +:+ backslash +:+ "ufffd" +:+ backslash +:+ "u0000"
         +:+ backslash +:+ "ufffd" +:+ quote
    /\ DecodeString (chars (ConfigEntry_Auth entry))
       = Some (chars ("_json_key:" +:+ invalidKey)).
Proof.
  do 4 eexists.
  split; [reflexivity|].
  split; [vm_compute; reflexivity|].
  split; [reflexivity|].
  split; [vm_compute; reflexivity|].
  split; [reflexivity|].
  split; [vm_compute; reflexivity|].
  split; [intros H; vm_compute in H; discriminate H|].
  split; vm_compute; reflexivity.
Qed.

Lemma status_reports_components_witness :
  exists statuses,
    Status (clientReturning (OK (installationWith exampleConditions)))
    = (Some statuses, None)
    /\ statuses ≡ₚ omap statusOf exampleConditions.
Proof.
  destruct (status_reports_components
              (clientReturning (OK (installationWith exampleConditions)))
              (installationWith exampleConditions) eq_refl)
    as (statuses & Hs & Hp & _).
  by exists statuses.
Defined.

(** The example of the specification: the unknown type is dropped, the
    ready entry has no message. *)
Example status_of_example_conditions :
  Status (clientReturning (OK (installationWith exampleConditions)))
  = (Some [ {| ComponentStatus_Name := "cert-manager";
               ComponentStatus_Ready := true;
               ComponentStatus_Message := "" |};
            {| ComponentStatus_Name := "istio-csr";
               ComponentStatus_Ready := false;
               ComponentStatus_Message := "pending" |} ],
     None).
Proof. vm_compute. reflexivity. Qed.

Lemma status_fetch_errors_witness :
  snd (Status (clientReturning (Fail (StatusNotFound "installation not found"))))
  = Some ErrNoInstallation
  /\ Status (clientReturning (Fail (Generic "connection refused")))
     = (None, Some (ErrOther (Generic "connection refused"))).
Proof.
  split.
  - apply (proj1 (status_fetch_errors
                    (clientReturning
                       (Fail (StatusNotFound "installation not found"))))).
    eexists. split; reflexivity.
  - apply (proj1 (proj2 (status_fetch_errors
                           (clientReturning
                              (Fail (Generic "connection refused")))))).
    + reflexivity.
    + reflexivity.
Defined.

Lemma registry_host_is_fixed_witness :
  exists secret,
    ImagePullSecret (W := world "ABC123") "key.json" = OK secret
    /\ exists config configJSON entry,
        Secret_Data secret = {[ ".dockerconfigjson" := configJSON ]}
        /\ json_Marshal config = OK configJSON
        /\ ConfigJSON_Auths config = {[ "eu.gcr.io" := entry ]}
        /\ size (ConfigJSON_Auths config) = 1
        /\ ConfigEntry_Email entry = "auth@jetstack.io".
Proof.
  eexists. split; [vm_compute; reflexivity|].
  apply (proj1 (registry_host_is_fixed (SV := semver) (W := world "ABC123")
                  (VEN := venafi)) "key.json").
  vm_compute. reflexivity.
Defined.

Lemma operator_stream_is_one_template_witness :
  ApplyOperatorYAML (W := world "ABC123") recordingApplier
    (operatorOptions "v1.2.0")
  = {| Applied :=
         [ "# operator v1.2.0" +:+ newline
           +:+ "image: registry.example.com/js-operator:v1.2.0" +:+ newline
           +:+ documentMarker
           +:+ "apiVersion: v1" +:+ newline
           +:+ "data:" +:+ newline
           +:+ "  .dockerconfigjson: eyJhdXRocyI6eyJldS5nY3IuaW8iOnsidXNlcm5hbWUiOiJfanNvbl9rZXkiLCJwYXNzd29yZCI6IkFCQzEyMyIsImVtYWlsIjoiYXV0aEBqZXRzdGFjay5pbyIsImF1dGgiOiJYMnB6YjI1ZmEyVjVPa0ZDUXpFeU13PT0ifX19"
           +:+ newline
           +:+ "kind: Secret" +:+ newline
           +:+ "metadata:" +:+ newline
           +:+ "  creationTimestamp: null" +:+ newline
           +:+ "  name: jse-gcr-creds" +:+ newline
           +:+ "  namespace: jetstack-secure" +:+ newline
           +:+ "type: kubernetes.io/dockerconfigjson" +:+ newline ];
       Returned := None |}.
Proof.
  erewrite (proj1 operator_stream_is_one_template api semver insertionSorter
              encoding
              (world "ABC123") recordingApplier (operatorOptions "v1.2.0")
              (installer "v1.2.0") (installerTemplate "v1.2.0")); cycle 1.
  - vm_compute. reflexivity.
  - vm_compute. reflexivity.
  - vm_compute. reflexivity.
  - vm_compute. reflexivity.
  - vm_compute. reflexivity.
Defined.

(** The installer [v1.2.0] of the reference world, followed by text without
    brace, parses as text, the registry field and text. *)
Lemma parse_installer (tail : string) :
  noBrace tail = true ->
  parseTemplate (installerHead "v1.2.0" +:+ tail) false ""
  = OK (TextNode ("# operator v1.2.0" +:+ newline +:+ "image: ")
          :: FieldNode "ImageRegistry" :: textNodes tail).
Proof.
  intros Ht. unfold installerHead. simpl.
  by rewrite parseTemplate_text.
Qed.

(** C10 as it is written fails: in the reference world the requested version
    is embedded and the credentials file is readable, and for no contents of
    that file does [ApplyOperatorYAML] return without calling [Apply]: the
    contents are in the stream in base64, where they cannot open a template
    action. *)
Lemma credentials_cannot_break_template :
  ~ exists keyData err,
      ApplyOperatorYAML (W := world keyData) recordingApplier
        (operatorOptions "v1.2.0")
      = returnErr err.
Proof.
  intros (keyData & err & H).
  destruct (ImagePullSecret (W := world keyData) "key.json")
    as [secret|e] eqn:Hsecret; [|discriminate Hsecret].
  destruct (yamlSecret secret) as [secretData|e] eqn:Hyaml;
    [|discriminate Hyaml].
  pose proof (pull_secret_document_noBrace _ _ _ _ Hsecret Hyaml) as Hn.
  unfold ApplyOperatorYAML in H.
  rewrite (renderOperatorYAML_stream (W := world keyData)
             (operatorOptions "v1.2.0")
             (installer "v1.2.0") (installerTemplate "v1.2.0")
             secret secretData eq_refl eq_refl Hsecret Hyaml) in H.
  change (template_Parse
            (installerTemplate "v1.2.0" +:+ documentMarker +:+ secretData))
    with (parseTemplate
            ((installerHead "v1.2.0" +:+ installerTail "v1.2.0")
             +:+ documentMarker +:+ secretData) false "") in H.
  rewrite append_assoc, parse_installer in H.
  - discriminate H.
  - rewrite !noBrace_append, Hn. reflexivity.
Qed.

(** * Further properties of the package *)

(** ** The stream of documents *)

Section MarshalProofs.
Context `{API : OperatorAPI} `{ENC : !Encoding}.

Lemma marshalSecrets_OK_iff (l : list Secret) (buf out : string) :
  marshalSecrets buf l = OK out
  <-> exists docs,
      Forall2 (fun secret doc => yaml_Marshal_Secret secret = OK doc) l docs
      /\ out = buf +:+ followingDocuments docs.
Proof.
  revert buf. induction l as [|secret rest IH]; intros buf; simpl.
  - split.
    + intros [= <-]. exists []. split; [constructor|].
      simpl. by rewrite append_empty_r.
    + intros (docs & Hdocs & ->). apply Forall2_nil_inv_l in Hdocs as ->.
      simpl. by rewrite append_empty_r.
  - destruct (yaml_Marshal_Secret secret) as [doc|err] eqn:Hdoc; simpl.
    + rewrite IH. split.
      * intros (docs & Hdocs & ->). exists (doc :: docs).
        split; [by constructor|]. simpl. by rewrite !append_assoc.
      * intros (docs & Hdocs & ->).
        apply Forall2_cons_inv_l in Hdocs as (doc' & docs' & Hd & Hdocs & ->).
        rewrite Hdoc in Hd. injection Hd as <-.
        exists docs'. split; [done|]. simpl. by rewrite !append_assoc.
    + split; [done|]. intros (docs & Hdocs & _).
      apply Forall2_cons_inv_l in Hdocs as (doc' & docs' & Hd & _ & _).
      congruence.
Qed.

Lemma marshalSecrets_first_failure (pre post : list Secret) secret err buf :
  Forall (fun s => isOK (yaml_Marshal_Secret s) = true) pre ->
  yaml_Marshal_Secret secret = Fail err ->
  marshalSecrets buf (pre ++ secret :: post)
  = Fail (ErrWrap "failed to marshal Secret data" (ErrOther err)).
Proof.
  intros Hpre Hfail. revert buf.
  induction Hpre as [|s pre Hs _ IH]; intros buf; simpl.
  - by rewrite Hfail.
  - destruct (yaml_Marshal_Secret s); [|done]. simpl. apply IH.
Qed.

(** X1.  [marshalManifests] succeeds exactly when the Installation and every
    secret can be marshalled, and then the stream is the document of the
    Installation followed, for each secret in the order of the list, by a
    document marker and the document of the secret. *)
Theorem marshalManifests_stream (mf : manifests) (out : string) :
  marshalManifests mf = OK out
  <-> exists data docs,
      yaml_Marshal_Installation (installation mf) = OK data
      /\ Forall2 (fun secret doc => yaml_Marshal_Secret secret = OK doc)
                 (secrets mf) docs
      /\ out = data +:+ followingDocuments docs.
Proof.
  unfold marshalManifests.
  destruct (yaml_Marshal_Installation (installation mf)) as [data|err]; simpl.
  - rewrite marshalSecrets_OK_iff. split.
    + intros (docs & Hdocs & ->). by exists data, docs.
    + intros (data' & docs & [= <-] & Hdocs & ->). by exists docs.
  - split; [done|]. by intros (data & docs & Hd & _).
Qed.

Lemma marshalSecrets_Fail_inv (l : list Secret) (buf : string) (e : error) :
  marshalSecrets buf l = Fail e ->
  exists pre secret post err,
    l = pre ++ secret :: post
    /\ Forall (fun s => isOK (yaml_Marshal_Secret s) = true) pre
    /\ yaml_Marshal_Secret secret = Fail err
    /\ e = ErrWrap "failed to marshal Secret data" (ErrOther err).
Proof.
  revert buf. induction l as [|secret rest IH]; intros buf; simpl; [done|].
  destruct (yaml_Marshal_Secret secret) as [doc|err] eqn:Hdoc; simpl.
  - intros H. apply IH in H as (pre & s & post & err & -> & Hpre & Hs & ->).
    exists (secret :: pre), s, post, err. split; [done|].
    split; [|done]. constructor; [by rewrite Hdoc|done].
  - intros [= <-]. by exists [], secret, rest, err.
Qed.

(** X2.  [marshalManifests] fails in two ways only.  Either the Installation
    cannot be marshalled, and the error is that of the Installation, wrapped;
    or the Installation can, some secret cannot, and the error is that of
    the first such secret of the list, wrapped, whatever follows it. *)
Theorem marshalManifests_first_error (mf : manifests) (e : error) :
  marshalManifests mf = Fail e
  <-> (exists err,
          yaml_Marshal_Installation (installation mf) = Fail err
          /\ e = ErrWrap "error marshalling Installation resource"
                         (ErrOther err))
      \/ (exists data pre secret post err,
             yaml_Marshal_Installation (installation mf) = OK data
             /\ secrets mf = pre ++ secret :: post
             /\ Forall (fun s => isOK (yaml_Marshal_Secret s) = true) pre
             /\ yaml_Marshal_Secret secret = Fail err
             /\ e = ErrWrap "failed to marshal Secret data" (ErrOther err)).
Proof.
  unfold marshalManifests. split.
  - destruct (yaml_Marshal_Installation (installation mf)) as [data|err];
      simpl.
    + intros H. right.
      apply marshalSecrets_Fail_inv in H
        as (pre & secret & post & err & Hs & Hpre & Hfail & ->).
      by exists data, pre, secret, post, err.
    + intros [= <-]. left. by exists err.
  - intros [(err & -> & ->)|(data & pre & secret & post & err
                             & -> & -> & Hpre & Hfail & ->)]; simpl; [done|].
    by apply marshalSecrets_first_failure.
Qed.

End MarshalProofs.

(** ** The expansion of the issuer templates *)

Section IssuerProofs.
Context `{API : OperatorAPI} `{ENC : !Encoding} `{W : World} `{VEN : !Venafi}.

Lemma appendIssuers_spec (issuers : list Issuer) (spec : InstallationSpec) :
  appendIssuers issuers spec
  = {| Spec_Registry := Spec_Registry spec;
       Spec_CertManager := Spec_CertManager spec;
       Spec_ApproverPolicy := Spec_ApproverPolicy spec;
       Spec_CSIDrivers := Spec_CSIDrivers spec;
       Spec_IstioCSR := Spec_IstioCSR spec;
       Spec_VenafiOauthHelper := Spec_VenafiOauthHelper spec;
       Spec_Issuers := Spec_Issuers spec ++ issuers |}.
Proof.
  unfold appendIssuers. revert spec.
  induction issuers as [|issuer rest IH]; intros spec; simpl.
  - rewrite app_nil_r. by destruct spec.
  - rewrite IH. simpl. by rewrite <- app_assoc.
Qed.

Lemma generateIssuers_OK_iff (issuers : list VenafiIssuer) (mf mf' : manifests) :
  generateIssuers mf issuers = OK mf'
  <-> exists outs,
      Forall2 (fun template out =>
                 GenerateOperatorManifestsForIssuer template = OK out)
              issuers outs
      /\ mf' = withSpec (appendIssuers outs.*1)
                 {| installation := installation mf;
                    secrets := secrets mf ++ outs.*2 |}.
Proof.
  revert mf. induction issuers as [|template rest IH]; intros mf; simpl.
  - split.
    + intros [= <-]. exists []. split; [constructor|].
      simpl. rewrite app_nil_r. by destruct mf as [[] ?].
    + intros (outs & Houts & ->). apply Forall2_nil_inv_l in Houts as ->.
      simpl. rewrite app_nil_r. by destruct mf as [[] ?].
  - destruct (GenerateOperatorManifestsForIssuer template)
      as [[issuer secret]|err] eqn:Hout.
    + rewrite IH. split.
      * intros (outs & Houts & ->). exists ((issuer, secret) :: outs).
        split; [by constructor|]. simpl. by rewrite <- app_assoc.
      * intros (outs & Houts & ->).
        apply Forall2_cons_inv_l in Houts as (out & outs' & Ho & Houts & ->).
        rewrite Hout in Ho. injection Ho as <-.
        exists outs'. split; [done|]. simpl. by rewrite <- app_assoc.
    + split; [done|]. intros (outs & Houts & _).
      apply Forall2_cons_inv_l in Houts as (out & outs' & Ho & _ & _).
      congruence.
Qed.

Lemma generateIssuers_first_failure (pre post : list VenafiIssuer) template err
      (mf : manifests) :
  Forall (fun t => isOK (GenerateOperatorManifestsForIssuer t) = true) pre ->
  GenerateOperatorManifestsForIssuer template = Fail err ->
  generateIssuers mf (pre ++ template :: post)
  = Fail (ErrWrap "error generating manifests for Venafi issuer" err).
Proof.
  intros Hpre Hfail. revert mf.
  induction Hpre as [|t pre Ht _ IH]; intros mf; simpl.
  - by rewrite Hfail.
  - destruct (GenerateOperatorManifestsForIssuer t) as [[issuer secret]|];
      [|done].
    apply IH.
Qed.

(** X3.  [generateVenafiIssuerManifests] succeeds exactly when every issuer
    template expands, and then it has appended the issuers to the issuers of
    the Installation and their secrets to the collected secrets, both in the
    order of the templates, and has changed nothing else. *)
Theorem issuers_appended_in_order (mf mf' : manifests)
        (options : ApplyInstallationYAMLOptions) :
  generateVenafiIssuerManifests mf options = OK mf'
  <-> exists outs,
      Forall2 (fun template out =>
                 GenerateOperatorManifestsForIssuer template = OK out)
              (VenafiIssuers options) outs
      /\ secrets mf' = secrets mf ++ outs.*2
      /\ installation mf'
         = withInstallationSpec
             (fun spec =>
                {| Spec_Registry := Spec_Registry spec;
                   Spec_CertManager := Spec_CertManager spec;
                   Spec_ApproverPolicy := Spec_ApproverPolicy spec;
                   Spec_CSIDrivers := Spec_CSIDrivers spec;
                   Spec_IstioCSR := Spec_IstioCSR spec;
                   Spec_VenafiOauthHelper := Spec_VenafiOauthHelper spec;
                   Spec_Issuers := Spec_Issuers spec ++ outs.*1 |})
             (installation mf).
Proof.
  unfold generateVenafiIssuerManifests. rewrite generateIssuers_OK_iff.
  split.
  - intros (outs & Houts & ->). exists outs. split; [done|].
    split; [done|]. simpl. unfold withInstallationSpec.
    by rewrite appendIssuers_spec.
  - intros (outs & Houts & Hs & Hi). exists outs. split; [done|].
    destruct mf' as [inst' secrets']. simpl in *. subst.
    unfold withSpec, withInstallationSpec. simpl.
    by rewrite appendIssuers_spec.
Qed.

End IssuerProofs.

(** ** The manifests that are built *)

Section BuildProofs.
Context `{API : OperatorAPI} `{ENC : !Encoding} `{W : World} `{VEN : !Venafi}.

Implicit Types (mf : manifests) (options : ApplyInstallationYAMLOptions).

Lemma wrap_OK_iff {A} msg (r : result error A) a :
  wrap msg r = OK a <-> r = OK a.
Proof. destruct r; simpl; split; congruence. Qed.

(** The build: the four assignments, the pull secret, the issuers. *)
Lemma buildManifests_unfold options :
  buildManifests options
  = (mf <-! collectImagePullSecret
              (withSpec
                 (fun spec =>
                    fieldUpdate options StepVenafiOauthHelper
                      (fieldUpdate options StepCSIDrivers
                         (fieldUpdate options StepCertManagerVersion
                            (fieldUpdate options StepIstioCSR spec))))
                 (skeleton options)) options;
     wrap "error building manifests for Venafi issuers"
          (generateIssuers mf (VenafiIssuers options))).
Proof.
  rewrite buildManifests_runSteps. unfold implementedOrder.
  rewrite runSteps_assignments by apply skeleton_hasCertManager.
  cbn [runSteps runStep]. unfold generateVenafiIssuerManifests.
  destruct (collectImagePullSecret _ options) as [m|]; [|done]. simpl.
  by destruct (generateIssuers m (VenafiIssuers options)).
Qed.

(** The spec after the four assignments. *)
Lemma assigned_spec options :
  fieldUpdate options StepVenafiOauthHelper
    (fieldUpdate options StepCSIDrivers
       (fieldUpdate options StepCertManagerVersion
          (fieldUpdate options StepIstioCSR
             (Installation_Spec (installation (skeleton options))))))
  = {| Spec_Registry := Installation_ImageRegistry options;
       Spec_CertManager :=
         Some {| CertManager_Version := CertManagerVersion options;
                 CertManager_Controller :=
                   Some {| CertManagerControllerConfig_ReplicaCount :=
                             Some (CertManagerReplicas options) |};
                 CertManager_Webhook :=
                   Some {| CertManagerWebhookConfig_ReplicaCount :=
                             Some (CertManagerReplicas options) |} |};
       Spec_ApproverPolicy := Some Build_ApproverPolicy;
       Spec_CSIDrivers :=
         if InstallCSIDriver options || InstallSpiffeCSIDriver options
         then Some (csiDrivers options) else None;
       Spec_IstioCSR :=
         if InstallIstioCSR options
         then Some {| IstioCSR_ReplicaCount := Some (IstioCSRReplicas options);
                      IstioCSR_IssuerRef :=
                        if String.eqb (IstioCSRIssuer options) "" then None
                        else Some {| ObjectReference_Name := IstioCSRIssuer options;
                                     ObjectReference_Kind := "Issuer";
                                     ObjectReference_Group := "cert-manager.io" |} |}
         else None;
       Spec_VenafiOauthHelper :=
         if InstallVenafiOauthHelper options
         then Some {| VenafiOauthHelper_ImagePullSecrets :=
                        if String.eqb (Credentials options) "" then []
                        else ["jse-gcr-creds"] |}
         else None;
       Spec_Issuers := [] |}.
Proof.
  cbn [fieldUpdate].
  destruct (String.eqb (CertManagerVersion options) "") eqn:Hv.
  - apply String.eqb_eq in Hv. rewrite Hv.
    destruct (InstallIstioCSR options), (InstallVenafiOauthHelper options),
      (InstallCSIDriver options || InstallSpiffeCSIDriver options);
      simpl; destruct (String.eqb (Credentials options) ""); reflexivity.
  - destruct (InstallIstioCSR options), (InstallVenafiOauthHelper options),
      (InstallCSIDriver options || InstallSpiffeCSIDriver options);
      simpl; destruct (String.eqb (Credentials options) ""); reflexivity.
Qed.

(** What is built: the assigned spec with the issuers, and the pull secret
    followed by the secrets of the issuers. *)
Lemma buildManifests_OK_iff options mf :
  buildManifests options = OK mf
  <-> exists pulled outs,
      (if String.eqb (Credentials options) "" then pulled = []
       else exists secret,
           pulled = [secret]
           /\ ImagePullSecret (Credentials options) = OK secret)
      /\ Forall2 (fun template out =>
                    GenerateOperatorManifestsForIssuer template = OK out)
                 (VenafiIssuers options) outs
      /\ mf = withSpec (appendIssuers outs.*1)
                {| installation :=
                     installation
                       (withSpec
                          (fun spec =>
                             fieldUpdate options StepVenafiOauthHelper
                               (fieldUpdate options StepCSIDrivers
                                  (fieldUpdate options StepCertManagerVersion
                                     (fieldUpdate options StepIstioCSR spec))))
                          (skeleton options));
                   secrets := pulled ++ outs.*2 |}.
Proof.
  rewrite buildManifests_unfold. unfold collectImagePullSecret.
  destruct (String.eqb (Credentials options) "") eqn:Hcred; cbn [negb bind].
  - rewrite wrap_OK_iff, generateIssuers_OK_iff. split.
    + intros (outs & Houts & ->). by exists [], outs.
    + intros (pulled & outs & -> & Houts & ->). by exists outs.
  - destruct (ImagePullSecret (Credentials options)) as [secret|err];
      cbn [wrap bind].
    + rewrite wrap_OK_iff, generateIssuers_OK_iff. split.
      * intros (outs & Houts & ->).
        exists [secret], outs. split; [by exists secret|done].
      * intros (pulled & outs & (secret' & -> & [= <-]) & Houts & ->).
        by exists outs.
    + split; [done|]. by intros (pulled & outs & (secret' & _ & ?) & _).
Qed.

Lemma built_spec options mf :
  buildManifests options = OK mf ->
  exists outs,
    Forall2 (fun template out =>
               GenerateOperatorManifestsForIssuer template = OK out)
            (VenafiIssuers options) outs
    /\ Installation_Spec (installation mf)
       = appendIssuers outs.*1
           (fieldUpdate options StepVenafiOauthHelper
              (fieldUpdate options StepCSIDrivers
                 (fieldUpdate options StepCertManagerVersion
                    (fieldUpdate options StepIstioCSR
                       (Installation_Spec (installation (skeleton options)))))))
    /\ exists pulled,
        secrets mf = pulled ++ outs.*2
        /\ (if String.eqb (Credentials options) "" then pulled = []
            else exists secret,
                pulled = [secret]
                /\ ImagePullSecret (Credentials options) = OK secret).
Proof.
  intros H. apply buildManifests_OK_iff in H
    as (pulled & outs & Hp & Houts & ->).
  exists outs. split; [done|]. split; [done|]. by exists pulled.
Qed.

Lemma errors_Is_refl (err : error) : errors_Is err err = true.
Proof. destruct err; cbn [errors_Is]; by rewrite bool_decide_eq_true_2. Qed.

Lemma errors_Is_wrap msg (err target : error) :
  errors_Is err target = true -> errors_Is (ErrWrap msg err) target = true.
Proof. intros H. cbn [errors_Is]. rewrite H. apply orb_true_r. Qed.

Lemma Forall_isOK_Forall2 {A B E} (f : A -> result E B) (l : list A) :
  Forall (fun a => isOK (f a) = true) l
  <-> exists outs, Forall2 (fun a out => f a = OK out) l outs.
Proof.
  induction l as [|a l IH].
  - split; [exists []|]; constructor.
  - rewrite Forall_cons, IH. split.
    + intros [Ha (outs & Houts)]. destruct (f a) as [out|] eqn:Hout; [|done].
      exists (out :: outs). by constructor.
    + intros (outs & Houts).
      apply Forall2_cons_inv_l in Houts as (out & outs' & Ho & Houts & ->).
      rewrite Ho. eauto.
Qed.

(** X4.  When the pull secret can be collected and a template does not
    expand while those before it do, [ApplyInstallationYAML] applies nothing
    and returns the error of that template wrapped twice, once by the loop
    and once by the caller, so that [errors.Is] still finds it. *)
Theorem first_failing_issuer applier options pre template post err :
  VenafiIssuers options = pre ++ template :: post ->
  Forall (fun t => isOK (GenerateOperatorManifestsForIssuer t) = true) pre ->
  GenerateOperatorManifestsForIssuer template = Fail err ->
  Credentials options = ""
  \/ isOK (ImagePullSecret (Credentials options)) = true ->
  let returned :=
    ErrWrap "error building manifests for Venafi issuers"
      (ErrWrap "error generating manifests for Venafi issuer" err) in
  ApplyInstallationYAML applier options = returnErr returned
  /\ errors_Is returned err = true.
Proof.
  intros Hissuers Hpre Hfail Hpull returned. split.
  - unfold ApplyInstallationYAML. rewrite buildManifests_unfold.
    unfold collectImagePullSecret. rewrite Hissuers.
    destruct Hpull as [->|Hpull]; cbn [String.eqb negb bind].
    + by rewrite (generateIssuers_first_failure pre post template err).
    + destruct (String.eqb (Credentials options) ""); cbn [negb bind].
      * by rewrite (generateIssuers_first_failure pre post template err).
      * destruct (ImagePullSecret (Credentials options)); [|done].
        cbn [wrap bind]. by rewrite (generateIssuers_first_failure pre post template err).
  - subst returned. do 2 apply errors_Is_wrap. apply errors_Is_refl.
Qed.

(** X5.  The build of the manifests fails in two ways only: the pull secret
    that a credentials path asks for cannot be made, or an issuer template
    does not expand.  The assignments to the Installation never fail. *)
Theorem build_succeeds_iff options :
  (exists mf, buildManifests options = OK mf)
  <-> (Credentials options = ""
       \/ exists secret, ImagePullSecret (Credentials options) = OK secret)
      /\ Forall (fun t => isOK (GenerateOperatorManifestsForIssuer t) = true)
                (VenafiIssuers options).
Proof.
  rewrite Forall_isOK_Forall2. split.
  - intros (mf & H). apply buildManifests_OK_iff in H
      as (pulled & outs & Hp & Houts & _).
    split; [|by exists outs].
    destruct (String.eqb (Credentials options) "") eqn:Hc.
    + left. by apply String.eqb_eq.
    + right. destruct Hp as (secret & _ & Hs). by exists secret.
  - intros [Hp (outs & Houts)].
    destruct (String.eqb (Credentials options) "") eqn:Hc.
    + eexists. apply buildManifests_OK_iff. exists [], outs.
      rewrite Hc. split; [done|]. split; [done|reflexivity].
    + destruct Hp as [Hp|(secret & Hs)];
        [apply String.eqb_neq in Hc; done|].
      eexists. apply buildManifests_OK_iff. exists [secret], outs.
      rewrite Hc. split; [by exists secret|]. split; [done|reflexivity].
Qed.

(** X6.  In the manifests that are built, the issuers of the Installation
    are those of the templates, in the order of the templates; the collected
    secrets are the pull secret, when there is a credentials path, followed
    by the secrets of the templates in the same order: one secret for each
    template, and one more with a credentials path. *)
Theorem built_lists_follow_templates options mf :
  buildManifests options = OK mf ->
  exists outs pulled,
    Forall2 (fun template out =>
               GenerateOperatorManifestsForIssuer template = OK out)
            (VenafiIssuers options) outs
    /\ Spec_Issuers (Installation_Spec (installation mf)) = outs.*1
    /\ secrets mf = pulled ++ outs.*2
    /\ (if String.eqb (Credentials options) "" then pulled = []
        else exists secret,
            pulled = [secret]
            /\ ImagePullSecret (Credentials options) = OK secret)
    /\ List.length (secrets mf)
       = ((if String.eqb (Credentials options) "" then 0 else 1)
          + List.length (VenafiIssuers options))%nat.
Proof.
  intros H. apply built_spec in H as (outs & Houts & Hspec & pulled & Hs & Hp).
  exists outs, pulled. split; [done|].
  split; [by rewrite Hspec, appendIssuers_spec, assigned_spec|].
  split; [done|]. split; [done|].
  rewrite Hs, length_app, length_fmap, <- (Forall2_length _ _ _ Houts).
  destruct (String.eqb (Credentials options) "").
  - by rewrite Hp.
  - by destruct Hp as (secret & -> & _).
Qed.

(** X7.  The built Installation has an [IstioCSR] exactly when
    [InstallIstioCSR] is true, with the replica count of the options; its
    issuer reference is nil for an empty [IstioCSRIssuer], and otherwise
    names that issuer with the kind [Issuer] and the group
    [cert-manager.io]. *)
Theorem istio_csr_of_built_installation options mf :
  buildManifests options = OK mf ->
  Spec_IstioCSR (Installation_Spec (installation mf))
  = if InstallIstioCSR options
    then Some {| IstioCSR_ReplicaCount := Some (IstioCSRReplicas options);
                 IstioCSR_IssuerRef :=
                   if String.eqb (IstioCSRIssuer options) "" then None
                   else Some {| ObjectReference_Name := IstioCSRIssuer options;
                                ObjectReference_Kind := "Issuer";
                                ObjectReference_Group := "cert-manager.io" |} |}
    else None.
Proof.
  intros H. apply built_spec in H as (outs & _ & Hspec & _).
  by rewrite Hspec, appendIssuers_spec, assigned_spec.
Qed.

(** X8.  The built Installation has a [VenafiOauthHelper] exactly when
    [InstallVenafiOauthHelper] is true; it names the pull secret
    [jse-gcr-creds] exactly when there is a credentials path, and every pull
    secret it names is among the collected secrets, as a secret of type
    docker-config-json in the namespace [jetstack-secure]. *)
Theorem oauth_helper_of_built_installation options mf :
  buildManifests options = OK mf ->
  Spec_VenafiOauthHelper (Installation_Spec (installation mf))
  = (if InstallVenafiOauthHelper options
     then Some {| VenafiOauthHelper_ImagePullSecrets :=
                    if String.eqb (Credentials options) "" then []
                    else ["jse-gcr-creds"] |}
     else None)
  /\ forall helper name,
      Spec_VenafiOauthHelper (Installation_Spec (installation mf)) = Some helper ->
      name ∈ VenafiOauthHelper_ImagePullSecrets helper ->
      exists secret,
        secret ∈ secrets mf
        /\ Secret_Name secret = name
        /\ Secret_Namespace secret = "jetstack-secure"
        /\ Secret_Type secret = "kubernetes.io/dockerconfigjson".
Proof.
  intros H. apply built_spec in H as (outs & _ & Hspec & pulled & Hs & Hp).
  rewrite Hspec, appendIssuers_spec, assigned_spec.
  cbn [Spec_VenafiOauthHelper]. split; [done|].
  intros helper name Hh Hn.
  destruct (InstallVenafiOauthHelper options); [|done].
  injection Hh as <-. cbn [VenafiOauthHelper_ImagePullSecrets] in Hn.
  destruct (String.eqb (Credentials options) "");
    [by apply elem_of_nil in Hn|].
  apply list_elem_of_singleton in Hn as ->.
  destruct Hp as (secret & Hpulled & Hsecret).
  apply ImagePullSecret_OK_inv in Hsecret as (? & ? & ? & _ & _ & _ & Heq).
  exists secret. split; [rewrite Hs, Hpulled; by left|by rewrite Heq].
Qed.

(** X9.  Whatever the options, the built Installation is named
    [installation], has the kind and API version of the Installation
    resource, takes its registry from the options, always has an
    [ApproverPolicy] and a [CertManager] whose controller and webhook both
    have the replica count of the options, and whose version is
    [CertManagerVersion] (empty when none is asked for); it has no status. *)
Theorem fixed_part_of_built_installation options mf :
  buildManifests options = OK mf ->
  Installation_Name (installation mf) = "installation"
  /\ Installation_Kind (installation mf) = InstallationGVK_Kind
  /\ Installation_APIVersion (installation mf) = InstallationGVK_APIVersion
  /\ Status_Conditions (Installation_Status (installation mf)) = []
  /\ Spec_Registry (Installation_Spec (installation mf))
     = Installation_ImageRegistry options
  /\ Spec_ApproverPolicy (Installation_Spec (installation mf))
     = Some Build_ApproverPolicy
  /\ Spec_CertManager (Installation_Spec (installation mf))
     = Some {| CertManager_Version := CertManagerVersion options;
               CertManager_Controller :=
                 Some {| CertManagerControllerConfig_ReplicaCount :=
                           Some (CertManagerReplicas options) |};
               CertManager_Webhook :=
                 Some {| CertManagerWebhookConfig_ReplicaCount :=
                           Some (CertManagerReplicas options) |} |}.
Proof.
  intros H. pose proof H as H'.
  apply buildManifests_OK_iff in H as (pulled & outs & _ & _ & ->).
  apply built_spec in H' as (outs' & _ & Hspec & _).
  repeat (split; [reflexivity|]).
  rewrite Hspec, appendIssuers_spec, assigned_spec. done.
Qed.

End BuildProofs.

(** ** The selection of the installer *)

Lemma filepath_Join_installers_dot (name : string) :
  forallb (fun c => negb (isSep c)) (chars name) = true ->
  (3 <= String.length name)%nat ->
  filepath_Join ["installers"; "./" +:+ name] = "installers/" +:+ name.
Proof.
  intros Hsep Hlen.
  assert (forall s, (String.length s < 3)%nat -> String.eqb name s = false) as Hne.
  { intros s Hs. apply String.eqb_neq. intros ->. lia. }
  unfold filepath_Join, filepath_Clean. simpl.
  rewrite (splitSep_no_separator name "") by done. simpl.
  unfold cleanStep at 1. simpl.
  unfold cleanStep. rewrite !Hne by (simpl; lia). simpl.
  destruct name; [simpl in Hlen; lia|done].
Qed.

Section SelectionProofs.
Context `{API : OperatorAPI} `{SV : Semver} `{SORT : Sort} `{ENC : !Encoding}
        `{W : World}.

Lemma rawVersionsOf_directories (entries : list DirEntry) :
  Forall (fun entry => DirEntry_IsDir entry = true) entries ->
  rawVersionsOf entries = [].
Proof.
  induction 1 as [|entry rest Hd _ IH]; simpl; [done|]. by rewrite Hd.
Qed.

(** X11.  When no embedded entry has the name that [Versions] prints for the
    latest version, followed by [.yaml], an empty [Version] fails with the
    path error of the embedded file system, while asking for that latest
    version by name fails with [ErrNoManifest]; neither applies anything. *)
Theorem latest_installer_not_embedded applier registry credentials
        versions latest :
  Versions = OK versions -> last versions = Some latest ->
  (forall entry, entry ∈ installers ->
                 "installers/" +:+ DirEntry_Name entry
                 <> filepath_Join ["installers"; latest +:+ ".yaml"]) ->
  ApplyOperatorYAML applier
    {| Version := ""; ImageRegistry := registry;
       CredentialsLocation := credentials |}
  = returnErr (ErrOther (PathNotExist
                           (filepath_Join ["installers"; latest +:+ ".yaml"])))
  /\ ApplyOperatorYAML applier
       {| Version := latest; ImageRegistry := registry;
          CredentialsLocation := credentials |}
     = returnErr ErrNoManifest.
Proof.
  intros Hv Hlast Hnone.
  pose proof (Versions_prefixed _ _ Hv Hlast) as Hne.
  pose proof (Versions_element _ _ Hv (last_Some_elem_of _ _ Hlast)) as Hsep.
  destruct (versioned_name_is_element latest Hsep) as [Hs Hl].
  assert (installers_Open (filepath_Join ["installers"; latest +:+ ".yaml"])
          = Fail (PathNotExist
                    (filepath_Join ["installers"; latest +:+ ".yaml"])))
    as Hopen.
  { apply installers_Open_not_found; [exact Hnone|].
    intros dir rest entry _. rewrite filepath_Join_installers by done.
    by apply below_has_separator. }
  unfold ApplyOperatorYAML, renderOperatorYAML.
  cbn [Version ImageRegistry CredentialsLocation]. rewrite Hne.
  change (String.eqb "" "") with true. cbv iota.
  unfold latestManifest, manifestVersion. rewrite Hv. cbn [bind].
  rewrite Hlast, Hopen. done.
Qed.

(** X12.  With an empty [Version] and nothing to choose from, that is when
    every embedded entry is a directory or there is none, [Versions] returns
    the empty list and the index of its last element is out of range: the
    call panics.  When an embedded name does not parse, the empty [Version]
    returns the parse error of [Versions]. *)
Theorem latest_of_nothing applier registry credentials :
  let apply :=
    ApplyOperatorYAML applier
      {| Version := ""; ImageRegistry := registry;
         CredentialsLocation := credentials |} in
  (Forall (fun entry => DirEntry_IsDir entry = true) installers ->
   Versions = OK [] /\ apply = returnErr (Panic "index out of range [-1]"))
  /\ (forall err, Versions = Fail err -> apply = returnErr err).
Proof.
  intros apply. subst apply.
  unfold ApplyOperatorYAML, renderOperatorYAML, latestManifest. simpl. split.
  - intros Hdirs.
    assert (Versions = OK []) as Hv.
    { unfold Versions, sort_Sort.
      rewrite (rawVersionsOf_directories _ Hdirs). cbn [parseVersions bind].
      pose proof (sort_Slice_Permutation _ LessThan []) as Hnil.
      apply Permutation_nil_r in Hnil. by rewrite Hnil. }
    by rewrite Hv.
  - by intros err ->.
Qed.

(** X13.  A [Version] written with a leading [./] selects the installer that
    the same [Version] without it selects: the path of the installer is
    cleaned before it is opened. *)
Theorem version_with_dot_prefix applier registry credentials (version : string) :
  forallb (fun c => negb (isSep c)) (chars version) = true ->
  manifestVersion ("./" +:+ version) = manifestVersion version
  /\ (version <> "" ->
      ApplyOperatorYAML applier
        {| Version := "./" +:+ version; ImageRegistry := registry;
           CredentialsLocation := credentials |}
      = ApplyOperatorYAML applier
          {| Version := version; ImageRegistry := registry;
             CredentialsLocation := credentials |}).
Proof.
  intros Hsep.
  destruct (versioned_name_is_element version Hsep) as [Hs Hl].
  assert (manifestVersion ("./" +:+ version) = manifestVersion version) as Hm.
  { unfold manifestVersion.
    change (("./" +:+ version) +:+ ".yaml") with ("./" +:+ (version +:+ ".yaml")).
    by rewrite filepath_Join_installers_dot, filepath_Join_installers. }
  split; [exact Hm|].
  intros Hne. unfold ApplyOperatorYAML, renderOperatorYAML.
  cbn [Version ImageRegistry CredentialsLocation].
  apply String.eqb_neq in Hne. rewrite Hne, Hm.
  by change (String.eqb ("./" +:+ version) "") with false.
Qed.

End SelectionProofs.

(** ** A missing key file *)

Section KeyFileProofs.
Context `{API : OperatorAPI} `{SV : Semver} `{SORT : Sort}
        `{ENC : !Encoding}
        `{W : World} `{VEN : !Venafi}.

(** X14.  When the key file does not exist, [ImagePullSecret] returns
    [ErrNoKeyFile]; [ApplyOperatorYAML], once it has read the installer,
    returns that sentinel itself, and [ApplyInstallationYAML], for a
    credentials path that is not empty, returns it wrapped, so that
    [errors.Is] finds [ErrNoKeyFile] in both; neither applies anything. *)
Theorem missing_key_file_is_reported (path : string) (err : liberror) :
  os_Open path = Fail err -> is_ErrNotExist err = true ->
  ImagePullSecret path = Fail ErrNoKeyFile
  /\ (forall applier (options : ApplyOperatorYAMLOptions) file buf,
        CredentialsLocation options = path ->
        (if String.eqb (Version options) "" then latestManifest
         else manifestVersion (Version options)) = OK file ->
        io_Copy file = OK buf ->
        ApplyOperatorYAML applier options = returnErr ErrNoKeyFile)
  /\ (forall applier (options : ApplyInstallationYAMLOptions),
        Credentials options = path -> path <> "" ->
        exists returned,
          ApplyInstallationYAML applier options = returnErr returned
          /\ errors_Is returned ErrNoKeyFile = true).
Proof.
  intros Hopen Hne.
  assert (ImagePullSecret path = Fail ErrNoKeyFile) as Hsecret.
  { unfold ImagePullSecret. by rewrite Hopen, Hne. }
  split; [exact Hsecret|]. split.
  - intros applier options file buf Hpath Hfile Hcopy.
    unfold ApplyOperatorYAML, renderOperatorYAML.
    rewrite Hfile. cbn [bind]. rewrite Hcopy. cbn [lift bind].
    by rewrite Hpath, Hsecret.
  - intros applier options Hpath Hnonempty.
    exists (ErrWrap "failed to parse image pull secret" ErrNoKeyFile).
    split; [|reflexivity].
    unfold ApplyInstallationYAML. rewrite buildManifests_unfold.
    unfold collectImagePullSecret. rewrite Hpath.
    apply String.eqb_neq in Hnonempty. by rewrite Hnonempty, Hsecret.
Qed.

End KeyFileProofs.

(** ** The order of the statuses *)

Section StatusOrderProofs.
Context `{API : OperatorAPI} `{SORT : Sort}.

(** Two condition types with the same component name are the same type: the
    names of the table are all different. *)
Lemma componentNames_inj (type1 type2 name : string) :
  componentNames !! type1 = Some name ->
  componentNames !! type2 = Some name ->
  type1 = type2.
Proof.
  unfold componentNames. intros H1 H2.
  apply elem_of_list_to_map_2 in H1, H2.
  repeat (rewrite elem_of_cons in H1). rewrite elem_of_nil in H1.
  repeat (rewrite elem_of_cons in H2). rewrite elem_of_nil in H2.
  repeat (destruct H1 as [H1|H1]); try done;
    repeat (destruct H2 as [H2|H2]); try done;
    congruence.
Qed.

Lemma NoDup_fmap_eq {A B} (f : A -> B) (l : list A) (x y : A) :
  NoDup (f <$> l) -> x ∈ l -> y ∈ l -> f x = f y -> x = y.
Proof.
  induction l as [|a l IH]; simpl; intros Hnd Hx Hy Hf.
  - by apply elem_of_nil in Hx.
  - apply NoDup_cons in Hnd as [Ha Hnd].
    apply elem_of_cons in Hx as [->|Hx], Hy as [->|Hy]; [done| | |by apply IH].
    + destruct Ha. rewrite Hf. by apply list_elem_of_fmap_2.
    + destruct Ha. rewrite <- Hf. by apply list_elem_of_fmap_2.
Qed.

(** X15.  When no two conditions have the same type, what [Status] returns
    does not depend on the order in which the cluster lists the conditions:
    two Installations whose conditions are the same up to their order give
    the same list of statuses. *)
Theorem status_independent_of_condition_order (ic1 ic2 : InstallationClient)
        (inst1 inst2 : Installation) :
  client_Get ic1 "installations" "installation" = OK inst1 ->
  client_Get ic2 "installations" "installation" = OK inst2 ->
  Status_Conditions (Installation_Status inst1)
  ≡ₚ Status_Conditions (Installation_Status inst2) ->
  NoDup (Condition_Type <$> Status_Conditions (Installation_Status inst1)) ->
  Status ic1 = Status ic2.
Proof.
  intros H1 H2 Hperm Hnd. unfold Status. rewrite H1, H2. do 2 f_equal.
  set (conds1 := Status_Conditions (Installation_Status inst1)) in *.
  set (conds2 := Status_Conditions (Installation_Status inst2)) in *.
  apply (StronglySorted_unique_strong
           (fun a b => String.leb (ComponentStatus_Name a)
                                  (ComponentStatus_Name b) = true)).
  - intros x1 x2 Hx1 Hx2 H12 H21.
    pose proof (String.leb_antisym _ _ H12 H21) as Hname.
    rewrite sort_Slice_Permutation, collectStatuses_omap in Hx1, Hx2.
    rewrite <- Hperm in Hx2.
    apply list_elem_of_omap in Hx1 as (c1 & Hc1 & Hs1).
    apply list_elem_of_omap in Hx2 as (c2 & Hc2 & Hs2).
    assert (c1 = c2) as ->; [|congruence].
    apply (NoDup_fmap_eq Condition_Type conds1); [done..|].
    unfold statusOf in Hs1, Hs2.
    destruct (componentNames !! Condition_Type c1) as [n1|] eqn:Hn1; [|done].
    destruct (componentNames !! Condition_Type c2) as [n2|] eqn:Hn2; [|done].
    injection Hs1 as <-. injection Hs2 as <-. simpl in Hname. subst n2.
    by eapply componentNames_inj.
  - apply sorted_by_name.
  - apply sorted_by_name.
  - by rewrite !sort_Slice_Permutation, !collectStatuses_omap, Hperm.
Qed.

End StatusOrderProofs.

(** ** The helper that is not called *)

Section DeadCodeProofs.
Context `{API : OperatorAPI} `{VEN : !Venafi}.

(** X16.  [applyImagePullSecrets] and
    [applyVenafiOauthHelperToInstallation] both succeed, and give the same
    Installation exactly when [InstallVenafiOauthHelper] is false or the
    credentials path is empty: with the helper and a credentials path, the
    first leaves the helper without the pull secret [jse-gcr-creds] that the
    second gives it. *)
Theorem applyImagePullSecrets_drops_pull_secret (mf : manifests)
        (options : ApplyInstallationYAMLOptions) :
  exists mf' inst',
    applyVenafiOauthHelperToInstallation mf options = OK mf'
    /\ applyImagePullSecrets (installation mf) options = OK inst'
    /\ (installation mf' = inst'
        <-> InstallVenafiOauthHelper options = false
            \/ Credentials options = "")
    /\ (InstallVenafiOauthHelper options = true ->
        Spec_VenafiOauthHelper (Installation_Spec inst')
        = Some {| VenafiOauthHelper_ImagePullSecrets := [] |}).
Proof.
  unfold applyVenafiOauthHelperToInstallation, applyImagePullSecrets.
  destruct (InstallVenafiOauthHelper options); simpl.
  - destruct (String.eqb (Credentials options) "") eqn:Hc; simpl.
    + do 2 eexists. split; [done|]. split; [done|].
      split; [|done]. split; [|done]. intros _. right. by apply String.eqb_eq.
    + do 2 eexists. split; [done|]. split; [done|].
      split; [|done]. apply String.eqb_neq in Hc. split.
      * intros H.
        apply (f_equal (fun inst =>
                          Spec_VenafiOauthHelper (Installation_Spec inst))) in H.
        discriminate H.
      * by intros [?|?].
  - do 2 eexists. split; [done|]. split; [done|].
    split; [|done]. split; [by left|done].
Qed.

End DeadCodeProofs.

(** ** The catalog of versions *)

Lemma StronglySorted_last {A} (R : A -> A -> Prop) (l : list A) (x y : A) :
  StronglySorted R l -> last l = Some y -> x ∈ l -> x = y \/ R x y.
Proof.
  induction 1 as [|a l Hl IH Ha]; intros Hlast Hx.
  - by apply elem_of_nil in Hx.
  - destruct l as [|b l].
    + injection Hlast as <-. apply list_elem_of_singleton in Hx. by left.
    + rewrite last_cons_cons in Hlast.
      apply elem_of_cons in Hx as [->|Hx]; [|by apply IH].
      right. rewrite Forall_forall in Ha. apply Ha.
      by apply last_Some_elem_of.
Qed.

Section CatalogProofs.
Context `{API : OperatorAPI} `{SV : Semver} `{SORT : Sort} `{ENC : !Encoding}
        `{W : World}.

Lemma parseVersions_first_invalid (pre post : list string) raw err :
  Forall (fun r => isOK (NewVersion r) = true) pre ->
  NewVersion raw = Fail err ->
  parseVersions (pre ++ raw :: post) = Fail (ErrOther err).
Proof.
  intros Hpre Hfail. induction Hpre as [|r pre Hr _ IH]; simpl.
  - by rewrite Hfail.
  - destruct (NewVersion r); [|done]. by rewrite IH.
Qed.

(** X17.  [Versions] stops at the first name, in the order of the embedded
    directory, that does not parse as a version: it returns the parse error
    of that name, whatever the names after it are, and so does the selection
    of the latest installer. *)
Theorem versions_first_parse_error (pre post : list string) raw err :
  rawVersionsOf installers = pre ++ raw :: post ->
  Forall (fun r => isOK (NewVersion r) = true) pre ->
  NewVersion raw = Fail err ->
  Versions = Fail (ErrOther err)
  /\ latestManifest = Fail (ErrOther err).
Proof.
  intros Hraw Hpre Hfail.
  assert (Versions = Fail (ErrOther err)) as Hv.
  { unfold Versions. rewrite Hraw.
    by rewrite (parseVersions_first_invalid pre post raw err). }
  split; [exact Hv|]. unfold latestManifest. by rewrite Hv.
Qed.

(** X18.  When every embedded name parses and there is at least one, the
    installer that [latestManifest] opens is that of a version of the
    catalog that no version of the catalog exceeds: the file named [v], that
    version as [semver] prints it, and [.yaml].  [LessThan] is taken to be a
    strict weak order. *)
Theorem latest_is_not_exceeded
        (less_asym : forall a b, LessThan a b = true -> LessThan b a = false)
        (not_less_trans : forall a b c, LessThan a b = false ->
                                        LessThan b c = false ->
                                        LessThan a c = false)
        (parsed : list semver_Version) :
  Forall2 (fun raw p => NewVersion raw = OK p) (rawVersionsOf installers) parsed ->
  parsed <> [] ->
  exists latest,
    latest ∈ parsed
    /\ (forall other, other ∈ parsed -> LessThan latest other = false)
    /\ latestManifest
       = lift (installers_Open
                 (filepath_Join
                    ["installers"; ("v" +:+ Version_String latest) +:+ ".yaml"])).
Proof.
  intros Hall Hne.
  pose proof (sort_Slice_Permutation _ LessThan parsed) as Hperm.
  pose proof (sort_Slice_ascending _ LessThan parsed less_asym not_less_trans)
    as Hsorted.
  destruct (last (sort_Slice LessThan parsed)) as [latest|] eqn:Hlast.
  - exists latest. split; [|split].
    + rewrite <- Hperm. by apply last_Some_elem_of.
    + intros other Hother. rewrite <- Hperm in Hother.
      destruct (StronglySorted_last _ _ other latest Hsorted Hlast Hother)
        as [->|H]; [|exact H].
      destruct (LessThan latest latest) eqn:Hself; [|done].
      by rewrite (less_asym _ _ Hself) in Hself.
    + unfold latestManifest, Versions, sort_Sort.
      rewrite (parseVersions_all _ _ Hall). cbn [bind].
      change (last (List.map ?f ?l)) with (last (f <$> l)).
      by rewrite fmap_last, Hlast.
  - apply last_None in Hlast. rewrite Hlast in Hperm.
    by apply Permutation_nil_l in Hperm.
Qed.

End CatalogProofs.

(** ** The stream that is applied *)

Section StreamProofs.
Context `{API : OperatorAPI} `{ENC : !Encoding} `{W : World} `{VEN : !Venafi}.

(** X19.  When the manifests are built and every resource can be marshalled,
    [ApplyInstallationYAML] hands [Apply] one stream and returns what [Apply]
    returns.  The stream is the document of the Installation followed by one
    marked document for each collected secret: one for each issuer template,
    and one more when there is a credentials path. *)
Theorem installation_stream_layout applier
        (options : ApplyInstallationYAMLOptions) (mf : manifests)
        (data : string) (docs : list string) :
  buildManifests options = OK mf ->
  yaml_Marshal_Installation (installation mf) = OK data ->
  Forall2 (fun secret doc => yaml_Marshal_Secret secret = OK doc)
          (secrets mf) docs ->
  ApplyInstallationYAML applier options
  = {| Applied := [data +:+ followingDocuments docs];
       Returned := Apply applier (data +:+ followingDocuments docs) |}
  /\ List.length docs
     = ((if String.eqb (Credentials options) "" then 0 else 1)
        + List.length (VenafiIssuers options))%nat.
Proof.
  intros Hbuild Hdata Hdocs. split.
  - assert (marshalManifests mf = OK (data +:+ followingDocuments docs)) as Hm.
    { unfold marshalManifests. rewrite Hdata. cbn [lift wrap bind].
      apply marshalSecrets_OK_iff. by exists docs. }
    unfold ApplyInstallationYAML. rewrite Hbuild. cbn [bind].
    by rewrite Hm.
  - rewrite <- (Forall2_length _ _ _ Hdocs).
    apply built_spec in Hbuild as (outs & Houts & _ & pulled & Hs & Hp).
    rewrite Hs, length_app, length_fmap, <- (Forall2_length _ _ _ Houts).
    destruct (String.eqb (Credentials options) "").
    + by rewrite Hp.
    + by destruct Hp as (secret & -> & _).
Qed.

End StreamProofs.

(** ** Further examples

    The further properties at the reference instance. *)

Lemma first_failing_issuer_witness :
  ApplyInstallationYAML (W := world "ABC123") recordingApplier
    (installationOptions ["edge"; ""; "core"])
  = returnErr
      (ErrWrap "error building manifests for Venafi issuers"
         (ErrWrap "error generating manifests for Venafi issuer"
            (ErrOther (Generic "issuer has no name"))))
  /\ errors_Is
       (ErrWrap "error building manifests for Venafi issuers"
          (ErrWrap "error generating manifests for Venafi issuer"
             (ErrOther (Generic "issuer has no name"))))
       (ErrOther (Generic "issuer has no name")) = true.
Proof.
  apply (first_failing_issuer (W := world "ABC123") recordingApplier
           (installationOptions ["edge"; ""; "core"]) ["edge"] "" ["core"]).
  - reflexivity.
  - repeat constructor.
  - reflexivity.
  - right. vm_compute. reflexivity.
Defined.

Lemma built_lists_follow_templates_witness :
  exists mf,
    buildManifests (W := world "ABC123") (installationOptions ["edge"; "core"])
    = OK mf
    /\ exists outs pulled,
        Forall2 (fun template out =>
                   GenerateOperatorManifestsForIssuer template = OK out)
                ["edge"; "core"] outs
        /\ Spec_Issuers (Installation_Spec (installation mf)) = outs.*1
        /\ secrets mf = pulled ++ outs.*2
        /\ (exists secret,
               pulled = [secret]
               /\ ImagePullSecret (W := world "ABC123") "key.json" = OK secret)
        /\ List.length (secrets mf) = 3%nat.
Proof.
  eexists. split; [vm_compute; reflexivity|].
  apply (built_lists_follow_templates (W := world "ABC123")
           (installationOptions ["edge"; "core"])).
  vm_compute. reflexivity.
Defined.

Lemma istio_csr_of_built_installation_witness :
  exists mf,
    buildManifests (W := world "ABC123") (installationOptions ["edge"]) = OK mf
    /\ Spec_IstioCSR (Installation_Spec (installation mf))
       = Some {| IstioCSR_ReplicaCount := Some 1%Z;
                 IstioCSR_IssuerRef := None |}.
Proof.
  eexists. split; [vm_compute; reflexivity|].
  apply (istio_csr_of_built_installation (W := world "ABC123")
           (installationOptions ["edge"])).
  vm_compute. reflexivity.
Defined.

Lemma oauth_helper_of_built_installation_witness :
  exists mf,
    buildManifests (W := world "ABC123") (installationOptions ["edge"]) = OK mf
    /\ Spec_VenafiOauthHelper (Installation_Spec (installation mf))
       = Some {| VenafiOauthHelper_ImagePullSecrets := ["jse-gcr-creds"] |}
    /\ forall helper name,
        Spec_VenafiOauthHelper (Installation_Spec (installation mf))
        = Some helper ->
        name ∈ VenafiOauthHelper_ImagePullSecrets helper ->
        exists secret,
          secret ∈ secrets mf
          /\ Secret_Name secret = name
          /\ Secret_Namespace secret = "jetstack-secure"
          /\ Secret_Type secret = "kubernetes.io/dockerconfigjson".
Proof.
  eexists. split; [vm_compute; reflexivity|].
  apply (oauth_helper_of_built_installation (W := world "ABC123")
           (installationOptions ["edge"])).
  vm_compute. reflexivity.
Defined.

Lemma fixed_part_of_built_installation_witness :
  exists mf,
    buildManifests (W := world "ABC123") (installationOptions ["edge"]) = OK mf
    /\ Installation_Name (installation mf) = "installation"
    /\ Installation_Kind (installation mf) = "Installation"
    /\ Installation_APIVersion (installation mf) = "operator.jetstack.io/v1alpha1"
    /\ Status_Conditions (Installation_Status (installation mf)) = []
    /\ Spec_Registry (Installation_Spec (installation mf))
       = "registry.example.com"
    /\ Spec_ApproverPolicy (Installation_Spec (installation mf))
       = Some Build_ApproverPolicy
    /\ Spec_CertManager (Installation_Spec (installation mf))
       = Some {| CertManager_Version := "v1.9.1";
                 CertManager_Controller :=
                   Some {| CertManagerControllerConfig_ReplicaCount :=
                             Some 2%Z |};
                 CertManager_Webhook :=
                   Some {| CertManagerWebhookConfig_ReplicaCount :=
                             Some 2%Z |} |}.
Proof.
  eexists. split; [vm_compute; reflexivity|].
  apply (fixed_part_of_built_installation (W := world "ABC123")
           (installationOptions ["edge"])).
  vm_compute. reflexivity.
Defined.

Lemma entry_of_plainWorld (entry : DirEntry) :
  entry ∈ installers (World := plainWorld) ->
  DirEntry_Name entry = "1.10.0.yaml" \/ DirEntry_Name entry = "1.2.0.yaml".
Proof.
  simpl. rewrite !elem_of_cons, elem_of_nil.
  intros [->|[->|[]]]; auto.
Qed.

Lemma latest_installer_not_embedded_witness :
  ApplyOperatorYAML (W := plainWorld) recordingApplier (operatorOptions "")
  = returnErr (ErrOther (PathNotExist "installers/v1.10.0.yaml"))
  /\ ApplyOperatorYAML (W := plainWorld) recordingApplier
       (operatorOptions "v1.10.0")
     = returnErr ErrNoManifest.
Proof.
  apply (latest_installer_not_embedded (SV := semver) (W := plainWorld)
           recordingApplier "registry.example.com" "key.json"
           ["v1.2.0"; "v1.10.0"] "v1.10.0").
  - vm_compute. reflexivity.
  - reflexivity.
  - intros entry Hin Heq.
    destruct (entry_of_plainWorld _ Hin) as [H|H]; rewrite H in Heq;
      vm_compute in Heq; discriminate Heq.
Defined.

Lemma latest_of_nothing_witness :
  (Versions (W := emptyWorld) = OK []
   /\ ApplyOperatorYAML (W := emptyWorld) recordingApplier (operatorOptions "")
      = returnErr (Panic "index out of range [-1]"))
  /\ ApplyOperatorYAML (W := brokenWorld) recordingApplier (operatorOptions "")
     = returnErr (ErrOther (Generic "Invalid Semantic Version")).
Proof.
  split.
  - apply (proj1 (latest_of_nothing (SV := semver) (W := emptyWorld)
                    recordingApplier "registry.example.com" "key.json")).
    repeat constructor.
  - apply (proj2 (latest_of_nothing (SV := semver) (W := brokenWorld)
                    recordingApplier "registry.example.com" "key.json")).
    vm_compute. reflexivity.
Defined.

Lemma version_with_dot_prefix_witness :
  manifestVersion (W := world "ABC123") "./v1.2.0"
  = manifestVersion (W := world "ABC123") "v1.2.0"
  /\ ApplyOperatorYAML (W := world "ABC123") recordingApplier
       (operatorOptions "./v1.2.0")
     = ApplyOperatorYAML (W := world "ABC123") recordingApplier
         (operatorOptions "v1.2.0").
Proof.
  destruct (version_with_dot_prefix (SV := semver) (W := world "ABC123")
              recordingApplier "registry.example.com" "key.json" "v1.2.0"
              eq_refl) as [Hfile Happly].
  split; [exact Hfile|]. apply Happly. discriminate.
Defined.

Lemma missing_key_file_is_reported_witness :
  ImagePullSecret (W := world "ABC123") "missing.json" = Fail ErrNoKeyFile
  /\ ApplyOperatorYAML (W := world "ABC123") recordingApplier
       {| Version := "v1.2.0"; ImageRegistry := "registry.example.com";
          CredentialsLocation := "missing.json" |}
     = returnErr ErrNoKeyFile
  /\ exists returned,
      ApplyInstallationYAML (W := world "ABC123") recordingApplier
        missingKeyOptions
      = returnErr returned
      /\ errors_Is returned ErrNoKeyFile = true.
Proof.
  destruct (missing_key_file_is_reported (SV := semver) (W := world "ABC123")
              (VEN := venafi) "missing.json" (PathNotExist "missing.json")
              eq_refl eq_refl) as (Hsecret & Hoperator & Hinstallation).
  split; [exact Hsecret|]. split.
  - apply (Hoperator recordingApplier
             {| Version := "v1.2.0"; ImageRegistry := "registry.example.com";
                CredentialsLocation := "missing.json" |}
             (installer "v1.2.0") (installerTemplate "v1.2.0"));
      vm_compute; reflexivity.
  - apply (Hinstallation recordingApplier missingKeyOptions);
      [reflexivity|discriminate].
Defined.

Lemma status_independent_of_condition_order_witness :
  Status (clientReturning
            (OK (installationWith
                   [ condition "IstioCSRReady" "False" "pending";
                     condition "CertManagerReady" "True" "";
                     condition "UnknownType" "True" "" ])))
  = Status (clientReturning
              (OK (installationWith
                     [ condition "UnknownType" "True" "";
                       condition "CertManagerReady" "True" "";
                       condition "IstioCSRReady" "False" "pending" ]))).
Proof.
  eapply status_independent_of_condition_order.
  - reflexivity.
  - reflexivity.
  - simpl. solve_Permutation.
  - simpl. repeat constructor; rewrite ?elem_of_cons, ?elem_of_nil;
      intros H; repeat (destruct H as [H|H]; [discriminate H|]); done.
Defined.

Lemma versions_first_parse_error_witness :
  Versions (W := brokenWorld) = Fail (ErrOther (Generic "Invalid Semantic Version"))
  /\ latestManifest (W := brokenWorld)
     = Fail (ErrOther (Generic "Invalid Semantic Version")).
Proof.
  apply (versions_first_parse_error (SV := semver) (W := brokenWorld)
           ["v1.2.0"] ["nightly"] "latest").
  - vm_compute. reflexivity.
  - repeat constructor.
  - reflexivity.
Defined.

Lemma latest_is_not_exceeded_witness :
  exists latest,
    latest ∈ [(1, 10, 0); (1, 2, 0); (1, 9, 3)]%N
    /\ (forall other, other ∈ [(1, 10, 0); (1, 2, 0); (1, 9, 3)]%N ->
                      LessThan latest other = false)
    /\ latestManifest (W := world "ABC123")
       = lift (installers_Open (W := world "ABC123")
                 (filepath_Join
                    ["installers"; ("v" +:+ Version_String latest) +:+ ".yaml"])).
Proof.
  apply (latest_is_not_exceeded (SV := semver) (W := world "ABC123")
           releaseLess_asym releaseLess_not_trans).
  - repeat constructor.
  - discriminate.
Defined.

Lemma installation_stream_layout_witness :
  exists mf data docs,
    buildManifests (W := world "ABC123") (installationOptions ["edge"]) = OK mf
    /\ yaml_Marshal_Installation (installation mf) = OK data
    /\ Forall2 (fun secret doc => yaml_Marshal_Secret secret = OK doc)
               (secrets mf) docs
    /\ ApplyInstallationYAML (W := world "ABC123") recordingApplier
         (installationOptions ["edge"])
       = {| Applied := [data +:+ followingDocuments docs]; Returned := None |}
    /\ List.length docs = 2%nat.
Proof.
  assert (exists mf data docs,
             buildManifests (W := world "ABC123") (installationOptions ["edge"])
             = OK mf
             /\ yaml_Marshal_Installation (installation mf) = OK data
             /\ Forall2 (fun secret doc => yaml_Marshal_Secret secret = OK doc)
                        (secrets mf) docs)
    as (mf & data & docs & Hbuild & Hdata & Hdocs).
  { do 3 eexists. split; [vm_compute; reflexivity|].
    split; [reflexivity|]. repeat constructor. }
  exists mf, data, docs. split; [exact Hbuild|]. split; [exact Hdata|].
  split; [exact Hdocs|].
  exact (installation_stream_layout (W := world "ABC123") recordingApplier
           (installationOptions ["edge"]) mf data docs Hbuild Hdata Hdocs).
Defined.
